(** * Space: the robot rig and state-sync core of the simulator

  A shallow embedding of the class [Space] (wheel and servo drive,
  swing-twist pose-delta extraction, the state reconciler, the
  scene-change listener and the rig builder) together with the properties
  its design document states about it.

  Numbers.  The program computes with JavaScript numbers (binary64).
  They are idealised here as real numbers ([R]): comparisons, [Math.max],
  [Math.min], [Math.abs], [Math.sqrt] and [Math.acos] are the real
  functions, and no operation rounds.  The program divides in one place
  only that could meet a zero divisor, [Quaternion.normalize], and the
  engine guards it: a quaternion of length zero is returned as it is.
  [Math.acos] is applied only to the scalar part of what [normalize]
  returns, which lies between -1 and 1.  So no number of this model is a
  NaN.

  What the idealisation cannot say.  Where the program compares two
  numbers that are equal, or nearly so, over the reals, rounding decides
  the branch the program takes, and the real-number model takes one
  branch for certain.  This happens at the thresholds of the servo
  controller ([setServoPositions]) and, above all, in
  [getTwistForQuaternion]: the test [dotProd < 0] on a delta rotation
  whose vector part is zero over the reals is decided by a rounding
  residue, and turns the extracted angle from 0 into a full turn (the
  module [Binary64] repeats the extraction on the program's own numbers
  and shows one such orientation).  The properties stated over the reals
  below are stated away from such points: on open intervals
  between the thresholds; on the extracted angle after the caller has
  wrapped it, which sends 0 and a full turn to the same value; and on
  rotations the program composes from identity quaternions, where its own
  arithmetic is exact. *)

From Stdlib Require Import Floats.
From Stdlib Require Import Reals Lra Psatz List String Bool Arith Lia ZArith DecimalString.
Import ListNotations.

Open Scope R_scope.

(** ** The engine's vector and quaternion arithmetic

  [Babylon] is the rendering engine the program is built on.  The module
  gives the operations of its [Vector3] and [Quaternion] classes that
  [Space] calls, each with the arithmetic of the engine's method of the
  same name. *)
Module Babylon.

Record Vector3 : Type := mkVector3 { vx : R; vy : R; vz : R }.

Record Quaternion : Type := mkQuaternion { qx : R; qy : R; qz : R; qw : R }.

Module Vec.

Definition Zero : Vector3 := mkVector3 0 0 0.

Definition Up : Vector3 := mkVector3 0 1 0.

Definition Dot (l r : Vector3) : R :=
  vx l * vx r + vy l * vy r + vz l * vz r.

Definition scale (v : Vector3) (s : R) : Vector3 :=
  mkVector3 (vx v * s) (vy v * s) (vz v * s).

Definition add (v o : Vector3) : Vector3 :=
  mkVector3 (vx v + vx o) (vy v + vy o) (vz v + vz o).

Definition subtract (v o : Vector3) : Vector3 :=
  mkVector3 (vx v - vx o) (vy v - vy o) (vz v - vz o).

Definition lengthSquared (v : Vector3) : R :=
  vx v * vx v + vy v * vy v + vz v * vz v.

Definition length (v : Vector3) : R := sqrt (lengthSquared v).

End Vec.

Module Quat.

(** [new Babylon.Quaternion()] and [Quaternion.Identity()] *)
Definition Identity : Quaternion := mkQuaternion 0 0 0 1.

(** [Quaternion.Inverse(q)]: the conjugate *)
Definition Inverse (q : Quaternion) : Quaternion :=
  mkQuaternion (- qx q) (- qy q) (- qz q) (qw q).

(** [a.multiply(b)]: the Hamilton product, [a] on the left *)
Definition multiply (a b : Quaternion) : Quaternion :=
  mkQuaternion
    (qx a * qw b + qy a * qz b - qz a * qy b + qw a * qx b)
    (- qx a * qz b + qy a * qw b + qz a * qx b + qw a * qy b)
    (qx a * qy b - qy a * qx b + qz a * qw b + qw a * qz b)
    (- qx a * qx b - qy a * qy b - qz a * qz b + qw a * qw b).

Definition lengthSquared (q : Quaternion) : R :=
  qx q * qx q + qy q * qy q + qz q * qz q + qw q * qw q.

Definition length (q : Quaternion) : R := sqrt (lengthSquared q).

(** [q.scaleInPlace(s)] *)
Definition scaleInPlace (q : Quaternion) (s : R) : Quaternion :=
  mkQuaternion (qx q * s) (qy q * s) (qz q * s) (qw q * s).

(** [q.normalize()]: a quaternion of length zero is returned as it is;
    of any other, every component is multiplied by [1 / length]. *)
Definition normalize (q : Quaternion) : Quaternion :=
  if Req_dec_T (length q) 0 then q
  else scaleInPlace q (1 / length q).

(** [Quaternion.RotationAxis(axis, angle)] *)
Definition RotationAxis (axis : Vector3) (angle : R) : Quaternion :=
  mkQuaternion (vx axis * sin (angle / 2)) (vy axis * sin (angle / 2))
               (vz axis * sin (angle / 2)) (cos (angle / 2)).

(** The vector [v] rotated by [q]: the vector part of [q v q^-1]. *)
Definition rotateVector (q : Quaternion) (v : Vector3) : Vector3 :=
  let r := multiply (multiply q (mkQuaternion (vx v) (vy v) (vz v) 0))
                    (Inverse q) in
  mkVector3 (qx r) (qy r) (qz r).

End Quat.

End Babylon.

Import Babylon.

(** ** JavaScript exceptions and results *)

Inductive Exn : Type :=
| JsError (message : string)   (* [throw new Error(message)] *)
| TypeError.                   (* a property read on [null] or [undefined] *)

Inductive Result (A : Type) : Type :=
| Ok (a : A)
| Throw (e : Exn).

Arguments Ok {A} a.
Arguments Throw {A} e.

(** ** Robot state held in the store *)

(** Modelled from the spec: a four-channel array of [RobotState]
    ([motorSpeeds], [motorPositions], [servoPositions]), indexed 0..3. *)
Record Tuple4 (A : Type) : Type := mkTuple4 { at0 : A; at1 : A; at2 : A; at3 : A }.

Arguments mkTuple4 {A} _ _ _ _.
Arguments at0 {A} _.
Arguments at1 {A} _.
Arguments at2 {A} _.
Arguments at3 {A} _.

(** Modelled from the spec: [RobotState] of module [RobotState], the
    process-wide record of motor speeds, motor positions (ticks), servo
    positions (ticks) and sensor values. *)
Record RobotState : Type := mkRobotState {
  motorSpeeds : Tuple4 R;
  motorPositions : Tuple4 R;
  servoPositions : Tuple4 R;
  analogValues : list R;
  digitalValues : list bool
}.

(** ** The physics world as [Space] sees it *)

Inductive ImpostorType : Type :=
| NoImpostor
| BoxImpostor
| SphereImpostor
| CylinderImpostor.

(** [new PhysicsImpostor(mesh, type, { mass, friction }, scene)]; a new
    impostor is at rest. *)
Record PhysicsImpostor : Type := mkPhysicsImpostor {
  impostorType : ImpostorType;
  mass : R;
  friction : option R;
  linearVelocity : Vector3;
  angularVelocity : Vector3
}.

(** A mesh of the scene.  [position] and [rotationQuaternion] are the
    absolute ones; [parent] is the name of the parent node. *)
Record Mesh : Type := mkMesh {
  name : string;
  position : Vector3;
  rotationQuaternion : Quaternion;
  scaling : Vector3;
  parent : option string;
  physicsImpostor : option PhysicsImpostor;
  isPickable : bool;
  isVisible : bool
}.

Record TransformNode : Type := mkTransformNode {
  nodeName : string;
  absolutePosition : Vector3;
  absolutePivotPoint : Vector3;
  absoluteRotationQuaternion : Quaternion;
  nodeScaling : Vector3;
  nodeParent : option string
}.

Record PhysicsJointData : Type := mkPhysicsJointData {
  mainPivot : Vector3;
  connectedPivot : Vector3;
  mainAxis : Vector3;
  connectedAxis : Vector3
}.

(** The last [setMotor(force, maxForce)] a joint received. *)
Inductive MotorCommand : Type :=
| Motor (force : R) (maxForce : option R).

Record MotorEnabledJoint : Type := mkMotorEnabledJoint {
  jointData : PhysicsJointData;
  motor : option MotorCommand
}.

(** The five root meshes, the four joints and the four recorded rotations
    are private fields of [Space]; each family is a map from the field's
    name. *)
Inductive RootMeshField : Type :=
| bodyCompoundRootMesh
| colliderLeftWheelMesh
| colliderRightWheelMesh
| armCompoundRootMesh
| clawCompoundRootMesh.

Inductive JointField : Type :=
| leftWheelJoint
| rightWheelJoint
| armJoint
| clawJoint.

Inductive RotationField : Type :=
| leftWheelRotationPrev
| rightWheelRotationPrev
| armRotationDefault
| clawRotationDefault.

Definition RootMeshField_eqb (a b : RootMeshField) : bool :=
  match a, b with
  | bodyCompoundRootMesh, bodyCompoundRootMesh
  | colliderLeftWheelMesh, colliderLeftWheelMesh
  | colliderRightWheelMesh, colliderRightWheelMesh
  | armCompoundRootMesh, armCompoundRootMesh
  | clawCompoundRootMesh, clawCompoundRootMesh => true
  | _, _ => false
  end.

Definition JointField_eqb (a b : JointField) : bool :=
  match a, b with
  | leftWheelJoint, leftWheelJoint
  | rightWheelJoint, rightWheelJoint
  | armJoint, armJoint
  | clawJoint, clawJoint => true
  | _, _ => false
  end.

Definition RotationField_eqb (a b : RotationField) : bool :=
  match a, b with
  | leftWheelRotationPrev, leftWheelRotationPrev
  | rightWheelRotationPrev, rightWheelRotationPrev
  | armRotationDefault, armRotationDefault
  | clawRotationDefault, clawRotationDefault => true
  | _, _ => false
  end.

(** The mutable state of a [Space]: the engine's scene (meshes and
    transform nodes by name) and the private fields.  Each mesh is held
    once: a root mesh in its field, every other mesh of the scene in
    [sceneMeshes].  The three compound roots are created into their
    fields; the two wheel meshes, which come with the imported model,
    pass from [sceneMeshes] into their fields when [loadMeshes] finds
    them. *)
Record Space : Type := mkSpace {
  sceneMeshes : list Mesh;
  sceneTransformNodes : list TransformNode;
  rootMesh : RootMeshField -> option Mesh;
  joint : JointField -> option MotorEnabledJoint;
  rotation : RotationField -> option Quaternion;
  sensorObjects_ : list string;
  renderLoopRunning : bool;
  initializationPromise : option (Result unit)
}.

Definition setRootMesh (f : RootMeshField) (m : option Mesh) (s : Space) : Space :=
  mkSpace (sceneMeshes s) (sceneTransformNodes s)
          (fun g => if RootMeshField_eqb f g then m else rootMesh s g)
          (joint s) (rotation s) (sensorObjects_ s) (renderLoopRunning s) (initializationPromise s).

Definition setJoint (f : JointField) (j : option MotorEnabledJoint) (s : Space) : Space :=
  mkSpace (sceneMeshes s) (sceneTransformNodes s) (rootMesh s)
          (fun g => if JointField_eqb f g then j else joint s g)
          (rotation s) (sensorObjects_ s) (renderLoopRunning s) (initializationPromise s).

Definition setRotation (f : RotationField) (q : option Quaternion) (s : Space) : Space :=
  mkSpace (sceneMeshes s) (sceneTransformNodes s) (rootMesh s) (joint s)
          (fun g => if RotationField_eqb f g then q else rotation s g)
          (sensorObjects_ s) (renderLoopRunning s) (initializationPromise s).

Definition setSceneMeshes (ms : list Mesh) (s : Space) : Space :=
  mkSpace ms (sceneTransformNodes s) (rootMesh s) (joint s) (rotation s)
          (sensorObjects_ s) (renderLoopRunning s) (initializationPromise s).

Definition setSceneTransformNodes (ns : list TransformNode) (s : Space) : Space :=
  mkSpace (sceneMeshes s) ns (rootMesh s) (joint s) (rotation s)
          (sensorObjects_ s) (renderLoopRunning s) (initializationPromise s).

Definition setSensorObjects (l : list string) (s : Space) : Space :=
  mkSpace (sceneMeshes s) (sceneTransformNodes s) (rootMesh s) (joint s)
          (rotation s) l (renderLoopRunning s) (initializationPromise s).

Definition setRenderLoopRunning (b : bool) (s : Space) : Space :=
  mkSpace (sceneMeshes s) (sceneTransformNodes s) (rootMesh s) (joint s)
          (rotation s) (sensorObjects_ s) b (initializationPromise s).

Definition setInitializationPromise (p : option (Result unit)) (s : Space) : Space :=
  mkSpace (sceneMeshes s) (sceneTransformNodes s) (rootMesh s) (joint s)
          (rotation s) (sensorObjects_ s) (renderLoopRunning s) p.

(** ** Methods as state transformers that may throw

  A method of [Space] mutates the object and either returns or throws;
  what it mutated before throwing stays mutated. *)
Definition M (A : Type) : Type := Space -> Space * Result A.

Definition ret {A : Type} (a : A) : M A := fun s => (s, Ok a).

Definition throw {A : Type} (e : Exn) : M A := fun s => (s, Throw e).

Definition bind {A B : Type} (m : M A) (k : A -> M B) : M B :=
  fun s =>
    match m s with
    | (s', Ok a) => k a s'
    | (s', Throw e) => (s', Throw e)
    end.

Definition get : M Space := fun s => (s, Ok s).

Definition modify (f : Space -> Space) : M unit := fun s => (f s, Ok tt).

(** A property read through a reference that may be [undefined]. *)
Definition deref {A : Type} (o : option A) : M A :=
  match o with
  | Some a => ret a
  | None => throw TypeError
  end.

Declare Scope space_scope.
Delimit Scope space_scope with space.

Notation "x <- m ;; k" := (bind m (fun x => k))
  (at level 61, m at next level, right associativity) : space_scope.
Notation "m ;;; k" := (bind m (fun _ => k))
  (at level 61, right associativity) : space_scope.

Fixpoint forEach {A : Type} (l : list A) (body : A -> M unit) : M unit :=
  match l with
  | [] => ret tt
  | a :: l' => bind (body a) (fun _ => forEach l' body)
  end.

(** ** Units of measure

  [Distance], [Angle], [UnitVector3] and [Rotation] belong to the
  program's modules [util] and [unit-math]; [Space] imports them. *)

Module Distance.

(** Modelled from the spec: the length units of [Distance] (module
    [util]). *)
Inductive Unit : Type := meters | centimeters | feet | inches.

(** Modelled from the spec: [Distance] of module [util], a value together
    with the length unit the caller used (its unit "type"). *)
Record t : Type := mk { type : Unit; value : R }.

(** Modelled from the spec: the length of one unit in meters (the
    conversion table of [Distance] in module [util]). *)
Definition metersPerUnit (u : Unit) : R :=
  match u with
  | meters => 1
  | centimeters => 1 / 100
  | feet => 3048 / 10000
  | inches => 254 / 10000
  end.

(** Modelled from the spec: [Distance.toType], the same length expressed
    in another unit. *)
Definition toType (d : t) (u : Unit) : t :=
  mk u (value d * metersPerUnit (type d) / metersPerUnit u).

(** Modelled from the spec: [Distance.toCentimetersValue] of module
    [util], the length as a number of centimeters. *)
Definition toCentimetersValue (d : t) : R := value (toType d centimeters).

End Distance.

Module Angle.

(** Modelled from the spec: the angle units of [Angle] (module [util]). *)
Inductive Unit : Type := radians | degrees.

(** Modelled from the spec: [Angle] of module [util], a value together
    with the angle unit the caller used. *)
Record t : Type := mk { type : Unit; value : R }.

(** Modelled from the spec: the size of one unit in radians (the
    conversion table of [Angle] in module [util]). *)
Definition radiansPerUnit (u : Unit) : R :=
  match u with
  | radians => 1
  | degrees => PI / 180
  end.

(** Modelled from the spec: [Angle.toType] of module [util], the same
    angle expressed in another unit. *)
Definition toType (a : t) (u : Unit) : t :=
  mk u (value a * radiansPerUnit (type a) / radiansPerUnit u).

(** Modelled from the spec: [Angle.toRadians] of module [util]. *)
Definition toRadians (a : t) : t := toType a radians.

(** Modelled from the spec: [Angle.toRadiansValue] of module [util], the
    angle as a number of radians. *)
Definition toRadiansValue (a : t) : R := value (toRadians a).

End Angle.

Module UnitVector3.

(** Modelled from the spec: [Vector3] of module [unit-math], three
    distances, each with its own unit. *)
Record t : Type := mk { x : Distance.t; y : Distance.t; z : Distance.t }.

(** Modelled from the spec: [Vector3.zero] of module [unit-math], the
    origin with every coordinate in unit [u]. *)
Definition zero (u : Distance.Unit) : t :=
  mk (Distance.mk u 0) (Distance.mk u 0) (Distance.mk u 0).

(** Modelled from the spec: [Vector3.fromRaw] of module [unit-math], raw
    coordinates read as lengths in unit [u]. *)
Definition fromRaw (raw : Vector3) (u : Distance.Unit) : t :=
  mk (Distance.mk u (vx raw)) (Distance.mk u (vy raw)) (Distance.mk u (vz raw)).

(** Modelled from the spec: [Vector3.toRaw] of module [unit-math], the
    coordinates as numbers of unit [u]. *)
Definition toRaw (v : t) (u : Distance.Unit) : Vector3 :=
  mkVector3 (Distance.value (Distance.toType (x v) u))
            (Distance.value (Distance.toType (y v) u))
            (Distance.value (Distance.toType (z v) u)).

(** Modelled from the spec: [Vector3.toTypeGranular] of module
    [unit-math], each coordinate converted to its own unit. *)
Definition toTypeGranular (v : t) (ux uy uz : Distance.Unit) : t :=
  mk (Distance.toType (x v) ux) (Distance.toType (y v) uy)
     (Distance.toType (z v) uz).

(** Modelled from the spec: [Vector3.distance] of module [unit-math].  Its
    caller in [Space] documents the result as the distance between the
    two positions in meters. *)
Definition distance (a b : t) : Distance.t :=
  Distance.mk Distance.meters
              (Vec.length (Vec.subtract (toRaw a Distance.meters)
                                        (toRaw b Distance.meters))).

End UnitVector3.

Module Rotation.

(** Modelled from the spec: the representations of [Rotation] (module
    [unit-math]). *)
Inductive Kind : Type := euler | angle_axis.

(** Modelled from the spec: [Rotation] of module [unit-math], an
    orientation together with the representation the caller used (its
    "type"). *)
Record t : Type := mk { type : Kind; raw : Quaternion }.

(** Modelled from the spec: [Rotation.fromRawQuaternion] of module
    [unit-math]. *)
Definition fromRawQuaternion (q : Quaternion) (k : Kind) : t := mk k q.

(** Modelled from the spec: [Rotation.toRawQuaternion] of module
    [unit-math]. *)
Definition toRawQuaternion (r : t) : Quaternion := raw r.

(** Modelled from the spec: [Rotation.toType] of module [unit-math], the
    same orientation in another representation. *)
Definition toType (r : t) (k : Kind) : t := mk k (raw r).

(** Modelled from the spec: [Rotation.Euler.identity] of module
    [unit-math]. *)
Definition identity : t := mk euler Quat.Identity.

(** Modelled from the spec: [Rotation.angle] of module [unit-math], the
    angle between two orientations. *)
Definition angle (a b : t) : Angle.t :=
  let d := qx (raw a) * qx (raw b) + qy (raw a) * qy (raw b)
           + qz (raw a) * qz (raw b) + qw (raw a) * qw (raw b) in
  Angle.mk Angle.radians (acos (2 * d * d - 1)).

End Rotation.

(** Modelled from the spec: [ReferenceFrame] of module [unit-math], an
    origin (position, orientation, scale) in physical units; every field
    is optional. *)
Record UnitReferenceFrame : Type := mkUnitReferenceFrame {
  framePosition : option UnitVector3.t;
  frameOrientation : option Rotation.t;
  frameScale : option Vector3
}.

(** Modelled from the spec: [RobotPosition] of module [RobotPosition]. *)
Record RobotPosition : Type := mkRobotPosition {
  posX : Distance.t;
  posY : Distance.t;
  posZ : Distance.t;
  posTheta : Angle.t
}.

(** ** Constants of [Space] *)

Definition WHEEL_TICKS_PER_RADIAN : R := 2048 / (2 * PI).

(** Servos on the robot normally only have 175 degrees of range *)
Definition SERVO_DEFUALT_RADIANS : R := 87.5 * PI / 180.

Definition SERVO_TICKS_PER_RADIAN : R := 2048 / (2 * SERVO_DEFUALT_RADIANS).

Definition ARM_DEFAULT_ROTATION : R := SERVO_DEFUALT_RADIANS.

Definition CLAW_DEFAULT_ROTATION : R := 175 * PI / 180.

Definition MAX_MOTOR_VELOCITY : R := 1500.

(** The axes along which joint rotations are calculated *)
Definition wheelRotationVector : Vector3 := mkVector3 0 (-1) 0.

Definition armRotationVector : Vector3 := mkVector3 1 0 0.

Definition clawRotationVector : Vector3 := mkVector3 0 0 (-1).

(** ** Pose-delta extraction (swing-twist decomposition) *)

(** [getTwistForQuaternion(q, direction)]: the twist of [q] about
    [direction], which the caller passes normalized. *)
Definition getTwistForQuaternion (q : Quaternion) (direction : Vector3)
  : Quaternion :=
  let rotationAxis := mkVector3 (qx q) (qy q) (qz q) in
  (* Calculate vector projection of vector onto direction *)
  let dotProd := Vec.Dot direction rotationAxis in
  let projection := Vec.scale direction dotProd in
  let twist :=
    Quat.normalize (mkQuaternion (vx projection) (vy projection)
                                 (vz projection) (qw q)) in
  (* If the result is in the opposite-facing axis, convert it to the
     correct-facing axis *)
  if Rlt_dec dotProd 0 then Quat.scaleInPlace twist (-1) else twist.

(** [getDeltaRotationOnAxis(start, end, axis)]: the rotation, in radians,
    between [start] and [end] about [axis].  The angle jumps from 0 to a
    full turn where the twist passes from the positive to the negative
    side of the axis; for [end] equal to [start] the program's arithmetic
    is on either side of the jump, this model on the side of 0. *)
Definition getDeltaRotationOnAxis (start end_ : Quaternion) (axis : Vector3)
  : R :=
  let axisQuaternion := mkQuaternion (vx axis) (vy axis) (vz axis) 0 in
  let axisLocalQuaternion :=
    Quat.multiply (Quat.multiply start axisQuaternion) (Quat.Inverse start) in
  let axisLocalVector :=
    mkVector3 (qx axisLocalQuaternion) (qy axisLocalQuaternion)
              (qz axisLocalQuaternion) in
  let delta := Quat.multiply end_ (Quat.Inverse start) in
  let twist := getTwistForQuaternion delta axisLocalVector in
  2 * acos (qw twist).

(** ** Pose-delta extraction in the program's arithmetic

  The two functions once more, on binary64 numbers with every operation
  rounded to nearest, as JavaScript computes them: the branch
  [dotProd < 0] is taken on the number the program has, not on the real
  number it stands for.  Only [Math.acos] is not computed: its result is
  given as the real arc cosine of its argument, which the program's result
  rounds. *)
Module Binary64.

Local Open Scope float_scope.

Record Vector3 : Type := mkVector3 { vx : float; vy : float; vz : float }.

Record Quaternion : Type :=
  mkQuaternion { qx : float; qy : float; qz : float; qw : float }.

Definition Dot (l r : Vector3) : float :=
  vx l * vx r + vy l * vy r + vz l * vz r.

Definition scale (v : Vector3) (s : float) : Vector3 :=
  mkVector3 (vx v * s) (vy v * s) (vz v * s).

Definition Inverse (q : Quaternion) : Quaternion :=
  mkQuaternion (- qx q) (- qy q) (- qz q) (qw q).

Definition multiply (a b : Quaternion) : Quaternion :=
  mkQuaternion
    (qx a * qw b + qy a * qz b - qz a * qy b + qw a * qx b)
    (- qx a * qz b + qy a * qw b + qz a * qx b + qw a * qy b)
    (qx a * qy b - qy a * qx b + qz a * qw b + qw a * qz b)
    (- qx a * qx b - qy a * qy b - qz a * qz b + qw a * qw b).

Definition length (q : Quaternion) : float :=
  PrimFloat.sqrt (qx q * qx q + qy q * qy q + qz q * qz q + qw q * qw q).

Definition scaleInPlace (q : Quaternion) (s : float) : Quaternion :=
  mkQuaternion (qx q * s) (qy q * s) (qz q * s) (qw q * s).

Definition normalize (q : Quaternion) : Quaternion :=
  if length q =? 0 then q else scaleInPlace q (1 / length q).

(** The real number a binary64 number is; none for the infinities and
    NaN. *)
Definition toR (x : float) : option R :=
  match Prim2SF x with
  | S754_zero _ => Some 0%R
  | S754_finite s m e =>
      Some ((if s then -1 else 1) * IZR (Zpos m) * powerRZ 2 e)%R
  | _ => None
  end.

(** [Math.acos(x)], before its rounding; none where it is NaN. *)
Definition Math_acos (x : float) : option R :=
  match toR x with
  | Some r => if Rle_dec (Rabs r) 1 then Some (acos r) else None
  | None => None
  end.

Definition getTwistForQuaternion (q : Quaternion) (direction : Vector3)
  : Quaternion :=
  let rotationAxis := mkVector3 (qx q) (qy q) (qz q) in
  let dotProd := Dot direction rotationAxis in
  let projection := scale direction dotProd in
  let twist :=
    normalize (mkQuaternion (vx projection) (vy projection)
                            (vz projection) (qw q)) in
  if dotProd <? 0 then scaleInPlace twist (-1) else twist.

(** What [getDeltaRotationOnAxis] hands to [getTwistForQuaternion]. *)
Definition deltaAndAxis (start end_ : Quaternion) (axis : Vector3)
  : Quaternion * Vector3 :=
  let axisQuaternion := mkQuaternion (vx axis) (vy axis) (vz axis) 0 in
  let axisLocalQuaternion :=
    multiply (multiply start axisQuaternion) (Inverse start) in
  let axisLocalVector :=
    mkVector3 (qx axisLocalQuaternion) (qy axisLocalQuaternion)
              (qz axisLocalQuaternion) in
  let delta := multiply end_ (Inverse start) in
  (delta, axisLocalVector).

Definition getDeltaRotationOnAxis (start end_ : Quaternion) (axis : Vector3)
  : option R :=
  let '(delta, axisLocalVector) := deltaAndAxis start end_ axis in
  let twist := getTwistForQuaternion delta axisLocalVector in
  option_map (fun a => 2 * a)%R (Math_acos (qw twist)).

Definition wheelRotationVector : Vector3 := mkVector3 0 (-1) 0.


End Binary64.

(** ** Engine calls on the fields of [Space] *)

Definition withImpostor (i : option PhysicsImpostor) (m : Mesh) : Mesh :=
  mkMesh (name m) (position m) (rotationQuaternion m) (scaling m) (parent m)
         i (isPickable m) (isVisible m).

Definition withParent (p : option string) (m : Mesh) : Mesh :=
  mkMesh (name m) (position m) (rotationQuaternion m) (scaling m) p
         (physicsImpostor m) (isPickable m) (isVisible m).

Definition withPose (p : Vector3) (q : Quaternion) (m : Mesh) : Mesh :=
  mkMesh (name m) p q (scaling m) (parent m) (physicsImpostor m)
         (isPickable m) (isVisible m).

Definition withScaling (sc : Vector3) (m : Mesh) : Mesh :=
  mkMesh (name m) (position m) (rotationQuaternion m) sc (parent m)
         (physicsImpostor m) (isPickable m) (isVisible m).

Definition withPickable (b : bool) (m : Mesh) : Mesh :=
  mkMesh (name m) (position m) (rotationQuaternion m) (scaling m) (parent m)
         (physicsImpostor m) b (isVisible m).

Definition withVisible (b : bool) (m : Mesh) : Mesh :=
  mkMesh (name m) (position m) (rotationQuaternion m) (scaling m) (parent m)
         (physicsImpostor m) (isPickable m) b.

(** ** The scene graph

  A mesh or a transform node holds its absolute pose and the name of its
  parent.  When the engine moves, turns or scales a node, whatever hangs
  under it is carried along: its absolute pose goes through the same map
  of space. *)

(** The array [rootMeshes] of [setRobotPosition] and [setOrigin]. *)
Definition rootMeshes : list RootMeshField :=
  [ bodyCompoundRootMesh; colliderLeftWheelMesh; colliderRightWheelMesh;
    armCompoundRootMesh; clawCompoundRootMesh ].

Definition heldRootMeshes (s : Space) : list Mesh :=
  flat_map (fun f => match rootMesh s f with Some m => [m] | None => [] end)
           rootMeshes.

(** The parent of the node named [n]: of a mesh of the scene, of a
    transform node, or of a root mesh held in a field. *)
Definition parentOf (s : Space) (n : string) : option string :=
  match find (fun m => String.eqb (name m) n) (sceneMeshes s) with
  | Some m => parent m
  | None =>
      match find (fun t => String.eqb (nodeName t) n) (sceneTransformNodes s) with
      | Some t => nodeParent t
      | None =>
          match find (fun m => String.eqb (name m) n) (heldRootMeshes s) with
          | Some m => parent m
          | None => None
          end
      end
  end.

(** A node whose parent is [p] hangs under the node named [ancestor]:
    [ancestor] is its parent, or its parent hangs under [ancestor].  The
    search goes up at most [fuel] parents. *)
Fixpoint hangsUnder (fuel : nat) (s : Space) (ancestor : string)
  (p : option string) : bool :=
  match p with
  | None => false
  | Some p =>
      String.eqb p ancestor
      || match fuel with
         | O => false
         | S fuel' => hangsUnder fuel' s ancestor (parentOf s p)
         end
  end.

(** No chain of parents is longer than the scene has nodes. *)
Definition sceneSize (s : Space) : nat :=
  List.length (sceneMeshes s) + List.length (sceneTransformNodes s)
  + List.length rootMeshes.

(** A map of space: what it makes of a position, of a rotation and of a
    scaling. *)
Record Motion : Type := mkMotion {
  movePosition : Vector3 -> Vector3;
  moveRotation : Quaternion -> Quaternion;
  moveScaling : Vector3 -> Vector3
}.

Definition moveMesh (mv : Motion) (m : Mesh) : Mesh :=
  mkMesh (name m) (movePosition mv (position m))
         (moveRotation mv (rotationQuaternion m)) (moveScaling mv (scaling m))
         (parent m) (physicsImpostor m) (isPickable m) (isVisible m).

Definition moveNode (mv : Motion) (t : TransformNode) : TransformNode :=
  mkTransformNode (nodeName t) (movePosition mv (absolutePosition t))
                  (movePosition mv (absolutePivotPoint t))
                  (moveRotation mv (absoluteRotationQuaternion t))
                  (moveScaling mv (nodeScaling t)) (nodeParent t).

(** Everything that hangs under the node named [ancestor] goes through
    [mv]. *)
Definition carry (ancestor : string) (mv : Motion) (s : Space) : Space :=
  let carried (p : option string) := hangsUnder (sceneSize s) s ancestor p in
  mkSpace
    (map (fun m => if carried (parent m) then moveMesh mv m else m)
         (sceneMeshes s))
    (map (fun t => if carried (nodeParent t) then moveNode mv t else t)
         (sceneTransformNodes s))
    (fun g => option_map (fun m => if carried (parent m) then moveMesh mv m else m)
                         (rootMesh s g))
    (joint s) (rotation s) (sensorObjects_ s) (renderLoopRunning s)
    (initializationPromise s).

(** The node at [from] is put at [to]. *)
Definition translation (from to : Vector3) : Motion :=
  mkMotion (fun p => Vec.add p (Vec.subtract to from)) (fun q => q) (fun v => v).

(** The node at [pivot] is turned by [turn]. *)
Definition turnAbout (pivot : Vector3) (turn : Quaternion) : Motion :=
  mkMotion (fun p => Vec.add pivot (Quat.rotateVector turn (Vec.subtract p pivot)))
           (fun q => Quat.multiply turn q) (fun v => v).

(** The scaling of the node at [center] is multiplied by [k]. *)
Definition scalingAbout (center : Vector3) (k : R) : Motion :=
  mkMotion (fun p => Vec.add center (Vec.scale (Vec.subtract p center) k))
           (fun q => q) (fun v => Vec.scale v k).

Local Open Scope space_scope.

(** [this.<joint>.setMotor(force, maxForce)] *)
Definition setMotor (f : JointField) (force : R) (maxForce : option R) : M unit :=
  s <- get ;;
  j <- deref (joint s f) ;;
  modify (setJoint f (Some (mkMotorEnabledJoint (jointData j)
                                                (Some (Motor force maxForce))))).

(** [this.<mesh>.physicsImpostor.setLinearVelocity(v)] *)
Definition setLinearVelocity (f : RootMeshField) (v : Vector3) : M unit :=
  s <- get ;;
  m <- deref (rootMesh s f) ;;
  i <- deref (physicsImpostor m) ;;
  modify (setRootMesh f (Some (withImpostor
    (Some (mkPhysicsImpostor (impostorType i) (mass i) (friction i) v
                             (angularVelocity i))) m))).

(** [this.<mesh>.physicsImpostor.setAngularVelocity(v)] *)
Definition setAngularVelocity (f : RootMeshField) (v : Vector3) : M unit :=
  s <- get ;;
  m <- deref (rootMesh s f) ;;
  i <- deref (physicsImpostor m) ;;
  modify (setRootMesh f (Some (withImpostor
    (Some (mkPhysicsImpostor (impostorType i) (mass i) (friction i)
                             (linearVelocity i) v)) m))).

(** [this.<mesh>.setParent(node)]: the absolute pose is kept. *)
Definition setParent (f : RootMeshField) (p : option string) : M unit :=
  s <- get ;;
  m <- deref (rootMesh s f) ;;
  modify (setRootMesh f (Some (withParent p m))).

(** [this.<mesh>.rotationQuaternion] *)
Definition rotationOf (f : RootMeshField) : M Quaternion :=
  s <- get ;;
  m <- deref (rootMesh s f) ;;
  ret (rotationQuaternion m).

(** ** Wheel drive *)

(** [Math.max(-this.MAX_MOTOR_VELOCITY, Math.min(speed, this.MAX_MOTOR_VELOCITY))] *)
Definition clampSpeed (speed : R) : R :=
  Rmax (- MAX_MOTOR_VELOCITY) (Rmin speed MAX_MOTOR_VELOCITY).

Definition setDriveMotors (leftSpeed rightSpeed : R) : M unit :=
  s <- get ;;
  (* One motor is negative because the wheel joints are created on
     opposite axes *)
  match joint s leftWheelJoint, joint s rightWheelJoint with
  | Some _, Some _ =>
      let leftSpeedClamped := clampSpeed leftSpeed in
      let rightSpeedClamped := clampSpeed rightSpeed in
      setMotor leftWheelJoint (leftSpeedClamped / 315) None ;;;
      setMotor rightWheelJoint (- rightSpeedClamped / 315) None
  | _, _ => ret tt
  end ;;;
  (if Req_dec_T leftSpeed 0
   then setAngularVelocity colliderLeftWheelMesh Vec.Zero
   else ret tt) ;;;
  (if Req_dec_T rightSpeed 0
   then setAngularVelocity colliderRightWheelMesh Vec.Zero
   else ret tt).

(** ** Servo drive *)

(** [if (rotation >= Math.PI) rotation = rotation - 2 * Math.PI] *)
Definition wrapServoRotation (rotation : R) : R :=
  if Rge_dec rotation PI then rotation - 2 * PI else rotation.

(** The constants [armDelta], [armSign] and [armDeltaNorm] of
    [setServoPositions], from the arm's wrapped rotation and the goals. *)
Definition armDelta (armRotation : R) (goals : Tuple4 R) : R :=
  armRotation + ARM_DEFAULT_ROTATION - at0 goals / SERVO_TICKS_PER_RADIAN.

Definition armSign (armDelta : R) : R :=
  if Rge_dec armDelta 0 then 1 else -1.

Definition armDeltaNorm (armDelta : R) : R :=
  Rabs (armDelta / (SERVO_DEFUALT_RADIANS * 2)).

(** The constants [clawDelta], [clawSign] and [clawDeltaNorm]. *)
Definition clawDelta (clawRotation : R) (goals : Tuple4 R) : R :=
  clawRotation - CLAW_DEFAULT_ROTATION + at3 goals / SERVO_TICKS_PER_RADIAN.

Definition clawSign (clawDelta : R) : R :=
  if Rge_dec clawDelta 0 then -1 else 1.

Definition clawDeltaNorm (clawDelta : R) : R :=
  Rabs (clawDelta / (SERVO_DEFUALT_RADIANS * 2)).

(** The [setMotor] call the arm joint receives, from the rotation
    [getDeltaRotationOnAxis] returned.  The comparisons with the
    thresholds are those of real numbers; at a threshold itself the
    program's rounded norm may fall on either side. *)
Definition armMotorCommand (rotation : R) (goals : Tuple4 R) : MotorCommand :=
  let armRotation := wrapServoRotation rotation in
  (* Get difference between goal and current rotation *)
  let armDelta := armDelta armRotation goals in
  let armSign := armSign armDelta in
  let armDeltaNorm := armDeltaNorm armDelta in
  (* Set motor for arm based on how close to goal mesh is *)
  if Rlt_dec armDeltaNorm 0.01 then Motor 0 None
  else if Rge_dec armDeltaNorm 0.001 then
         if Rle_dec armDeltaNorm 0.04
         then Motor (armSign * 1.2) (Some 8000)
         else Motor (armSign * 6) (Some 8000)
       else Motor (armSign * 6) (Some 8000).

(** The [setMotor] call the claw joint receives. *)
Definition clawMotorCommand (rotation : R) (goals : Tuple4 R) : MotorCommand :=
  let clawRotation := wrapServoRotation rotation in
  let clawDelta := clawDelta clawRotation goals in
  let clawSign := clawSign clawDelta in
  let clawDeltaNorm := clawDeltaNorm clawDelta in
  if Rlt_dec clawDeltaNorm 0.01 then Motor 0 None
  else if Rge_dec clawDeltaNorm 0.001 then
         if Rle_dec clawDeltaNorm 0.04
         then Motor (clawSign * 1.2) (Some 2000)
         else Motor (clawSign * 6) (Some 2000)
       else Motor (clawSign * 6) (Some 2000).

Definition issue (f : JointField) (c : MotorCommand) : M unit :=
  match c with
  | Motor force maxForce => setMotor f force maxForce
  end.

Definition setServoPositions (goals : Tuple4 R) : M unit :=
  bodyCurrQuat <- rotationOf bodyCompoundRootMesh ;;
  armCurrQuat <- rotationOf armCompoundRootMesh ;;
  clawCurrQuat <- rotationOf clawCompoundRootMesh ;;
  (* arm *)
  let armCurr := Quat.multiply (Quat.Inverse bodyCurrQuat) armCurrQuat in
  s <- get ;;
  armDefault <- deref (rotation s armRotationDefault) ;;
  issue armJoint
        (armMotorCommand
           (getDeltaRotationOnAxis armDefault armCurr armRotationVector)
           goals) ;;;
  (* claw *)
  let clawCurr := Quat.multiply (Quat.Inverse armCurrQuat) clawCurrQuat in
  clawDefault <- deref (rotation s clawRotationDefault) ;;
  issue clawJoint
        (clawMotorCommand
           (getDeltaRotationOnAxis clawDefault clawCurr clawRotationVector)
           goals).

(** ** The after-render callback: encoder feedback *)

(** [if (rotation > Math.PI) rotation = rotation - 2 * Math.PI] *)
Definition wrapWheelRotation (rotation : R) : R :=
  if Rgt_dec rotation PI then rotation - 2 * PI else rotation.

(** The rotation of one wheel since the previous frame, as the callback
    computes it: extraction about the wheel axis, then the wrap. *)
Definition wheelRotation (prev curr : Quaternion) : R :=
  wrapWheelRotation (getDeltaRotationOnAxis prev curr wheelRotationVector).

(** The callback registered with [registerAfterRender].  It is given the
    robot state read from the store and returns the robot state it
    dispatches to the store with [setRobotState]. *)
Definition afterRender (currRobotState : RobotState) : M RobotState :=
  setDriveMotors (at0 (motorSpeeds currRobotState))
                 (at3 (motorSpeeds currRobotState)) ;;;
  setServoPositions (servoPositions currRobotState) ;;;
  bodyQuat <- rotationOf bodyCompoundRootMesh ;;
  leftQuat <- rotationOf colliderLeftWheelMesh ;;
  let leftWheelRotationCurr := Quat.multiply (Quat.Inverse bodyQuat) leftQuat in
  rightQuat <- rotationOf colliderRightWheelMesh ;;
  let rightWheelRotationCurr := Quat.multiply (Quat.Inverse bodyQuat) rightQuat in
  s <- get ;;
  leftPrev <- deref (rotation s leftWheelRotationPrev) ;;
  let leftRotation := wheelRotation leftPrev leftWheelRotationCurr in
  rightPrev <- deref (rotation s rightWheelRotationPrev) ;;
  let rightRotation := wheelRotation rightPrev rightWheelRotationCurr in
  (* Update motor positions based on wheel rotation *)
  let m0Position :=
    at0 (motorPositions currRobotState) + leftRotation * WHEEL_TICKS_PER_RADIAN in
  let m3Position :=
    at3 (motorPositions currRobotState) + rightRotation * WHEEL_TICKS_PER_RADIAN in
  modify (setRotation leftWheelRotationPrev (Some leftWheelRotationCurr)) ;;;
  modify (setRotation rightWheelRotationPrev (Some rightWheelRotationCurr)) ;;;
  ret (mkRobotState (motorSpeeds currRobotState)
                    (mkTuple4 m0Position 0 0 m3Position)
                    (servoPositions currRobotState)
                    (analogValues currRobotState)
                    (digitalValues currRobotState)).

(** ** Repositioning the robot *)

Definition resetTransformNode : string := "resetTransformNode".

(** First loop of [setRobotPosition] and [setOrigin]: stop each root mesh
    and parent it to the reset node. *)
Definition stopAndAttach : M unit :=
  forEach rootMeshes (fun rootMesh =>
    (* Stop the robot's motion in case it was falling or otherwise moving *)
    setLinearVelocity rootMesh Vec.Zero ;;;
    setAngularVelocity rootMesh Vec.Zero ;;;
    setParent rootMesh (Some resetTransformNode)).

(** [resetTransformNode.setAbsolutePosition(to)], the node being at
    [from]: the root meshes parented to it, and what hangs under them, are
    carried along. *)
Definition moveResetNode (from to : Vector3) : M unit :=
  modify (carry resetTransformNode (translation from to)).

(** [resetTransformNode.rotationQuaternion = to], the node being at
    position [pivot] with rotation [from]: what hangs under it turns about
    the node. *)
Definition rotateResetNode (pivot : Vector3) (from to : Quaternion) : M unit :=
  modify (carry resetTransformNode
                (turnAbout pivot (Quat.multiply to (Quat.Inverse from)))).

(** Second loop: unparent each root mesh (the reset node is then
    disposed). *)
Definition detach : M unit :=
  forEach rootMeshes (fun rootMesh => setParent rootMesh None).

(** Resets the position/rotation of the robot to the given values *)
Definition setRobotPosition (position_ : RobotPosition) : M unit :=
  s <- get ;;
  (* the reset node is created at the pose of the body root *)
  body <- deref (rootMesh s bodyCompoundRootMesh) ;;
  let nodePosition := position body in
  let nodeRotation := rotationQuaternion body in
  stopAndAttach ;;;
  let target :=
    mkVector3 (Distance.toCentimetersValue (posX position_))
              (Distance.toCentimetersValue (posY position_))
              (Distance.toCentimetersValue (posZ position_)) in
  moveResetNode nodePosition target ;;;
  rotateResetNode target nodeRotation
    (Quat.RotationAxis Vec.Up (Angle.toRadiansValue (posTheta position_))) ;;;
  detach.

Inductive SetOriginOutcome : Type :=
| Repositioned
| RetryScheduled (delayMs : nat).   (* [setTimeout(() => this.setOrigin(origin), 100)] *)

Definition anyRootMeshMissing (s : Space) : bool :=
  fold_left (fun acc mesh =>
               acc || match rootMesh s mesh with Some _ => false | None => true end)
            rootMeshes false.

Definition setOrigin (origin : UnitReferenceFrame) : M SetOriginOutcome :=
  s <- get ;;
  if anyRootMeshMissing s then ret (RetryScheduled 100)
  else
    body <- deref (rootMesh s bodyCompoundRootMesh) ;;
    let nodePosition := position body in
    let nodeRotation := rotationQuaternion body in
    stopAndAttach ;;;
    let target :=
      UnitVector3.toRaw
        (match framePosition origin with
         | Some p => p
         | None => UnitVector3.zero Distance.centimeters
         end) Distance.centimeters in
    moveResetNode nodePosition target ;;;
    let quat :=
      Rotation.toRawQuaternion
        (match frameOrientation origin with
         | Some o => o
         | None => Rotation.identity
         end) in
    rotateResetNode target nodeRotation quat ;;;
    detach ;;;
    ret Repositioned.

(** ** State reconciler *)

(** Modelled from the spec: [Node] of module [state/State/Scene/Node], a
    node of the declarative scene held in the store. *)
Record Node : Type := mkNode {
  nodeLabel : string;                       (* [name] *)
  nodeOrigin : option UnitReferenceFrame;   (* [origin] *)
  nodeGeometryId : option string;
  nodeEditable : bool
}.

(** A node of the engine's scene, by the class [getSignificantOriginChange]
    tests it against. *)
Inductive BNode : Type :=
| BTransformNode (bPosition : Vector3) (bRotationQuaternion : option Quaternion)
    (* [Babylon.TransformNode] or [Babylon.AbstractMesh] *)
| BShadowLight (bPosition : Vector3)
| BOther (constructorName : string).

Record BNodeEntry : Type := mkBNodeEntry {
  bId : string;
  bName : string;
  bNode : BNode
}.

Definition emptyFrame : UnitReferenceFrame := mkUnitReferenceFrame None None None.

(** Object spread [{ ...a, ...b }] of two reference frames. *)
Definition spreadFrame (a b : UnitReferenceFrame) : UnitReferenceFrame :=
  mkUnitReferenceFrame
    (match framePosition b with Some p => Some p | None => framePosition a end)
    (match frameOrientation b with Some o => Some o | None => frameOrientation a end)
    (match frameScale b with Some k => Some k | None => frameScale a end).

(** [currentOrigin?.position ?? UnitVector3.zero('meters')] *)
Definition positionOrZero (currentOrigin : UnitReferenceFrame) : UnitVector3.t :=
  match framePosition currentOrigin with
  | Some p => p
  | None => UnitVector3.zero Distance.meters
  end.

(** [currentOrigin?.orientation ?? Rotation.fromRawQuaternion(Quaternion.IDENTITY, 'euler')] *)
Definition orientationOrIdentity (currentOrigin : UnitReferenceFrame) : Rotation.t :=
  match frameOrientation currentOrigin with
  | Some o => o
  | None => Rotation.fromRawQuaternion Quat.Identity Rotation.euler
  end.

Definition getSignificantOriginChange
  (currentOrigin : UnitReferenceFrame) (bNode : BNode)
  : Result UnitReferenceFrame :=
  let position := positionOrZero currentOrigin in
  let rotation := orientationOrIdentity currentOrigin in
  let positionChange (bPosition : Vector3) : option UnitVector3.t :=
    let bPositionConv := UnitVector3.fromRaw bPosition Distance.centimeters in
    (* Distance between the two positions in meters *)
    let distance := UnitVector3.distance position bPositionConv in
    (* If varies by more than 0.5cm, consider it a change *)
    if Rgt_dec (Distance.value distance) 0.005
    then Some (UnitVector3.toTypeGranular bPositionConv
                 (Distance.type (UnitVector3.x position))
                 (Distance.type (UnitVector3.y position))
                 (Distance.type (UnitVector3.z position)))
    else None in
  let orientationChange (bRotation : option Quaternion) : option Rotation.t :=
    match bRotation with
    | None => None
    | Some bRotation =>
        let bOrientationConv :=
          Rotation.fromRawQuaternion bRotation Rotation.euler in
        (* Angle between the two rotations in radians *)
        let angle := Rotation.angle rotation bOrientationConv in
        let radians := Angle.toRadians angle in
        (* If varies by more than 0.5deg, consider it a change *)
        if Rgt_dec (Angle.value radians) 0.00872665
        then Some (Rotation.toType bOrientationConv (Rotation.type rotation))
        else None
    end in
  match bNode with
  | BTransformNode bPosition bRotation =>
      Ok (mkUnitReferenceFrame (positionChange bPosition)
                               (orientationChange bRotation) None)
  | BShadowLight bPosition =>
      Ok (mkUnitReferenceFrame (positionChange bPosition)
                               (orientationChange (Some Quat.Identity)) None)
  | BOther constructorName =>
      Throw (JsError ("Unknown node type: " ++ constructorName))
  end.

(** Modelled from the spec: the two actions of [SceneAction] (module
    [state/reducer]) that [updateStore_] dispatches. *)
Inductive SceneAction : Type :=
| SetNodeBatch (nodeIds : list (string * Node)) (modifyReferenceScene : bool)
| SetRobotOrigin (origin : UnitReferenceFrame) (modifyReferenceScene : bool).

(** [this.scene.getNodeByID(nodeId) || this.scene.getNodeByName(name)] *)
Definition lookupBNode (engine : list BNodeEntry) (nodeId nodeName_ : string)
  : option BNode :=
  match find (fun e => String.eqb (bId e) nodeId) engine with
  | Some e => Some (bNode e)
  | None =>
      match find (fun e => String.eqb (bName e) nodeName_) engine with
      | Some e => Some (bNode e)
      | None => None
      end
  end.

Definition isSignificant (change : UnitReferenceFrame) : bool :=
  match framePosition change, frameOrientation change, frameScale change with
  | None, None, None => false
  | _, _, _ => true
  end.

Definition withOrigin (o : option UnitReferenceFrame) (n : Node) : Node :=
  mkNode (nodeLabel n) o (nodeGeometryId n) (nodeEditable n).

(** The loop of [updateStore_] over the nodes of the working scene: the
    entries pushed onto [setNodeBatch.nodeIds]. *)
Fixpoint significantNodes (engine : list BNodeEntry)
  (nodes : list (string * Node)) : Result (list (string * Node)) :=
  match nodes with
  | [] => Ok []
  | (nodeId, node) :: rest =>
      match lookupBNode engine nodeId (nodeLabel node) with
      | None => significantNodes engine rest   (* the node may still be loading *)
      | Some bNode =>
          let origin :=
            match nodeOrigin node with Some o => o | None => emptyFrame end in
          match getSignificantOriginChange origin bNode with
          | Throw e => Throw e
          | Ok nodeOriginChange =>
              match significantNodes engine rest with
              | Throw e => Throw e
              | Ok more =>
                  if isSignificant nodeOriginChange
                  then Ok ((nodeId,
                            withOrigin (Some (spreadFrame origin nodeOriginChange))
                                       node) :: more)
                  else Ok more
              end
          end
      end
  end.

Definition bNodeOfMesh (m : option Mesh) : Result BNode :=
  match m with
  | Some m => Ok (BTransformNode (position m) (Some (rotationQuaternion m)))
  | None => Throw TypeError
  end.

(** [updateStore_]: compare engine positions with state positions and
    return the actions dispatched to the store, in order. *)
Definition updateStore_ (nodes : list (string * Node))
  (robotOrigin_ : option UnitReferenceFrame) (engine : list BNodeEntry)
  (body : option Mesh) : Result (list SceneAction) :=
  match significantNodes engine nodes with
  | Throw e => Throw e
  | Ok nodeIds =>
      let robotOrigin :=
        match robotOrigin_ with Some o => o | None => emptyFrame end in
      match bNodeOfMesh body with
      | Throw e => Throw e
      | Ok bBody =>
          match getSignificantOriginChange robotOrigin bBody with
          | Throw e => Throw e
          | Ok robotOriginChange =>
              Ok ((match nodeIds with
                   | [] => []
                   | _ :: _ => [SetNodeBatch nodeIds false]
                   end)
                  ++
                  (if isSignificant robotOriginChange
                   then [SetRobotOrigin
                           (spreadFrame robotOrigin robotOriginChange) false]
                   else []))
          end
      end
  end.

(** ** The scene-change listener

  [onStoreChange_] runs on every store change.  It starts an [async]
  function that awaits [sceneBinding_.setScene]; while that function is
  suspended other store changes run.  The state below holds the fields the
  listener reads and writes, and the suspended functions. *)

(** A scene value of the store, by object identity ([!==] compares
    references). *)
Definition SceneRef : Type := nat.

(** An [async] function of [onStoreChange_] suspended at an [await]:
    [workingScene] is the [state.scene.workingScene] it closed over. *)
Inductive Task : Type :=
| AwaitFirst (workingScene : SceneRef)
    (* [await this.sceneBinding_.setScene(state.scene.workingScene)] *)
| AwaitSecond (workingScene : SceneRef) (latest : option SceneRef).
    (* [await this.sceneBinding_.setScene(this.latestUnfulfilledScene_)] *)

Record Sync : Type := mkSync {
  debounceUpdate_ : bool;
  sceneSetting_ : bool;
  latestUnfulfilledScene_ : option SceneRef;
  physicsEnabled : bool;
  (** Modelled from the spec: the scene [SceneBinding] (not part of
      [Space]) shows.  [setScene] installs its argument when its promise
      resolves; assigning [scene] installs it at once. *)
  bindingScene : option SceneRef;
  (** the suspended [async] functions, oldest first *)
  tasks : list Task;
  (** every [setScene] call made so far, oldest first *)
  setSceneCalls : list (option SceneRef)
}.

Definition initialSync (physics : bool) (shown : option SceneRef) : Sync :=
  mkSync false false None physics shown [] [].

Definition sameScene (a : option SceneRef) (b : SceneRef) : bool :=
  match a with
  | Some a => Nat.eqb a b
  | None => false
  end.

Definition onStoreChange_ (workingScene : SceneRef) (s : Sync) : Sync :=
  if debounceUpdate_ s then
    mkSync (debounceUpdate_ s) (sceneSetting_ s) (latestUnfulfilledScene_ s)
           (physicsEnabled s) (Some workingScene) (tasks s) (setSceneCalls s)
  else if negb (sceneSetting_ s) then
    (* the async function runs up to its first await: physics is disabled
       and [setScene] is called *)
    mkSync (debounceUpdate_ s) true (Some workingScene) false (bindingScene s)
           (tasks s ++ [AwaitFirst workingScene])
           (setSceneCalls s ++ [Some workingScene])
  else
    mkSync (debounceUpdate_ s) (sceneSetting_ s) (Some workingScene)
           (physicsEnabled s) (bindingScene s) (tasks s) (setSceneCalls s).

(** The rest of the [async] function once the awaited [setScene] has
    resolved, up to its next [await] or to its end; [others] are the other
    suspended functions. *)
Definition resume (t : Task) (others : list Task) (s : Sync) : Sync :=
  match t with
  | AwaitFirst workingScene =>
      if negb (sameScene (latestUnfulfilledScene_ s) workingScene) then
        mkSync (debounceUpdate_ s) (sceneSetting_ s) (latestUnfulfilledScene_ s)
               (physicsEnabled s) (Some workingScene)
               (others ++ [AwaitSecond workingScene (latestUnfulfilledScene_ s)])
               (setSceneCalls s ++ [latestUnfulfilledScene_ s])
      else
        (* [physicsEnabled = true], then [finally]: [sceneSetting_ = false] *)
        mkSync (debounceUpdate_ s) false (latestUnfulfilledScene_ s)
               true (Some workingScene) others (setSceneCalls s)
  | AwaitSecond workingScene latest =>
      mkSync (debounceUpdate_ s) false (latestUnfulfilledScene_ s)
             true latest others (setSceneCalls s)
  end.

Inductive Event : Type :=
| StoreChange (workingScene : SceneRef)
    (* a store change from outside the reconciler *)
| ReconcilerWrite (workingScene : SceneRef)
    (* a dispatch of [updateStore_], made with [debounceUpdate_] set *)
| SetSceneResolved (i : nat).
    (* the [setScene] promise awaited by the [i]-th suspended function
       resolves *)

Definition withDebounce (b : bool) (s : Sync) : Sync :=
  mkSync b (sceneSetting_ s) (latestUnfulfilledScene_ s) (physicsEnabled s)
         (bindingScene s) (tasks s) (setSceneCalls s).

Definition step (s : Sync) (e : Event) : Sync :=
  match e with
  | StoreChange workingScene => onStoreChange_ workingScene s
  | ReconcilerWrite workingScene =>
      withDebounce false (onStoreChange_ workingScene (withDebounce true s))
  | SetSceneResolved i =>
      match nth_error (tasks s) i with
      | Some t => resume t (firstn i (tasks s) ++ skipn (S i) (tasks s)) s
      | None => s
      end
  end.

Definition run (s : Sync) (events : list Event) : Sync :=
  fold_left step events s.

(** The listener has settled: no scene change is being applied. *)
Definition settled (s : Sync) : bool :=
  negb (sceneSetting_ s) && match tasks s with [] => true | _ => false end.

(** *** The listener in the program

  [initStoreSubscription_] subscribes [onStoreChange_] to the store, so
  it runs after every dispatch, whatever the action, on the state the
  store then holds; [startRenderLoop] installs the subscription together
  with the render loop, whose frames dispatch themselves. *)

(** Modelled from the spec: the single declarative state store, as far as
    the listener reads it.  A dispatch applies its action and then calls
    the subscribers with the state the store holds. *)
Record Program : Type := mkProgram {
  workingScene : SceneRef;   (* [store.getState().scene.workingScene] *)
  listener : Sync            (* the fields [onStoreChange_] reads and writes *)
}.

Inductive Action : Type :=
| SetWorkingScene (w : SceneRef)
    (* a dispatch from outside [Space] that makes [w] the working scene: a
       scene-change request *)
| SetRobotState
    (* [store.dispatch(RobotStateAction.setRobotState(...))] of the
       before-render and after-render callbacks: the working scene stays *)
| ReconcilerDispatch (w : SceneRef)
    (* a dispatch of [updateStore_], made with [debounceUpdate_] set, that
       leaves [w] as the working scene *)
| SetSceneResolves (i : nat).
    (* not a dispatch: the [setScene] promise awaited by the [i]-th
       suspended function resolves *)

Definition dispatch (p : Program) (a : Action) : Program :=
  match a with
  | SetWorkingScene w => mkProgram w (step (listener p) (StoreChange w))
  | SetRobotState =>
      mkProgram (workingScene p)
                (step (listener p) (StoreChange (workingScene p)))
  | ReconcilerDispatch w => mkProgram w (step (listener p) (ReconcilerWrite w))
  | SetSceneResolves i =>
      mkProgram (workingScene p) (step (listener p) (SetSceneResolved i))
  end.

Definition runProgram (p : Program) (actions : list Action) : Program :=
  fold_left dispatch actions p.

(** One turn of the render loop: [updateStore_] with the working scenes
    its dispatches leave, then [scene.render()], whose before-render
    callback dispatches when a sensor has updated and whose after-render
    callback always dispatches. *)
Definition renderLoopFrame (writes : list SceneRef) (anyUpdated : bool)
  : list Action :=
  map ReconcilerDispatch writes
  ++ (if anyUpdated then [SetRobotState] else [])
  ++ [SetRobotState].

Definition isDispatch (a : Action) : bool :=
  match a with
  | SetSceneResolves _ => false
  | _ => true
  end.

(** A dispatch made while [debounceUpdate_] is clear. *)
Definition isOutsideDispatch (a : Action) : bool :=
  match a with
  | SetWorkingScene _ | SetRobotState => true
  | _ => false
  end.

(** ** Rig builder *)

(** [this.scene.getMeshByName(n)]: the first mesh of that name. *)
Definition getMeshByName (n : string) : M (option Mesh) :=
  s <- get ;;
  ret (find (fun m => String.eqb (name m) n) (sceneMeshes s)).

Definition getTransformNodeByName (n : string) : M (option TransformNode) :=
  s <- get ;;
  ret (find (fun t => String.eqb (nodeName t) n) (sceneTransformNodes s)).

(** A mutation of the scene mesh [getMeshByName n] returned. *)
Fixpoint updateFirstMesh (n : string) (f : Mesh -> Mesh) (l : list Mesh)
  : list Mesh :=
  match l with
  | [] => []
  | m :: l' =>
      if String.eqb (name m) n then f m :: l'
      else m :: updateFirstMesh n f l'
  end.

Fixpoint updateFirstNode (n : string) (f : TransformNode -> TransformNode)
  (l : list TransformNode) : list TransformNode :=
  match l with
  | [] => []
  | t :: l' =>
      if String.eqb (nodeName t) n then f t :: l'
      else t :: updateFirstNode n f l'
  end.

Definition mutateMesh (n : string) (f : Mesh -> Mesh) : M unit :=
  modify (fun s => setSceneMeshes (updateFirstMesh n f (sceneMeshes s)) s).

Definition mutateNode (n : string) (f : TransformNode -> TransformNode) : M unit :=
  modify (fun s =>
    setSceneTransformNodes (updateFirstNode n f (sceneTransformNodes s)) s).

(** [mesh.scaling.scaleInPlace(k)] on the scene mesh named [n], which
    stands at [center]: what hangs under it is scaled with it. *)
Definition scaleMeshInPlace (n : string) (center : Vector3) (k : R) : M unit :=
  mutateMesh n (fun m => withScaling (Vec.scale (scaling m) k) m) ;;;
  modify (carry n (scalingAbout center k)).

(** [node.setAbsolutePosition(to)] on the transform node named [n], which
    stands at [from]: what hangs under it moves with it. *)
Definition setNodeAbsolutePosition (n : string) (from to : Vector3) : M unit :=
  mutateNode n (fun t =>
    mkTransformNode (nodeName t) to
                    (Vec.add (absolutePivotPoint t) (Vec.subtract to from))
                    (absoluteRotationQuaternion t) (nodeScaling t)
                    (nodeParent t)) ;;;
  modify (carry n (translation from to)).

(** [node.scaling.scaleInPlace(k)] on the transform node named [n], which
    stands at [center]. *)
Definition scaleNodeInPlace (n : string) (center : Vector3) (k : R) : M unit :=
  mutateNode n (fun t =>
    mkTransformNode (nodeName t) (absolutePosition t) (absolutePivotPoint t)
                    (absoluteRotationQuaternion t)
                    (Vec.scale (nodeScaling t) k) (nodeParent t)) ;;;
  modify (carry n (scalingAbout center k)).

(** The scene without the first mesh named [n]. *)
Fixpoint removeFirstMesh (n : string) (l : list Mesh) : list Mesh :=
  match l with
  | [] => []
  | m :: l' => if String.eqb (name m) n then l' else m :: removeFirstMesh n l'
  end.

(** [this.<field> = this.scene.getMeshByName(n)], [found] being what the
    lookup returned: the mesh is held in the field from now on. *)
Definition holdRootMesh (f : RootMeshField) (n : string) (found : option Mesh)
  (s : Space) : Space :=
  setRootMesh f found (setSceneMeshes (removeFirstMesh n (sceneMeshes s)) s).

(** [fixNegativeScaling]: the sign of the scaling is baked into the
    vertices (which are not part of this model) and the scaling becomes
    its absolute value. *)
Definition fixNegativeScaling (m : Mesh) : Mesh :=
  let initialScaling := scaling m in
  withScaling (mkVector3 (Rabs (vx initialScaling)) (Rabs (vy initialScaling))
                         (Rabs (vz initialScaling))) m.

Inductive ColliderShape : Type := box | sphere.

Definition bodyColliderMeshInfos : list (string * ColliderShape) :=
  [ ("collider_body", box);
    ("collider_body_back_panel", box);
    ("collider_body_front_panel", box);
    ("collider_body_front_legos_1", box);
    ("collider_body_front_legos_2", box);
    ("collider_body_front_legos_3", box);
    ("collider_body_lego", box);
    ("collider_caster", sphere);
    ("collider_touch_back_left", box);
    ("collider_touch_back_right", box);
    ("collider_touch_front", box);
    ("collider_wallaby", box);
    ("collider_battery", box);
    ("collider_arm_servo", box) ]%string.

Definition armColliderMeshInfos : list string :=
  [ "collider_arm_claw_1"; "collider_arm_claw_2"; "collider_arm_claw_3";
    "collider_claw_servo"; "collider_claw_servo_rod_1";
    "collider_claw_servo_rod_2"; "collider_claw_et";
    "collider_arm_base" ]%string.

Definition clawColliderMeshInfos : list string :=
  [ "collider_claw_1"; "collider_claw_2"; "collider_claw_3";
    "collider_claw_3_metal" ]%string.

Definition newImpostor (t : ImpostorType) (mass_ : R) (friction_ : option R)
  : PhysicsImpostor :=
  mkPhysicsImpostor t mass_ friction_ Vec.Zero Vec.Zero.

(** [new Babylon.Mesh(n, scene)] placed at [p] with rotation [q], not
    pickable. *)
Definition newRootMesh (n : string) (p : Vector3) (q : Quaternion) : Mesh :=
  mkMesh n p q (mkVector3 1 1 1) None None false true.

(** One turn of the three collider loops of [loadMeshes]. *)
Definition attachCollider (colliderMeshName : string) (t : ImpostorType)
  (root : string) : M unit :=
  colliderMesh <- getMeshByName colliderMeshName ;;
  match colliderMesh with
  | None =>
      throw (JsError ("failed to find collider mesh in model: "
                      ++ colliderMeshName))
  | Some _ =>
      (* Unparent collider mesh before adding physics impostors to them *)
      mutateMesh colliderMeshName (withParent None) ;;;
      mutateMesh colliderMeshName fixNegativeScaling ;;;
      mutateMesh colliderMeshName
                 (withImpostor (Some (newImpostor t 0 None))) ;;;
      mutateMesh colliderMeshName (withParent (Some root))
  end.

Definition setNodeParent (n : string) (p : string) : M unit :=
  t <- getTransformNodeByName n ;;
  _ <- deref t ;;
  mutateNode n (fun t =>
    mkTransformNode (nodeName t) (absolutePosition t) (absolutePivotPoint t)
                    (absoluteRotationQuaternion t) (nodeScaling t) (Some p)).

Definition newJoint (d : PhysicsJointData) : MotorEnabledJoint :=
  mkMotorEnabledJoint d None.

Definition bodyCompoundMesh : string := "bodyCompoundMesh".

Definition armCompoundMesh : string := "armCompoundMesh".

Definition clawCenterMesh : string := "clawCenterMesh".

(** *** [loadMeshes], phase by phase

  The phases are those the comments of [loadMeshes] mark; they hand
  nothing to one another but the scene and the fields of [Space]. *)

(** "TEMP FIX: Scale everything up by 100 to avoid Ammo issues at small
    scale", the same for the node ['Root'], which is first put at
    (0, 5.7, 0), and "Hide collider meshes". *)
Definition placeModel : M unit :=
  root <- getMeshByName "__root__" ;;
  root <- deref root ;;
  scaleMeshInPlace "__root__" (position root) 100 ;;;
  rootNode <- getTransformNodeByName "Root" ;;
  rootNode <- deref rootNode ;;
  setNodeAbsolutePosition "Root" (absolutePosition rootNode)
                          (mkVector3 0 5.7 0) ;;;
  scaleNodeInPlace "Root" (mkVector3 0 5.7 0) 100 ;;;
  modify (fun s => setSceneMeshes
    (map (fun m => if String.prefix "collider" (name m)
                   then withPickable false (withVisible false m) else m)
         (sceneMeshes s)) s).

(** "Create the root mesh for the body compound", and the roots of the arm
    and of the claw: each is a new mesh at the absolute position of one
    collider mesh, which is used without a check. *)
Definition createCompoundRoots : M unit :=
  wallabyColliderMesh <- getMeshByName "collider_wallaby" ;;
  wallaby <- deref wallabyColliderMesh ;;
  modify (setRootMesh bodyCompoundRootMesh
            (Some (newRootMesh bodyCompoundMesh (position wallaby)
                               Quat.Identity))) ;;;
  clawServoColliderMesh <- getMeshByName "collider_claw_servo" ;;
  clawServo <- deref clawServoColliderMesh ;;
  modify (setRootMesh armCompoundRootMesh
            (Some (newRootMesh armCompoundMesh (position clawServo)
                               Quat.Identity))) ;;;
  clawCenter <- getMeshByName "collider_claw_3" ;;
  clawCenter <- deref clawCenter ;;
  modify (setRootMesh clawCompoundRootMesh
            (Some (newRootMesh clawCenterMesh (position clawCenter)
                               (mkQuaternion 0 0 0 1)))).

(** "Parent body collider meshes to body root and add physics impostors",
    then the same for the arm and for the claw. *)
Definition attachColliders : M unit :=
  forEach bodyColliderMeshInfos (fun '(bodyColliderMeshName, bodyColliderShape) =>
    attachCollider bodyColliderMeshName
                   (match bodyColliderShape with
                    | box => BoxImpostor
                    | sphere => SphereImpostor
                    end)
                   bodyCompoundMesh) ;;;
  forEach armColliderMeshInfos (fun armColliderMeshName =>
    attachCollider armColliderMeshName BoxImpostor armCompoundMesh) ;;;
  forEach clawColliderMeshInfos (fun clawColliderMeshName =>
    attachCollider clawColliderMeshName BoxImpostor clawCenterMesh).

(** "Find wheel collider meshes in scene" and "Unparent wheel collider
    meshes before adding physics impostors to them". *)
Definition findWheels : M unit :=
  left <- getMeshByName "collider_left_wheel" ;;
  modify (holdRootMesh colliderLeftWheelMesh "collider_left_wheel" left) ;;;
  right <- getMeshByName "collider_right_wheel" ;;
  modify (holdRootMesh colliderRightWheelMesh "collider_right_wheel" right) ;;;
  setParent colliderLeftWheelMesh None ;;;
  setParent colliderRightWheelMesh None ;;;
  forEach [colliderLeftWheelMesh; colliderRightWheelMesh] (fun f =>
    s <- get ;;
    m <- deref (rootMesh s f) ;;
    modify (setRootMesh f (Some (fixNegativeScaling m)))) ;;;
  forEach [colliderLeftWheelMesh; colliderRightWheelMesh] (fun f =>
    s <- get ;;
    m <- deref (rootMesh s f) ;;
    modify (setRootMesh f (Some (withPickable false m)))).

(** "Find transform nodes (visual meshes) in scene and parent them to the
    proper node". *)
Definition parentVisuals : M unit :=
  setNodeParent "ChassisWombat-1" bodyCompoundMesh ;;;
  setNodeParent "KIPR_Lower_final_062119-1" bodyCompoundMesh ;;;
  setNodeParent "1 x 5 Servo Horn-1" armCompoundMesh ;;;
  setNodeParent "1 x 5 Servo Horn-2" clawCenterMesh ;;;
  setNodeParent "Servo Wheel-1" "collider_right_wheel" ;;;
  setNodeParent "Servo Wheel-2" "collider_left_wheel".

(** "Update previous wheel rotations to avoid sudden jump in motor
    position", and the baselines of the two servos. *)
Definition recordRotations : M unit :=
  bodyQuat <- rotationOf bodyCompoundRootMesh ;;
  leftQuat <- rotationOf colliderLeftWheelMesh ;;
  rightQuat <- rotationOf colliderRightWheelMesh ;;
  armQuat <- rotationOf armCompoundRootMesh ;;
  clawQuat <- rotationOf clawCompoundRootMesh ;;
  modify (setRotation leftWheelRotationPrev
            (Some (Quat.multiply (Quat.Inverse bodyQuat) leftQuat))) ;;;
  modify (setRotation rightWheelRotationPrev
            (Some (Quat.multiply (Quat.Inverse bodyQuat) rightQuat))) ;;;
  modify (setRotation armRotationDefault
            (Some (Quat.multiply (Quat.Inverse bodyQuat) armQuat))) ;;;
  modify (setRotation clawRotationDefault
            (Some (Quat.multiply (Quat.Inverse armQuat) clawQuat))).

(** "Set physics impostors for root nodes". *)
Definition setRootImpostors : M unit :=
  forEach [ (bodyCompoundRootMesh, newImpostor NoImpostor 1126 (Some 0.1));
            (colliderLeftWheelMesh, newImpostor CylinderImpostor 14 (Some 25));
            (colliderRightWheelMesh, newImpostor CylinderImpostor 14 (Some 25));
            (armCompoundRootMesh, newImpostor NoImpostor 132 (Some 5));
            (clawCompoundRootMesh, newImpostor NoImpostor 17 (Some 5)) ]
          (fun '(f, i) =>
             s <- get ;;
             m <- deref (rootMesh s f) ;;
             modify (setRootMesh f (Some (withImpostor (Some i) m)))).

(** The hinge joints of the claw, of the arm and of the two wheels. *)
Definition createJoints : M unit :=
  (* Claw joint *)
  servoHornTransform <- getTransformNodeByName "1 x 5 Servo Horn-2" ;;
  servoHornTransform <- deref servoHornTransform ;;
  let zAxisRotatedVector :=
    Quat.rotateVector (absoluteRotationQuaternion servoHornTransform)
                      (mkVector3 0 0 (-1)) in
  servoWasher <- getTransformNodeByName "Servo Washer-1" ;;
  servoWasher <- deref servoWasher ;;
  s <- get ;;
  body <- deref (rootMesh s bodyCompoundRootMesh) ;;
  arm <- deref (rootMesh s armCompoundRootMesh) ;;
  claw <- deref (rootMesh s clawCompoundRootMesh) ;;
  leftWheel <- deref (rootMesh s colliderLeftWheelMesh) ;;
  rightWheel <- deref (rootMesh s colliderRightWheelMesh) ;;
  modify (setJoint clawJoint (Some (newJoint (mkPhysicsJointData
    (Vec.subtract (absolutePosition servoWasher) (position arm))
    (Vec.subtract (absolutePosition servoWasher) (position claw))
    zAxisRotatedVector zAxisRotatedVector)))) ;;;
  (* Arm joint *)
  servoWasher2 <- getTransformNodeByName "Servo Washer-2" ;;
  servoWasher2 <- deref servoWasher2 ;;
  modify (setJoint armJoint (Some (newJoint (mkPhysicsJointData
    (Vec.subtract (absolutePosition servoWasher2) (position body))
    (Vec.subtract (absolutePivotPoint servoWasher2) (position arm))
    (mkVector3 1 0 0) (mkVector3 1 0 0))))) ;;;
  (* Create joint for right wheel *)
  modify (setJoint rightWheelJoint (Some (newJoint (mkPhysicsJointData
    (Vec.subtract (position rightWheel) (position body))
    (mkVector3 0 0 0) (mkVector3 1 0 0) (mkVector3 0 (-1) 0))))) ;;;
  (* Create joint for left wheel *)
  modify (setJoint leftWheelJoint (Some (newJoint (mkPhysicsJointData
    (Vec.subtract (position leftWheel) (position body))
    (mkVector3 0 0 0) (mkVector3 (-1) 0 0) (mkVector3 0 1 0))))).

(** [loadMeshes], once the model has been imported into the scene.
    [sensors] are the keys of [SENSOR_MAPPINGS]. *)
Definition loadMeshes (sensors : list string) : M unit :=
  placeModel ;;;
  createCompoundRoots ;;;
  attachColliders ;;;
  findWheels ;;;
  parentVisuals ;;;
  recordRotations ;;;
  setRootImpostors ;;;
  createJoints ;;;
  (* Create sensors *)
  modify (setSensorObjects sensors) ;;;
  setRobotPosition
    (mkRobotPosition (Distance.mk Distance.centimeters 0)
                     (Distance.mk Distance.centimeters 0)
                     (Distance.mk Distance.centimeters 0)
                     (Angle.mk Angle.degrees 0)).

(** [createScene]: it registers the render callbacks and awaits the scene
    binding; none of that changes the state modelled here. *)
Definition createScene : M unit := ret tt.

Definition startRenderLoop : M unit := modify (setRenderLoopRunning true).

(** [ensureInitialized]: the promise it returns, settled.  [Ok] is a
    resolved promise, [Throw] a rejected one. *)
Definition ensureInitialized (sensors : list string) : M unit :=
  fun s =>
    match initializationPromise s with
    | Some settledPromise => (s, settledPromise)
    | None =>
        let '(s', outcome) :=
          (createScene ;;; loadMeshes sensors ;;; startRenderLoop) s in
        (setInitializationPromise (Some outcome) s', outcome)
    end.

(** ** Observations

  What the properties below read from a state. *)

(** The last motor command the joint held in field [f] received. *)
Definition lastMotor (f : JointField) (s : Space) : option MotorCommand :=
  match joint s f with
  | Some j => motor j
  | None => None
  end.

(** The linear and the angular velocity of the root mesh held in [f]. *)
Definition velocities (f : RootMeshField) (s : Space) : option (Vector3 * Vector3) :=
  match rootMesh s f with
  | Some m =>
      match physicsImpostor m with
      | Some i => Some (linearVelocity i, angularVelocity i)
      | None => None
      end
  | None => None
  end.

(** The absolute pose of the root mesh held in [f]. *)
Definition pose (f : RootMeshField) (s : Space) : option (Vector3 * Quaternion) :=
  match rootMesh s f with
  | Some m => Some (position m, rotationQuaternion m)
  | None => None
  end.

(** The rotation of a joint about [axis] relative to the rotation recorded
    in [default], as [setServoPositions] extracts it from the rotations of
    the [parent_] and the [child] root mesh. *)
Definition jointRotation (default : RotationField)
  (parent_ child : RootMeshField) (axis : Vector3) (s : Space) : option R :=
  match rotation s default, rootMesh s parent_, rootMesh s child with
  | Some start, Some p, Some c =>
      Some (getDeltaRotationOnAxis start
              (Quat.multiply (Quat.Inverse (rotationQuaternion p))
                             (rotationQuaternion c))
              axis)
  | _, _, _ => None
  end.

(** What one engine call on the root mesh held in [f] leaves alone. *)
Definition sameButRoot (f : RootMeshField) (s s' : Space) : Prop :=
  joint s' = joint s
  /\ rotation s' = rotation s
  /\ (forall g, g <> f -> rootMesh s' g = rootMesh s g)
  /\ pose f s' = pose f s.

(** The five root meshes exist and have their physics impostors. *)
Definition rootsBuilt (s : Space) : Prop :=
  forall f, exists m i, rootMesh s f = Some m /\ physicsImpostor m = Some i.

(** The rig has been built: root meshes, joints and recorded rotations
    are all in place, as they are once [loadMeshes] has returned. *)
Definition rigBuilt (s : Space) : Prop :=
  rootsBuilt s
  /\ (forall f, exists j, joint s f = Some j)
  /\ (forall f, exists q, rotation s f = Some q).

(** ** A complete model

  A scene holding every mesh and transform node [loadMeshes] looks up,
  all at the origin, as the importer would leave them; and the rig built
  from it. *)

Definition importedMesh (n : string) : Mesh :=
  mkMesh n Vec.Zero Quat.Identity (mkVector3 1 1 1) (Some "__root__"%string)
         None true true.

(** The node ["Root"] hangs under the mesh ["__root__"], every other
    transform node under ["Root"]. *)
Definition importedNode (n : string) : TransformNode :=
  mkTransformNode n Vec.Zero Vec.Zero Quat.Identity (mkVector3 1 1 1)
                  (Some (if String.eqb n "Root" then "__root__" else "Root")%string).

Definition modelMeshNames : list string :=
  map fst bodyColliderMeshInfos ++ armColliderMeshInfos
  ++ clawColliderMeshInfos
  ++ [ "collider_left_wheel"; "collider_right_wheel" ]%string.

Definition modelNodeNames : list string :=
  [ "Root"; "ChassisWombat-1"; "KIPR_Lower_final_062119-1";
    "1 x 5 Servo Horn-1"; "1 x 5 Servo Horn-2"; "Servo Wheel-1";
    "Servo Wheel-2"; "Servo Washer-1"; "Servo Washer-2" ]%string.

(** A [Space] before [loadMeshes], the imported model being in the scene. *)
Definition freshSpace (meshNames nodeNames : list string) : Space :=
  mkSpace (mkMesh "__root__" Vec.Zero Quat.Identity (mkVector3 1 1 1) None
                  None true true
           :: map importedMesh meshNames)
          (map importedNode nodeNames)
          (fun _ => None) (fun _ => None) (fun _ => None) [] false None.

Definition completeModel : Space := freshSpace modelMeshNames modelNodeNames.

(** The same model without the mesh ["collider_battery"]. *)
Definition modelWithoutBattery : Space :=
  freshSpace (filter (fun n => negb (String.eqb n "collider_battery"))
                     modelMeshNames)
             modelNodeNames.

(** The same model without the mesh ["collider_wallaby"]. *)
Definition modelWithoutWallaby : Space :=
  freshSpace (filter (fun n => negb (String.eqb n "collider_wallaby"))
                     modelMeshNames)
             modelNodeNames.

Definition builtRig : Space := fst (loadMeshes [] completeModel).

(** A built rig at rest at the origin: the five root meshes with their
    impostors, the four joints, and the recorded rotations equal to the
    current ones. *)
Definition restingRig : Space :=
  mkSpace [] []
          (fun f =>
             Some (withImpostor
                     (Some (match f with
                            | bodyCompoundRootMesh =>
                                newImpostor NoImpostor 1126 (Some 0.1)
                            | colliderLeftWheelMesh | colliderRightWheelMesh =>
                                newImpostor CylinderImpostor 14 (Some 25)
                            | armCompoundRootMesh =>
                                newImpostor NoImpostor 132 (Some 5)
                            | clawCompoundRootMesh =>
                                newImpostor NoImpostor 17 (Some 5)
                            end))
                     (newRootMesh (match f with
                                   | bodyCompoundRootMesh => bodyCompoundMesh
                                   | colliderLeftWheelMesh => "collider_left_wheel"
                                   | colliderRightWheelMesh => "collider_right_wheel"
                                   | armCompoundRootMesh => armCompoundMesh
                                   | clawCompoundRootMesh => clawCenterMesh
                                   end)
                                  Vec.Zero Quat.Identity)))
          (fun _ => Some (newJoint (mkPhysicsJointData Vec.Zero Vec.Zero
                                                       (mkVector3 1 0 0)
                                                       (mkVector3 1 0 0))))
          (fun _ => Some Quat.Identity)
          [] true (Some (Ok tt)).

(** The mesh [m] with its impostor moving at linear velocity [l] and
    angular velocity [a]. *)
Definition withVelocities (l a : Vector3) (m : Mesh) : Mesh :=
  withImpostor
    (option_map (fun i => mkPhysicsImpostor (impostorType i) (mass i)
                                            (friction i) l a)
                (physicsImpostor m)) m.

(** The built rig in motion: every root mesh has linear velocity (1, 2, 3)
    and angular velocity (4, 5, 6). *)
Definition movingRig : Space :=
  mkSpace [] []
          (fun f => option_map (withVelocities (mkVector3 1 2 3) (mkVector3 4 5 6))
                               (rootMesh restingRig f))
          (joint restingRig) (rotation restingRig) [] true (Some (Ok tt)).

(** The same rig with the claw root missing. *)
Definition movingRigWithoutClaw : Space :=
  setRootMesh clawCompoundRootMesh None movingRig.

(** ** Predicates of the properties *)

(** The body root of a rig at rest at the origin. *)
Definition restingBody : Mesh := newRootMesh bodyCompoundMesh Vec.Zero Quat.Identity.

(** A scene node stored at the origin, its position given in unit [u]. *)
Definition nodeAtOrigin (u : Distance.Unit) : Node :=
  mkNode "can" (Some (mkUnitReferenceFrame (Some (UnitVector3.zero u)) None None))
         None true.

(** An engine scene in which the body of that node sits [d] centimeters
    along the x axis and has no rotation quaternion. *)
Definition engineWithCanAt (d : R) : list BNodeEntry :=
  [ mkBNodeEntry "can" "can" (BTransformNode (mkVector3 d 0 0) None) ].

(** Between two events: the reconciler's flag is clear, and either no
    scene change is being applied or exactly one [async] function is
    suspended. *)
Definition oneAtOnce (s : Sync) : Prop :=
  debounceUpdate_ s = false
  /\ ((sceneSetting_ s = false /\ tasks s = [])
      \/ (sceneSetting_ s = true /\ exists t, tasks s = [t])).

(** The names of the three collider manifests of [loadMeshes]. *)
Definition colliderNames : list string :=
  map fst bodyColliderMeshInfos ++ armColliderMeshInfos ++ clawColliderMeshInfos.

(** The scene holds what [loadMeshes] uses before its manifest loops and
    without a check: the mesh ["__root__"], the node ["Root"] and the three
    collider meshes the compound roots are placed at. *)
Definition anchored (s : Space) : Prop :=
  (forall n, In n [ "__root__"; "collider_wallaby"; "collider_claw_servo";
                    "collider_claw_3" ]%string ->
     find (fun m => String.eqb (name m) n) (sceneMeshes s) <> None)
  /\ find (fun t => String.eqb (nodeName t) "Root") (sceneTransformNodes s)
     <> None.

(** A [Space] on which no initialization has been started: no joint, no
    sensor object, no render loop, no promise. *)
Definition notInitialized (s : Space) : Prop :=
  (forall f, joint s f = None)
  /\ sensorObjects_ s = []
  /\ renderLoopRunning s = false
  /\ initializationPromise s = None.

(** [s'] differs from [s] in its scene and its root meshes at most. *)
Definition sameButScene (s s' : Space) : Prop :=
  joint s' = joint s
  /\ rotation s' = rotation s
  /\ sensorObjects_ s' = sensorObjects_ s
  /\ renderLoopRunning s' = renderLoopRunning s
  /\ initializationPromise s' = initializationPromise s.

(** [m] keeps the invariant [I], and throws errors in [E] only. *)
Definition keeps (I : Space -> Prop) (E : Exn -> Prop) {A : Type} (m : M A) : Prop :=
  forall s, I s -> I (fst (m s)) /\ forall e, snd (m s) = Throw e -> E e.

(** The rig at rest after the physics engine has turned its wheels about
    the wheel axis by [thetaLeft] and [thetaRight]. *)
Definition wheelsTurned (thetaLeft thetaRight : R) : Space :=
  let turn (theta : R) (m : option Mesh) : option Mesh :=
    option_map (fun m => withPose (position m)
                           (Quat.RotationAxis wheelRotationVector theta) m) m in
  setRootMesh colliderLeftWheelMesh
    (turn thetaLeft (rootMesh restingRig colliderLeftWheelMesh))
    (setRootMesh colliderRightWheelMesh
       (turn thetaRight (rootMesh restingRig colliderRightWheelMesh))
       restingRig).

(** The three manifests of [loadMeshes] in the order of its loops: the
    name of each collider mesh, the type of its impostor and the name of
    the compound root it is parented to. *)
Definition colliderManifest : list (string * ImpostorType * string) :=
  map (fun '(n, shape) =>
         (n, match shape with box => BoxImpostor | sphere => SphereImpostor end,
          bodyCompoundMesh))
      bodyColliderMeshInfos
  ++ map (fun n => (n, BoxImpostor, armCompoundMesh)) armColliderMeshInfos
  ++ map (fun n => (n, BoxImpostor, clawCenterMesh)) clawColliderMeshInfos.

(** No string occurs twice. *)
Fixpoint distinct (l : list string) : bool :=
  match l with
  | [] => true
  | a :: l' => negb (existsb (String.eqb a) l') && distinct l'
  end.

(** What [loadMeshes] never changes of a scene mesh: its name and its
    rotation. *)
Definition meshKey (m : Mesh) : string * Quaternion :=
  (name m, rotationQuaternion m).

(** The scene of [s'] has the meshes and transform nodes of [s], in the
    same order, with the same names and the same mesh rotations. *)
Definition sameModel (s s' : Space) : Prop :=
  map meshKey (sceneMeshes s') = map meshKey (sceneMeshes s)
  /\ map nodeName (sceneTransformNodes s') = map nodeName (sceneTransformNodes s).

(** The scene holds every mesh and every transform node [loadMeshes] looks
    up by name. *)
Definition modelComplete (s : Space) : Prop :=
  (forall n, In n ("__root__"%string :: modelMeshNames) ->
     find (fun m => String.eqb (name m) n) (sceneMeshes s) <> None)
  /\ (forall n, In n modelNodeNames ->
        find (fun t => String.eqb (nodeName t) n) (sceneTransformNodes s) <> None).

(** ** The geometry of [fixNegativeScaling] *)

(** [Math.sign] *)
Definition Math_sign (x : R) : R :=
  if Rlt_dec 0 x then 1 else if Rlt_dec x 0 then -1 else 0.

(** [mesh.bakeTransformIntoVertices(Babylon.Matrix.Scaling(x, y, z))] on
    the vertex positions of the mesh's geometry: each is multiplied by the
    scaling matrix. *)
Definition bakeTransformIntoVertices (scale : Vector3) (vertices : list Vector3)
  : list Vector3 :=
  map (fun v => mkVector3 (vx scale * vx v) (vy scale * vy v) (vz scale * vz v))
      vertices.

(** The vertex positions [fixNegativeScaling] leaves in the geometry of
    [mesh], [vertices] being those it found there. *)
Definition fixNegativeScalingVertices (mesh : Mesh) (vertices : list Vector3)
  : list Vector3 :=
  let initialScaling := scaling mesh in
  bakeTransformIntoVertices
    (mkVector3 (Math_sign (vx initialScaling)) (Math_sign (vy initialScaling))
               (Math_sign (vz initialScaling)))
    vertices.

(** Where the scaling of [mesh] puts the vertex [v] of its geometry. *)
Definition scaledVertex (mesh : Mesh) (v : Vector3) : Vector3 :=
  mkVector3 (vx (scaling mesh) * vx v) (vy (scaling mesh) * vy v)
            (vz (scaling mesh) * vz v).

(** * The earlier rig: class [Space] of [Sim.tsx] *)

Module Sim.

Definition TICKS_BETWEEN_ET_SENSOR_UPDATES : nat := 15.

Inductive Sensor : Type := etSensorFake | etSensorArm.

(** What the before-render callback reads in one frame: the sensors
    ([VisibleSensor] objects, outside this class) and the robot state.
    The callback reads [this.etSensorFake] unguarded: the frames are those
    that follow [loadMeshes], which sets it. *)
Record Frame : Type := mkFrame {
  fakeIsVisible : bool;              (* [this.etSensorFake.isVisible] *)
  fakeValue : R;                     (* [this.etSensorFake.getValue()] *)
  arm : option (bool * R);           (* [this.etSensorArm], if set:
                                        [isVisible] and [getValue()] *)
  currAnalogValues : list R          (* [this.getRobotState().analogValues] *)
}.

(** The calls the callback makes on the sensors and on [updateRobotState],
    in order. *)
Inductive Call : Type :=
| Update (sensor : Sensor)
| UpdateVisual (sensor : Sensor)
| UpdateRobotState (analogValues : list (option R)).

(** The callback registered with [registerBeforeRender]: from the value of
    [ticksSinceETSensorUpdate], its next value and the calls made. *)
Definition beforeRender (frame : Frame) (ticksSinceETSensorUpdate : nat)
  : nat * list Call :=
  (* If visualization is on, update ET sensor visual *)
  let didUpdateFakeETSensor := fakeIsVisible frame in
  let fakeCalls :=
    if fakeIsVisible frame
    then [Update etSensorFake; UpdateVisual etSensorFake] else [] in
  let didUpdateArmETSensor :=
    match arm frame with Some (isVisible, _) => isVisible | None => false end in
  let armCalls :=
    if didUpdateArmETSensor
    then [Update etSensorArm; UpdateVisual etSensorArm] else [] in
  if (TICKS_BETWEEN_ET_SENSOR_UPDATES <=? ticksSinceETSensorUpdate)%nat then
    (* Update ET sensor if we didn't already update it earlier *)
    let lateFake :=
      if negb didUpdateFakeETSensor then [Update etSensorFake] else [] in
    let lateArm :=
      match arm frame with
      | Some _ => if negb didUpdateArmETSensor then [Update etSensorArm] else []
      | None => []
      end in
    let a0 := Some (fakeValue frame) in
    let a1 :=
      match arm frame with
      | Some (_, value) => Some value
      | None => nth_error (currAnalogValues frame) 1
      end in
    (0%nat,
     fakeCalls ++ armCalls ++ lateFake ++ lateArm
     ++ [UpdateRobotState [a0; a1; Some 0; Some 0; Some 0; Some 0]])
  else
    (S ticksSinceETSensorUpdate, fakeCalls ++ armCalls).

(** The frames of a run of the render loop: the final counter and the
    calls of each frame. *)
Fixpoint render (frames : list Frame) (ticksSinceETSensorUpdate : nat)
  : nat * list (list Call) :=
  match frames with
  | [] => (ticksSinceETSensorUpdate, [])
  | frame :: rest =>
      let '(ticks, calls) := beforeRender frame ticksSinceETSensorUpdate in
      let '(final, more) := render rest ticks in
      (final, calls :: more)
  end.

Definition isUpdateRobotState (c : Call) : bool :=
  match c with UpdateRobotState _ => true | _ => false end.

Definition isUpdateOf (s : Sensor) (c : Call) : bool :=
  match c, s with
  | Update etSensorFake, etSensorFake | Update etSensorArm, etSensorArm => true
  | _, _ => false
  end.

(** (x, z) coordinates of cans around the board *)
Definition canCoordinates : list (R * R) :=
  [ (-22, -14.3); (0, -20.6); (15.5, -23.7); (0, -6.9); (-13.7, 6.8); (0, 6.8);
    (13.5, 6.8); (25.1, 14.8); (0, 34); (-18.8, 45.4); (0, 54.9); (18.7, 45.4) ].

(** [`Can${canNumber}`], for an integer [canNumber] (of at most 21
    digits, which JavaScript prints in full). *)
Definition canName (canNumber : Z) : string :=
  "Can" ++ NilZero.string_of_int (Z.to_int canNumber).

(** [this.canCoordinates[canNumber - 1]] *)
Definition canCoordinate (canNumber : Z) : option (R * R) :=
  if (canNumber - 1 <? 0)%Z then None
  else nth_error canCoordinates (Z.to_nat (canNumber - 1)).

(** [createCan]: the cylinder is created in the scene, given its impostor,
    and only then positioned. *)
Definition createCan (canNumber : Z) : M unit :=
  s <- get ;;
  let new_can :=
    mkMesh (canName canNumber) Vec.Zero Quat.Identity (mkVector3 1 1 1) None
           (Some (newImpostor CylinderImpostor 10 (Some 5))) true true in
  modify (setSceneMeshes (sceneMeshes s ++ [new_can])) ;;;
  coordinate <- deref (canCoordinate canNumber) ;;
  modify (setSceneMeshes
            (sceneMeshes s
             ++ [withPose (mkVector3 (fst coordinate) 5 (snd coordinate))
                          (rotationQuaternion new_can) new_can])).

(** [mesh.dispose()] of the mesh [getMeshByName n] returned: the first
    mesh of that name leaves the scene. *)
Fixpoint disposeFirst (n : string) (l : list Mesh) : list Mesh :=
  match l with
  | [] => []
  | m :: l' => if String.eqb (name m) n then l' else m :: disposeFirst n l'
  end.

Definition destroyCan (canNumber : Z) : M unit :=
  mesh <- getMeshByName (canName canNumber) ;;
  _ <- deref mesh ;;
  modify (fun s =>
    setSceneMeshes (disposeFirst (canName canNumber) (sceneMeshes s)) s).

End Sim.

(** * Properties *)

(** ** Wheel drive and servo drive *)

Lemma clampSpeed_bounds (v : R) : - 1500 <= clampSpeed v <= 1500.
Proof.
  unfold clampSpeed, MAX_MOTOR_VELOCITY.
  pose proof (Rmax_l (- 1500) (Rmin v 1500)).
  pose proof (Rmin_r v 1500).
  apply Rmax_case_strong; lra.
Qed.

Lemma clampSpeed_id (v : R) : - 1500 <= v <= 1500 -> clampSpeed v = v.
Proof.
  intro H. unfold clampSpeed, MAX_MOTOR_VELOCITY.
  rewrite Rmin_left by lra. rewrite Rmax_right by lra. reflexivity.
Qed.

(** *** Running the state transformers *)

Lemma bind_Ok {A B : Type} (m : M A) (k : A -> M B) (s s1 : Space) (a : A) :
  m s = (s1, Ok a) -> bind m k s = k a s1.
Proof. intro H. unfold bind. rewrite H. reflexivity. Qed.

Lemma bind_Throw {A B : Type} (m : M A) (k : A -> M B) (s s1 : Space) (e : Exn) :
  m s = (s1, Throw e) -> bind m k s = (s1, Throw e).
Proof. intro H. unfold bind. rewrite H. reflexivity. Qed.

Lemma bind_get {B : Type} (k : Space -> M B) (s : Space) :
  bind get k s = k s s.
Proof. reflexivity. Qed.

Lemma bind_modify {B : Type} (f : Space -> Space) (k : unit -> M B) (s : Space) :
  bind (modify f) k s = k tt (f s).
Proof. reflexivity. Qed.

Lemma bind_ret {A B : Type} (a : A) (k : A -> M B) (s : Space) :
  bind (ret a) k s = k a s.
Proof. reflexivity. Qed.

Lemma bind_deref_Some {A B : Type} (a : A) (k : A -> M B) (s : Space) :
  bind (deref (Some a)) k s = k a s.
Proof. reflexivity. Qed.

Lemma bind_deref_None {A B : Type} (k : A -> M B) (s : Space) :
  bind (deref None) k s = (s, Throw TypeError).
Proof. reflexivity. Qed.

Lemma setMotor_Ok (f : JointField) (force : R) (maxForce : option R)
      (s : Space) (j : MotorEnabledJoint) :
  joint s f = Some j ->
  setMotor f force maxForce s
  = (setJoint f (Some (mkMotorEnabledJoint (jointData j)
                                           (Some (Motor force maxForce)))) s,
     Ok tt).
Proof.
  intro H. unfold setMotor. rewrite bind_get, H, bind_deref_Some. reflexivity.
Qed.

Lemma joint_setJoint_same (f : JointField) (j : option MotorEnabledJoint) (s : Space) :
  joint (setJoint f j s) f = j.
Proof. destruct f; reflexivity. Qed.

Lemma joint_setJoint_other (f g : JointField) (j : option MotorEnabledJoint) (s : Space) :
  f <> g -> joint (setJoint f j s) g = joint s g.
Proof. intro H. destruct f, g; try reflexivity; congruence. Qed.

Lemma setAngularVelocity_joint (f : RootMeshField) (v : Vector3) (s : Space) :
  joint (fst (setAngularVelocity f v s)) = joint s.
Proof.
  unfold setAngularVelocity. rewrite bind_get.
  destruct (rootMesh s f) as [m |]; [| reflexivity].
  rewrite bind_deref_Some.
  destruct (physicsImpostor m); reflexivity.
Qed.

Lemma setDriveMotors_joints (leftSpeed rightSpeed : R) (s : Space)
      (jl jr : MotorEnabledJoint) :
  joint s leftWheelJoint = Some jl ->
  joint s rightWheelJoint = Some jr ->
  let s' := fst (setDriveMotors leftSpeed rightSpeed s) in
  lastMotor leftWheelJoint s' = Some (Motor (clampSpeed leftSpeed / 315) None)
  /\ lastMotor rightWheelJoint s' = Some (Motor (- clampSpeed rightSpeed / 315) None).
Proof.
  intros Hl Hr s'. subst s'.
  unfold setDriveMotors. rewrite bind_get, Hl, Hr.
  cbv zeta.
  erewrite bind_Ok.
  2:{ erewrite bind_Ok by (apply setMotor_Ok; exact Hl).
      apply setMotor_Ok.
      rewrite joint_setJoint_other by discriminate. exact Hr. }
  set (s2 := setJoint rightWheelJoint _ _).
  assert (H2 : lastMotor leftWheelJoint s2
               = Some (Motor (clampSpeed leftSpeed / 315) None)
               /\ lastMotor rightWheelJoint s2
                  = Some (Motor (- clampSpeed rightSpeed / 315) None)).
  { subst s2. unfold lastMotor. split; reflexivity. }
  clearbody s2. unfold lastMotor in *.
  assert (Hstep : forall (c : bool) f s0,
             joint (fst ((if c then setAngularVelocity f Vec.Zero else ret tt) s0))
             = joint s0).
  { intros [] f s0; [apply setAngularVelocity_joint | reflexivity]. }
  unfold bind.
  pose proof (Hstep (if Req_dec_T leftSpeed 0 then true else false)
                    colliderLeftWheelMesh s2) as E1.
  destruct (Req_dec_T leftSpeed 0);
    match goal with
    | |- context [ match ?m s2 with _ => _ end ] =>
        destruct (m s2) as [s3 [[] | ex]] eqn:E
    end; simpl in E1;
    try (simpl; rewrite E1; exact H2).
  all: pose proof (Hstep (if Req_dec_T rightSpeed 0 then true else false)
                    colliderRightWheelMesh s3) as E2;
    destruct (Req_dec_T rightSpeed 0); rewrite E2, E1; exact H2.
Qed.

Ltac evaluate :=
  cbv - [Rplus Rmult Ropp Rminus Rdiv Rinv Rabs IZR sin cos PI sqrt acos
         Rlt_dec Rgt_dec Rge_dec Rle_dec Req_dec_T].

Lemma loadMeshes_completeModel :
  snd (loadMeshes [] completeModel) = Ok tt.
Proof. evaluate. reflexivity. Qed.

Lemma builtRig_rigBuilt : rigBuilt builtRig.
Proof.
  repeat split; intros f; destruct f; evaluate; eauto.
Qed.

(** C4.  Whatever speeds are commanded, each is clamped to [-1500, 1500]
    and divided by 315 (the right one negated), and the motor command
    either wheel joint receives is at most 1500 / 315 in magnitude. *)
Theorem setDriveMotors_clamped (leftSpeed rightSpeed : R) (s : Space)
        (jl jr : MotorEnabledJoint) :
  joint s leftWheelJoint = Some jl ->
  joint s rightWheelJoint = Some jr ->
  let s' := fst (setDriveMotors leftSpeed rightSpeed s) in
  exists l r : R,
    lastMotor leftWheelJoint s' = Some (Motor l None)
    /\ lastMotor rightWheelJoint s' = Some (Motor r None)
    /\ l = Rmax (- 1500) (Rmin leftSpeed 1500) / 315
    /\ r = - Rmax (- 1500) (Rmin rightSpeed 1500) / 315
    /\ Rabs l <= 1500 / 315
    /\ Rabs r <= 1500 / 315.
Proof.
  intros Hl Hr s'.
  destruct (setDriveMotors_joints leftSpeed rightSpeed s jl jr Hl Hr) as [H1 H2].
  exists (clampSpeed leftSpeed / 315), (- clampSpeed rightSpeed / 315).
  pose proof (clampSpeed_bounds leftSpeed).
  pose proof (clampSpeed_bounds rightSpeed).
  repeat split; try assumption; try reflexivity.
  - apply Rabs_le. lra.
  - apply Rabs_le. lra.
Qed.

Lemma setDriveMotors_clamped_witness :
  exists l r : R,
    lastMotor leftWheelJoint (fst (setDriveMotors 2000 (- 2000) builtRig))
    = Some (Motor l None)
    /\ lastMotor rightWheelJoint (fst (setDriveMotors 2000 (- 2000) builtRig))
       = Some (Motor r None)
    /\ l = Rmax (- 1500) (Rmin 2000 1500) / 315
    /\ r = - Rmax (- 1500) (Rmin (- 2000) 1500) / 315
    /\ Rabs l <= 1500 / 315
    /\ Rabs r <= 1500 / 315.
Proof.
  destruct (proj1 (proj2 builtRig_rigBuilt) leftWheelJoint) as [jl Hl].
  destruct (proj1 (proj2 builtRig_rigBuilt) rightWheelJoint) as [jr Hr].
  exact (setDriveMotors_clamped 2000 (- 2000) builtRig jl jr Hl Hr).
Defined.

(** C5 (as stated) fails: driving with leftSpeed = 315 and rightSpeed =
    -315 gives both wheel joints the command 1; the two commands are not
    of opposite sign. *)
Lemma setDriveMotors_mirrored_counterexample :
  let s' := fst (setDriveMotors 315 (- 315) builtRig) in
  - 1500 <= 315 <= 1500
  /\ lastMotor leftWheelJoint s' = Some (Motor 1 None)
  /\ lastMotor rightWheelJoint s' = Some (Motor 1 None)
  /\ ~ (exists l r : R,
          lastMotor leftWheelJoint s' = Some (Motor l None)
          /\ lastMotor rightWheelJoint s' = Some (Motor r None)
          /\ Rabs l = Rabs r /\ l = - r).
Proof.
  destruct (proj1 (proj2 builtRig_rigBuilt) leftWheelJoint) as [jl Hl].
  destruct (proj1 (proj2 builtRig_rigBuilt) rightWheelJoint) as [jr Hr].
  destruct (setDriveMotors_joints 315 (- 315) builtRig jl jr Hl Hr) as [H1 H2].
  rewrite clampSpeed_id in H1 by lra.
  rewrite clampSpeed_id in H2 by lra.
  replace (315 / 315) with 1 in H1 by field.
  replace (- - 315 / 315) with 1 in H2 by field.
  cbv zeta. split; [lra |]. split; [exact H1 |]. split; [exact H2 |].
  intros [l [r [E1 [E2 [_ E3]]]]].
  rewrite H1 in E1. rewrite H2 in E2.
  injection E1 as E1. injection E2 as E2. lra.
Qed.

(** C5 (amended).  For every speed [v] within the clamping range, driving
    with leftSpeed = v and rightSpeed = -v gives both wheel joints the same
    command v / 315 (equal magnitude, equal sign); driving with leftSpeed =
    rightSpeed = v gives them v / 315 and - v / 315 (equal magnitude,
    opposite sign). *)
Theorem setDriveMotors_mirrored (v : R) (s : Space) (jl jr : MotorEnabledJoint) :
  - 1500 <= v <= 1500 ->
  joint s leftWheelJoint = Some jl ->
  joint s rightWheelJoint = Some jr ->
  (let s' := fst (setDriveMotors v (- v) s) in
   lastMotor leftWheelJoint s' = Some (Motor (v / 315) None)
   /\ lastMotor rightWheelJoint s' = Some (Motor (v / 315) None))
  /\
  (let s' := fst (setDriveMotors v v s) in
   lastMotor leftWheelJoint s' = Some (Motor (v / 315) None)
   /\ lastMotor rightWheelJoint s' = Some (Motor (- (v / 315)) None)).
Proof.
  intros Hv Hl Hr. split; cbv zeta.
  - destruct (setDriveMotors_joints v (- v) s jl jr Hl Hr) as [H1 H2].
    rewrite clampSpeed_id in H1 by lra.
    rewrite clampSpeed_id in H2 by lra.
    replace (- - v / 315) with (v / 315) in H2 by field.
    split; assumption.
  - destruct (setDriveMotors_joints v v s jl jr Hl Hr) as [H1 H2].
    rewrite clampSpeed_id in H1 by lra.
    rewrite clampSpeed_id in H2 by lra.
    replace (- v / 315) with (- (v / 315)) in H2 by field.
    split; assumption.
Qed.

Lemma setDriveMotors_mirrored_witness :
  (let s' := fst (setDriveMotors 315 (- 315) builtRig) in
   lastMotor leftWheelJoint s' = Some (Motor (315 / 315) None)
   /\ lastMotor rightWheelJoint s' = Some (Motor (315 / 315) None))
  /\
  (let s' := fst (setDriveMotors 315 315 builtRig) in
   lastMotor leftWheelJoint s' = Some (Motor (315 / 315) None)
   /\ lastMotor rightWheelJoint s' = Some (Motor (- (315 / 315)) None)).
Proof.
  destruct (proj1 (proj2 builtRig_rigBuilt) leftWheelJoint) as [jl Hl].
  destruct (proj1 (proj2 builtRig_rigBuilt) rightWheelJoint) as [jr Hr].
  apply (setDriveMotors_mirrored 315 builtRig jl jr); [lra | exact Hl | exact Hr].
Defined.

Lemma rotationOf_Ok (f : RootMeshField) (s : Space) (m : Mesh) :
  rootMesh s f = Some m -> rotationOf f s = (s, Ok (rotationQuaternion m)).
Proof.
  intro H. unfold rotationOf. rewrite bind_get, H, bind_deref_Some. reflexivity.
Qed.

Lemma issue_Ok (f : JointField) (c : MotorCommand) (s : Space) (j : MotorEnabledJoint) :
  joint s f = Some j ->
  issue f c s = (setJoint f (Some (mkMotorEnabledJoint (jointData j) (Some c))) s,
                 Ok tt).
Proof. intro H. destruct c. simpl. apply setMotor_Ok. exact H. Qed.

Lemma setServoPositions_commands (goals : Tuple4 R) (s : Space) :
  rigBuilt s ->
  exists s',
    setServoPositions goals s = (s', Ok tt)
    /\ lastMotor armJoint s'
       = option_map (fun rotation => armMotorCommand rotation goals)
           (jointRotation armRotationDefault bodyCompoundRootMesh
                          armCompoundRootMesh armRotationVector s)
    /\ lastMotor clawJoint s'
       = option_map (fun rotation => clawMotorCommand rotation goals)
           (jointRotation clawRotationDefault armCompoundRootMesh
                          clawCompoundRootMesh clawRotationVector s)
    /\ rootMesh s' = rootMesh s
    /\ rotation s' = rotation s
    /\ joint s' leftWheelJoint = joint s leftWheelJoint
    /\ joint s' rightWheelJoint = joint s rightWheelJoint.
Proof.
  intros [Hroots [Hjoints Hrots]].
  destruct (Hroots bodyCompoundRootMesh) as [body [_ [Hbody _]]].
  destruct (Hroots armCompoundRootMesh) as [arm [_ [Harm _]]].
  destruct (Hroots clawCompoundRootMesh) as [claw [_ [Hclaw _]]].
  destruct (Hjoints armJoint) as [ja Hja].
  destruct (Hjoints clawJoint) as [jc Hjc].
  destruct (Hrots armRotationDefault) as [qa Hqa].
  destruct (Hrots clawRotationDefault) as [qc Hqc].
  unfold setServoPositions, jointRotation.
  rewrite Hqa, Hqc, Hbody, Harm, Hclaw.
  erewrite bind_Ok by (apply rotationOf_Ok; exact Hbody).
  erewrite bind_Ok by (apply rotationOf_Ok; exact Harm).
  erewrite bind_Ok by (apply rotationOf_Ok; exact Hclaw).
  rewrite bind_get, Hqa, bind_deref_Some.
  erewrite bind_Ok by (apply issue_Ok; exact Hja).
  rewrite Hqc, bind_deref_Some.
  erewrite issue_Ok by (rewrite joint_setJoint_other by discriminate; exact Hjc).
  eexists. split; [reflexivity |].
  unfold lastMotor. repeat split.
Qed.

Lemma armDeltaNorm_0 : armDeltaNorm 0 = 0.
Proof. unfold armDeltaNorm, Rdiv. rewrite Rmult_0_l. apply Rabs_R0. Qed.

Lemma clawDeltaNorm_0 : clawDeltaNorm 0 = 0.
Proof. unfold clawDeltaNorm, Rdiv. rewrite Rmult_0_l. apply Rabs_R0. Qed.

Lemma armMotorCommand_tiers (r : R) (goals : Tuple4 R) :
  let d := armDelta (wrapServoRotation r) goals in
  let n := armDeltaNorm d in
  (n < 0.01 -> armMotorCommand r goals = Motor 0 None)
  /\ (0.01 <= n <= 0.04 ->
      armMotorCommand r goals = Motor (armSign d * 1.2) (Some 8000))
  /\ (0.04 < n ->
      armMotorCommand r goals = Motor (armSign d * 6) (Some 8000))
  /\ (d = 0 -> armMotorCommand r goals = Motor 0 None).
Proof.
  intros d n. unfold armMotorCommand. fold d. fold n.
  repeat split; intro H.
  - destruct (Rlt_dec n 0.01); [reflexivity | lra].
  - destruct (Rlt_dec n 0.01); [lra |].
    destruct (Rge_dec n 0.001); [| lra].
    destruct (Rle_dec n 0.04); [reflexivity | lra].
  - destruct (Rlt_dec n 0.01); [lra |].
    destruct (Rge_dec n 0.001); [| reflexivity].
    destruct (Rle_dec n 0.04); [lra | reflexivity].
  - assert (Hn : n = 0) by (unfold n; rewrite H; apply armDeltaNorm_0).
    destruct (Rlt_dec n 0.01); [reflexivity | lra].
Qed.

Lemma clawMotorCommand_tiers (r : R) (goals : Tuple4 R) :
  let d := clawDelta (wrapServoRotation r) goals in
  let n := clawDeltaNorm d in
  (n < 0.01 -> clawMotorCommand r goals = Motor 0 None)
  /\ (0.01 <= n <= 0.04 ->
      clawMotorCommand r goals = Motor (clawSign d * 1.2) (Some 2000))
  /\ (0.04 < n ->
      clawMotorCommand r goals = Motor (clawSign d * 6) (Some 2000))
  /\ (d = 0 -> clawMotorCommand r goals = Motor 0 None).
Proof.
  intros d n. unfold clawMotorCommand. fold d. fold n.
  repeat split; intro H.
  - destruct (Rlt_dec n 0.01); [reflexivity | lra].
  - destruct (Rlt_dec n 0.01); [lra |].
    destruct (Rge_dec n 0.001); [| lra].
    destruct (Rle_dec n 0.04); [reflexivity | lra].
  - destruct (Rlt_dec n 0.01); [lra |].
    destruct (Rge_dec n 0.001); [| reflexivity].
    destruct (Rle_dec n 0.04); [lra | reflexivity].
  - assert (Hn : n = 0) by (unfold n; rewrite H; apply clawDeltaNorm_0).
    destruct (Rlt_dec n 0.01); [reflexivity | lra].
Qed.

(** C1.  On a built rig every servo drive step succeeds and gives the arm
    joint and the claw joint one motor command each.  The arm's rotation
    is extracted about the x axis from the rotation of the arm relative to
    the body and the recorded baseline, and a full turn is taken off it
    when it is pi or more; its delta is [rotation + 87.5 degrees - goal 0
    in radians], the goal being in ticks of which 2048 make 175 degrees.
    The claw's rotation is extracted about the negative z axis from the
    rotation of the claw relative to the arm; its delta is [rotation - 175
    degrees + goal 3 in radians].  The normalized absolute delta is the
    absolute value of the delta over 175 degrees.  The command follows
    three tiers tried in order: below 0.01 the motor is set to 0 (so a
    servo exactly at its goal, delta = 0, is stopped, not driven); else
    within [0.001, 0.04] it is driven at 1.2, else at 6, in the direction
    given by the sign of the delta (for the arm 1 when the delta is
    non-negative and -1 otherwise, for the claw the opposite), with maximal
    force 8000 for the arm and 2000 for the claw. *)
Theorem setServoPositions_three_tiers (goals : Tuple4 R) (s : Space)
        (body arm claw : Mesh) (armDefault clawDefault : Quaternion) :
  rigBuilt s ->
  rootMesh s bodyCompoundRootMesh = Some body ->
  rootMesh s armCompoundRootMesh = Some arm ->
  rootMesh s clawCompoundRootMesh = Some claw ->
  rotation s armRotationDefault = Some armDefault ->
  rotation s clawRotationDefault = Some clawDefault ->
  let wrap (r : R) := if Rge_dec r PI then r - 2 * PI else r in
  let armRotation :=
    wrap (getDeltaRotationOnAxis armDefault
            (Quat.multiply (Quat.Inverse (rotationQuaternion body))
                           (rotationQuaternion arm))
            (mkVector3 1 0 0)) in
  let clawRotation :=
    wrap (getDeltaRotationOnAxis clawDefault
            (Quat.multiply (Quat.Inverse (rotationQuaternion arm))
                           (rotationQuaternion claw))
            (mkVector3 0 0 (-1))) in
  let armDelta :=
    armRotation + 87.5 * PI / 180
    - at0 goals / (2048 / (2 * (87.5 * PI / 180))) in
  let clawDelta :=
    clawRotation - 175 * PI / 180
    + at3 goals / (2048 / (2 * (87.5 * PI / 180))) in
  let norm (delta : R) := Rabs (delta / (87.5 * PI / 180 * 2)) in
  let armSign := if Rge_dec armDelta 0 then 1 else -1 in
  let clawSign := if Rge_dec clawDelta 0 then -1 else 1 in
  exists s',
    setServoPositions goals s = (s', Ok tt)
    /\ (norm armDelta < 0.01 -> lastMotor armJoint s' = Some (Motor 0 None))
    /\ (~ norm armDelta < 0.01 -> 0.001 <= norm armDelta <= 0.04 ->
        lastMotor armJoint s' = Some (Motor (armSign * 1.2) (Some 8000)))
    /\ (~ norm armDelta < 0.01 -> ~ 0.001 <= norm armDelta <= 0.04 ->
        lastMotor armJoint s' = Some (Motor (armSign * 6) (Some 8000)))
    /\ (armDelta = 0 -> lastMotor armJoint s' = Some (Motor 0 None))
    /\ (norm clawDelta < 0.01 -> lastMotor clawJoint s' = Some (Motor 0 None))
    /\ (~ norm clawDelta < 0.01 -> 0.001 <= norm clawDelta <= 0.04 ->
        lastMotor clawJoint s' = Some (Motor (clawSign * 1.2) (Some 2000)))
    /\ (~ norm clawDelta < 0.01 -> ~ 0.001 <= norm clawDelta <= 0.04 ->
        lastMotor clawJoint s' = Some (Motor (clawSign * 6) (Some 2000)))
    /\ (clawDelta = 0 -> lastMotor clawJoint s' = Some (Motor 0 None)).
Proof.
  intros Hs Hbody Harm Hclaw Hqa Hqc wrap armRotation clawRotation armDelta_
         clawDelta_ norm armSign_ clawSign_.
  destruct (setServoPositions_commands goals s Hs)
    as [s' [Hrun [Ha [Hc _]]]].
  unfold jointRotation in Ha, Hc.
  rewrite Hqa, Hbody, Harm in Ha. rewrite Hqc, Harm, Hclaw in Hc.
  cbn [option_map] in Ha, Hc.
  exists s'. split; [exact Hrun |].
  destruct (armMotorCommand_tiers
              (getDeltaRotationOnAxis armDefault
                 (Quat.multiply (Quat.Inverse (rotationQuaternion body))
                                (rotationQuaternion arm)) armRotationVector)
              goals) as [A1 [A2 [A3 A4]]].
  destruct (clawMotorCommand_tiers
              (getDeltaRotationOnAxis clawDefault
                 (Quat.multiply (Quat.Inverse (rotationQuaternion arm))
                                (rotationQuaternion claw)) clawRotationVector)
              goals) as [C1 [C2 [C3 C4]]].
  change (armDelta (wrapServoRotation
            (getDeltaRotationOnAxis armDefault
               (Quat.multiply (Quat.Inverse (rotationQuaternion body))
                              (rotationQuaternion arm)) armRotationVector))
            goals) with armDelta_ in A1, A2, A3, A4.
  change (clawDelta (wrapServoRotation
            (getDeltaRotationOnAxis clawDefault
               (Quat.multiply (Quat.Inverse (rotationQuaternion arm))
                              (rotationQuaternion claw)) clawRotationVector))
            goals) with clawDelta_ in C1, C2, C3, C4.
  change (armDeltaNorm armDelta_) with (norm armDelta_) in A1, A2, A3.
  change (clawDeltaNorm clawDelta_) with (norm clawDelta_) in C1, C2, C3.
  change (armSign armDelta_) with armSign_ in A2, A3.
  change (clawSign clawDelta_) with clawSign_ in C2, C3.
  rewrite Ha, Hc.
  repeat split; intros.
  - rewrite A1 by assumption. reflexivity.
  - rewrite A2 by lra. reflexivity.
  - rewrite A3 by lra. reflexivity.
  - rewrite A4 by assumption. reflexivity.
  - rewrite C1 by assumption. reflexivity.
  - rewrite C2 by lra. reflexivity.
  - rewrite C3 by lra. reflexivity.
  - rewrite C4 by assumption. reflexivity.
Qed.

(** ** Pose-delta extraction *)

Lemma Quat_length_1 (q : Quaternion) :
  Quat.lengthSquared q = 1 -> Quat.length q = 1.
Proof. intro H. unfold Quat.length. rewrite H. apply sqrt_1. Qed.

Lemma Quat_lengthSquared_of_length (q : Quaternion) :
  Quat.length q = 1 -> Quat.lengthSquared q = 1.
Proof.
  unfold Quat.length. intro H.
  assert (Hnn : 0 <= Quat.lengthSquared q).
  { unfold Quat.lengthSquared. nra. }
  rewrite <- (sqrt_sqrt _ Hnn). rewrite H. ring.
Qed.

Lemma Vec_lengthSquared_of_length (v : Vector3) :
  Vec.length v = 1 -> Vec.lengthSquared v = 1.
Proof.
  unfold Vec.length. intro H.
  assert (Hnn : 0 <= Vec.lengthSquared v).
  { unfold Vec.lengthSquared. nra. }
  rewrite <- (sqrt_sqrt _ Hnn). rewrite H. ring.
Qed.

Lemma normalize_unit (q : Quaternion) :
  Quat.lengthSquared q = 1 ->
  Quat.normalize q = Quat.scaleInPlace q (1 / 1).
Proof.
  intro H. unfold Quat.normalize. rewrite (Quat_length_1 q H).
  destruct (Req_dec_T 1 0) as [E | _]; [lra | reflexivity].
Qed.

(** The twist of a quaternion whose vector part lies along the direction,
    on its positive side: the quaternion itself. *)
Lemma getTwistForQuaternion_along (q : Quaternion) (u : Vector3) (k : R) :
  Vec.lengthSquared u = 1 ->
  qx q = k * vx u -> qy q = k * vy u -> qz q = k * vz u ->
  k * k + qw q * qw q = 1 ->
  0 <= k ->
  qw (getTwistForQuaternion q u) = qw q.
Proof.
  intros Hu Hx Hy Hz Hk Hpos.
  unfold getTwistForQuaternion.
  assert (Hdot : Vec.Dot u (mkVector3 (qx q) (qy q) (qz q)) = k).
  { unfold Vec.Dot; simpl. rewrite Hx, Hy, Hz.
    unfold Vec.lengthSquared in Hu.
    replace (vx u * (k * vx u) + vy u * (k * vy u) + vz u * (k * vz u))
      with (k * (vx u * vx u + vy u * vy u + vz u * vz u)) by ring.
    rewrite Hu. ring. }
  rewrite Hdot.
  rewrite normalize_unit.
  - destruct (Rlt_dec k 0) as [Hlt | _]; [lra |]. simpl. field.
  - unfold Quat.lengthSquared, Vec.scale; simpl.
    unfold Vec.lengthSquared in Hu.
    replace (vx u * k * (vx u * k) + vy u * k * (vy u * k)
             + vz u * k * (vz u * k) + qw q * qw q)
      with (k * k * (vx u * vx u + vy u * vy u + vz u * vz u) + qw q * qw q)
      by ring.
    rewrite Hu. lra.
Qed.

Lemma multiply_Inverse_self (q : Quaternion) :
  Quat.multiply q (Quat.Inverse q) = mkQuaternion 0 0 0 (Quat.lengthSquared q).
Proof.
  unfold Quat.multiply, Quat.Inverse, Quat.lengthSquared; simpl.
  f_equal; ring.
Qed.

Lemma rotated_axis_lengthSquared (q : Quaternion) (a : Vector3) :
  Vec.lengthSquared (Quat.rotateVector q a)
  = Quat.lengthSquared q * Quat.lengthSquared q * Vec.lengthSquared a.
Proof.
  unfold Vec.lengthSquared, Quat.rotateVector, Quat.lengthSquared,
    Quat.multiply, Quat.Inverse; simpl. ring.
Qed.

Lemma getDeltaRotationOnAxis_unfold (start end_ : Quaternion) (axis : Vector3) :
  getDeltaRotationOnAxis start end_ axis =
  2 * acos (qw (getTwistForQuaternion (Quat.multiply end_ (Quat.Inverse start))
                                      (Quat.rotateVector start axis))).
Proof. reflexivity. Qed.

Lemma local_rotation_delta (start : Quaternion) (axis : Vector3) (theta : R) :
  Quat.multiply (Quat.multiply start (Quat.RotationAxis axis theta))
                (Quat.Inverse start)
  = let u := Quat.rotateVector start axis in
    mkQuaternion (sin (theta / 2) * vx u) (sin (theta / 2) * vy u)
                 (sin (theta / 2) * vz u)
                 (cos (theta / 2) * Quat.lengthSquared start).
Proof.
  unfold Quat.rotateVector, Quat.multiply, Quat.Inverse, Quat.RotationAxis,
    Quat.lengthSquared; simpl.
  f_equal; ring.
Qed.

(** A rotation of [start] by [theta] about its own [axis] is extracted as
    [theta], for [theta] between 0 and a full turn. *)
Lemma getDeltaRotationOnAxis_local (start : Quaternion) (axis : Vector3) (theta : R) :
  Quat.lengthSquared start = 1 ->
  Vec.lengthSquared axis = 1 ->
  0 <= theta <= 2 * PI ->
  getDeltaRotationOnAxis start
    (Quat.multiply start (Quat.RotationAxis axis theta)) axis = theta.
Proof.
  intros Hs Ha Ht.
  rewrite getDeltaRotationOnAxis_unfold, local_rotation_delta, Hs.
  cbv zeta.
  rewrite (getTwistForQuaternion_along _ _ (sin (theta / 2))); try reflexivity.
  - cbn [qw]. replace (cos (theta / 2) * 1) with (cos (theta / 2)) by ring.
    rewrite acos_cos by lra. field.
  - rewrite rotated_axis_lengthSquared, Hs, Ha. ring.
  - cbn [qw]. pose proof (sin2_cos2 (theta / 2)) as H. unfold Rsqr in H. lra.
  - apply sin_ge_0; lra.
Qed.

Lemma getDeltaRotationOnAxis_range (start end_ : Quaternion) (axis : Vector3) :
  0 <= getDeltaRotationOnAxis start end_ axis <= 2 * PI.
Proof.
  rewrite getDeltaRotationOnAxis_unfold.
  pose proof (acos_bound (qw (getTwistForQuaternion
                                (Quat.multiply end_ (Quat.Inverse start))
                                (Quat.rotateVector start axis)))).
  lra.
Qed.

(** Over the reals, start and end being the same unit quaternion, the
    delta is the identity and the extraction returns 0 about any normalized
    axis.  (This is the point of the model at which the program's own
    arithmetic may return a full turn instead; it is used below only under
    the caller's wrap and where the program's arithmetic is exact.) *)
Lemma getDeltaRotationOnAxis_same (q : Quaternion) (axis : Vector3) :
  Quat.lengthSquared q = 1 ->
  Vec.lengthSquared axis = 1 ->
  getDeltaRotationOnAxis q q axis = 0.
Proof.
  intros Hq Ha.
  rewrite getDeltaRotationOnAxis_unfold, multiply_Inverse_self, Hq.
  rewrite (getTwistForQuaternion_along _ _ 0); try (simpl; ring).
  - simpl. rewrite acos_1. ring.
  - rewrite rotated_axis_lengthSquared, Hq, Ha. ring.
  - lra.
Qed.


(** C3.  The rotation the after-render callback reports for a wheel is
    the extracted angle, less a full turn when the extracted angle exceeds
    pi, and lies in (-pi, pi]; a wheel that advanced by 3 pi / 2 about the
    wheel axis since the previous frame is extracted as 3 pi / 2 and
    reported as - pi / 2. *)
Theorem wheelRotation_wrapped :
  (forall prev curr,
      let raw := getDeltaRotationOnAxis prev curr wheelRotationVector in
      wheelRotation prev curr = (if Rgt_dec raw PI then raw - 2 * PI else raw)
      /\ - PI < (if Rgt_dec raw PI then raw - 2 * PI else raw) <= PI)
  /\
  (forall prev,
      Quat.length prev = 1 ->
      let curr :=
        Quat.multiply prev (Quat.RotationAxis wheelRotationVector (3 * PI / 2)) in
      getDeltaRotationOnAxis prev curr wheelRotationVector = 3 * PI / 2
      /\ wheelRotation prev curr = - PI / 2).
Proof.
  split.
  - intros prev curr raw.
    pose proof (getDeltaRotationOnAxis_range prev curr wheelRotationVector) as Hr.
    fold raw in Hr.
    split; [reflexivity |].
    pose proof PI_RGT_0.
    destruct (Rgt_dec raw PI); lra.
  - intros prev Hp curr.
    assert (H : getDeltaRotationOnAxis prev curr wheelRotationVector
                = 3 * PI / 2).
    { apply getDeltaRotationOnAxis_local.
      - apply Quat_lengthSquared_of_length; exact Hp.
      - unfold Vec.lengthSquared; simpl. ring.
      - pose proof PI_RGT_0. lra. }
    split; [exact H |].
    unfold wheelRotation. rewrite H. unfold wrapWheelRotation.
    pose proof PI_RGT_0.
    destruct (Rgt_dec (3 * PI / 2) PI); [field | lra].
Qed.

Lemma wheelRotation_wrapped_witness :
  wheelRotation Quat.Identity
    (Quat.multiply Quat.Identity
       (Quat.RotationAxis wheelRotationVector (3 * PI / 2)))
  = - PI / 2.
Proof.
  apply (proj2 wheelRotation_wrapped Quat.Identity).
  unfold Quat.length, Quat.lengthSquared; simpl.
  replace (0 * 0 + 0 * 0 + 0 * 0 + 1 * 1) with 1 by ring. apply sqrt_1.
Defined.

(** ** Encoder feedback *)

(** *** Root meshes *)

Lemma rootMesh_setRootMesh_same (f : RootMeshField) (m : option Mesh) (s : Space) :
  rootMesh (setRootMesh f m s) f = m.
Proof. destruct f; reflexivity. Qed.

Lemma rootMesh_setRootMesh_other (f g : RootMeshField) (m : option Mesh) (s : Space) :
  f <> g -> rootMesh (setRootMesh f m s) g = rootMesh s g.
Proof. intro H. destruct f, g; try reflexivity; congruence. Qed.

Lemma RootMeshField_eq_dec (f g : RootMeshField) : {f = g} + {f <> g}.
Proof. decide equality. Qed.

Lemma setLinearVelocity_Ok (f : RootMeshField) (v : Vector3) (s : Space)
      (m : Mesh) (i : PhysicsImpostor) :
  rootMesh s f = Some m -> physicsImpostor m = Some i ->
  exists s' m',
    setLinearVelocity f v s = (s', Ok tt)
    /\ sameButRoot f s s'
    /\ rootMesh s' f = Some m'
    /\ parent m' = parent m
    /\ physicsImpostor m'
       = Some (mkPhysicsImpostor (impostorType i) (mass i) (friction i) v
                                 (angularVelocity i)).
Proof.
  intros Hm Hi. unfold setLinearVelocity.
  rewrite bind_get, Hm, bind_deref_Some, Hi, bind_deref_Some.
  eexists. eexists. split; [reflexivity |].
  unfold sameButRoot, pose. rewrite rootMesh_setRootMesh_same, Hm.
  repeat split.
  intros g Hg. apply rootMesh_setRootMesh_other. congruence.
Qed.

Lemma setAngularVelocity_Ok (f : RootMeshField) (v : Vector3) (s : Space)
      (m : Mesh) (i : PhysicsImpostor) :
  rootMesh s f = Some m -> physicsImpostor m = Some i ->
  exists s' m',
    setAngularVelocity f v s = (s', Ok tt)
    /\ sameButRoot f s s'
    /\ rootMesh s' f = Some m'
    /\ parent m' = parent m
    /\ physicsImpostor m'
       = Some (mkPhysicsImpostor (impostorType i) (mass i) (friction i)
                                 (linearVelocity i) v).
Proof.
  intros Hm Hi. unfold setAngularVelocity.
  rewrite bind_get, Hm, bind_deref_Some, Hi, bind_deref_Some.
  eexists. eexists. split; [reflexivity |].
  unfold sameButRoot, pose. rewrite rootMesh_setRootMesh_same, Hm.
  repeat split.
  intros g Hg. apply rootMesh_setRootMesh_other. congruence.
Qed.

Lemma setParent_Ok (f : RootMeshField) (p : option string) (s : Space) (m : Mesh) :
  rootMesh s f = Some m ->
  exists s' m',
    setParent f p s = (s', Ok tt)
    /\ sameButRoot f s s'
    /\ rootMesh s' f = Some m'
    /\ parent m' = p
    /\ physicsImpostor m' = physicsImpostor m.
Proof.
  intros Hm. unfold setParent.
  rewrite bind_get, Hm, bind_deref_Some.
  eexists. eexists. split; [reflexivity |].
  unfold sameButRoot, pose. rewrite rootMesh_setRootMesh_same, Hm.
  repeat split.
  intros g Hg. apply rootMesh_setRootMesh_other. congruence.
Qed.

Lemma sameButRoot_rootsBuilt (f : RootMeshField) (s s' : Space) :
  rootsBuilt s -> sameButRoot f s s' ->
  (exists m i, rootMesh s' f = Some m /\ physicsImpostor m = Some i) ->
  rootsBuilt s'.
Proof.
  intros Hs [_ [_ [Ho _]]] Hf g.
  destruct (RootMeshField_eq_dec g f) as [-> | Hne]; [exact Hf |].
  rewrite (Ho g Hne). apply Hs.
Qed.

Lemma sameButRoot_pose (f : RootMeshField) (s s' : Space) :
  sameButRoot f s s' -> forall g, pose g s' = pose g s.
Proof.
  intros [_ [_ [Ho Hp]]] g.
  destruct (RootMeshField_eq_dec g f) as [-> | Hne]; [exact Hp |].
  unfold pose. rewrite (Ho g Hne). reflexivity.
Qed.

Lemma jointRotation_ext (d : RotationField) (p c : RootMeshField) (a : Vector3)
      (s s' : Space) :
  rotation s' = rotation s ->
  (forall g, pose g s' = pose g s) ->
  jointRotation d p c a s' = jointRotation d p c a s.
Proof.
  intros Hr Hp. unfold jointRotation. rewrite Hr.
  pose proof (Hp p) as Hpp. pose proof (Hp c) as Hpc. unfold pose in Hpp, Hpc.
  destruct (rotation s d); [| reflexivity].
  destruct (rootMesh s' p), (rootMesh s p); try discriminate; try reflexivity.
  destruct (rootMesh s' c), (rootMesh s c); try discriminate; try reflexivity.
  injection Hpp as _ ->. injection Hpc as _ ->. reflexivity.
Qed.

(** The optional zeroing of a wheel's angular velocity in
    [setDriveMotors]. *)
Lemma zeroIf_Ok (c : bool) (f : RootMeshField) (s : Space) :
  rootsBuilt s ->
  exists s',
    (if c then setAngularVelocity f Vec.Zero else ret tt) s = (s', Ok tt)
    /\ rootsBuilt s'
    /\ joint s' = joint s
    /\ rotation s' = rotation s
    /\ (forall g, pose g s' = pose g s).
Proof.
  intro Hs. destruct c.
  - destruct (Hs f) as [m [i [Hm Hi]]].
    destruct (setAngularVelocity_Ok f Vec.Zero s m i Hm Hi)
      as [s' [m' [Hrun [Hsame [Hm' [_ Hi']]]]]].
    exists s'. split; [exact Hrun |].
    split; [eapply sameButRoot_rootsBuilt; eauto |].
    destruct Hsame as [Hj [Hr Hrest]].
    repeat split; try assumption.
    apply (sameButRoot_pose f). repeat split; try assumption; apply Hrest.
  - exists s. repeat split; auto.
Qed.

Lemma setDriveMotors_Ok (leftSpeed rightSpeed : R) (s : Space) :
  rigBuilt s ->
  exists s',
    setDriveMotors leftSpeed rightSpeed s = (s', Ok tt)
    /\ rigBuilt s'
    /\ rotation s' = rotation s
    /\ (forall g, pose g s' = pose g s).
Proof.
  intros [Hroots [Hjoints Hrots]].
  destruct (Hjoints leftWheelJoint) as [jl Hl].
  destruct (Hjoints rightWheelJoint) as [jr Hr].
  unfold setDriveMotors. rewrite bind_get, Hl, Hr. cbv zeta.
  erewrite bind_Ok.
  2:{ erewrite bind_Ok by (apply setMotor_Ok; exact Hl).
      apply setMotor_Ok.
      rewrite joint_setJoint_other by discriminate. exact Hr. }
  set (s2 := setJoint rightWheelJoint _ _).
  assert (H2 : rootMesh s2 = rootMesh s /\ rotation s2 = rotation s
               /\ forall f, exists j, joint s2 f = Some j).
  { subst s2. repeat split.
    intros []; simpl; eauto. }
  clearbody s2. destruct H2 as [Hrm2 [Hrot2 Hj2]].
  assert (Hroots2 : rootsBuilt s2).
  { intro g. rewrite Hrm2. apply Hroots. }
  destruct (zeroIf_Ok (if Req_dec_T leftSpeed 0 then true else false)
                      colliderLeftWheelMesh s2 Hroots2)
    as [s3 [Hrun3 [Hroots3 [Hj3 [Hrot3 Hp3]]]]].
  destruct (zeroIf_Ok (if Req_dec_T rightSpeed 0 then true else false)
                      colliderRightWheelMesh s3 Hroots3)
    as [s4 [Hrun4 [Hroots4 [Hj4 [Hrot4 Hp4]]]]].
  exists s4. split.
  - erewrite bind_Ok.
    2:{ destruct (Req_dec_T leftSpeed 0); exact Hrun3. }
    destruct (Req_dec_T rightSpeed 0); exact Hrun4.
  - split; [| split].
    + split; [exact Hroots4 |]. split.
      * intro f. rewrite Hj4, Hj3. apply Hj2.
      * intro f. rewrite Hrot4, Hrot3, Hrot2. apply Hrots.
    + rewrite Hrot4, Hrot3, Hrot2. reflexivity.
    + intro g. rewrite Hp4, Hp3. unfold pose. rewrite Hrm2. reflexivity.
Qed.

Lemma rigBuilt_jointRotation (d : RotationField) (p c : RootMeshField)
      (a : Vector3) (s : Space) :
  rigBuilt s -> exists r, jointRotation d p c a s = Some r.
Proof.
  intros [Hroots [_ Hrots]].
  destruct (Hroots p) as [mp [_ [Hp _]]].
  destruct (Hroots c) as [mc [_ [Hc _]]].
  destruct (Hrots d) as [q Hq].
  unfold jointRotation. rewrite Hq, Hp, Hc. eauto.
Qed.

Lemma setServoPositions_Ok (goals : Tuple4 R) (s : Space) :
  rigBuilt s ->
  exists s',
    setServoPositions goals s = (s', Ok tt)
    /\ rigBuilt s'
    /\ rotation s' = rotation s
    /\ rootMesh s' = rootMesh s.
Proof.
  intro Hs.
  destruct (setServoPositions_commands goals s Hs)
    as [s' [Hrun [Harm [Hclaw [Hrm [Hrot [Hjl Hjr]]]]]]].
  destruct (rigBuilt_jointRotation armRotationDefault bodyCompoundRootMesh
              armCompoundRootMesh armRotationVector s Hs) as [ra Hra].
  destruct (rigBuilt_jointRotation clawRotationDefault armCompoundRootMesh
              clawCompoundRootMesh clawRotationVector s Hs) as [rc Hrc].
  rewrite Hra in Harm. rewrite Hrc in Hclaw.
  exists s'. split; [exact Hrun |]. split; [| split; assumption].
  destruct Hs as [Hroots [Hjoints Hrots]].
  split; [| split].
  - intro g. rewrite Hrm. apply Hroots.
  - intros []; rewrite ?Hjl, ?Hjr; try apply Hjoints.
    + unfold lastMotor in Harm. destruct (joint s' armJoint); [eauto | discriminate].
    + unfold lastMotor in Hclaw. destruct (joint s' clawJoint); [eauto | discriminate].
  - intro f. rewrite Hrot. apply Hrots.
Qed.

(** C9.  On a built rig every run of the after-render callback succeeds,
    and the robot state it dispatches has in channel 0 of [motorPositions]
    the position read from the store plus the ticks of the left wheel's
    rotation since the previous frame, in channel 3 the same for the right
    wheel, and 0 in channels 1 and 2 whatever they held before; the other
    fields are those read from the store.  A wheel's rotation is the angle
    extracted about the wheel axis (0, -1, 0) between the rotation recorded
    at the previous frame and the wheel's rotation relative to the body,
    less a full turn when it exceeds pi; a full turn is 2048 ticks. *)
Theorem afterRender_motorPositions (currRobotState : RobotState) (s : Space)
        (body leftWheel rightWheel : Mesh) (leftPrev rightPrev : Quaternion) :
  rigBuilt s ->
  rootMesh s bodyCompoundRootMesh = Some body ->
  rootMesh s colliderLeftWheelMesh = Some leftWheel ->
  rootMesh s colliderRightWheelMesh = Some rightWheel ->
  rotation s leftWheelRotationPrev = Some leftPrev ->
  rotation s rightWheelRotationPrev = Some rightPrev ->
  let wrap (r : R) := if Rgt_dec r PI then r - 2 * PI else r in
  let leftRotation :=
    wrap (getDeltaRotationOnAxis leftPrev
            (Quat.multiply (Quat.Inverse (rotationQuaternion body))
                           (rotationQuaternion leftWheel))
            (mkVector3 0 (-1) 0)) in
  let rightRotation :=
    wrap (getDeltaRotationOnAxis rightPrev
            (Quat.multiply (Quat.Inverse (rotationQuaternion body))
                           (rotationQuaternion rightWheel))
            (mkVector3 0 (-1) 0)) in
  exists s' next,
    afterRender currRobotState s = (s', Ok next)
    /\ at0 (motorPositions next)
       = at0 (motorPositions currRobotState) + leftRotation * (2048 / (2 * PI))
    /\ at1 (motorPositions next) = 0
    /\ at2 (motorPositions next) = 0
    /\ at3 (motorPositions next)
       = at3 (motorPositions currRobotState) + rightRotation * (2048 / (2 * PI))
    /\ motorSpeeds next = motorSpeeds currRobotState
    /\ servoPositions next = servoPositions currRobotState
    /\ analogValues next = analogValues currRobotState
    /\ digitalValues next = digitalValues currRobotState.
Proof.
  intros Hs Hbody0 Hlw0 Hrw0 Hql0 Hqr0 wrap leftRotation rightRotation.
  destruct (setDriveMotors_Ok (at0 (motorSpeeds currRobotState))
                              (at3 (motorSpeeds currRobotState)) s Hs)
    as [s1 [Hrun1 [Hs1 [Hrot1 Hpose1]]]].
  destruct (setServoPositions_Ok (servoPositions currRobotState) s1 Hs1)
    as [s2 [Hrun2 [Hs2 [Hrot2 Hrm2]]]].
  assert (Hpose2 : forall g, pose g s2 = pose g s).
  { intro g. rewrite <- Hpose1. unfold pose. rewrite Hrm2. reflexivity. }
  assert (Hrot : rotation s2 = rotation s) by (rewrite Hrot2; exact Hrot1).
  assert (Hq2 : forall g m, rootMesh s g = Some m ->
                exists m2, rootMesh s2 g = Some m2
                           /\ rotationQuaternion m2 = rotationQuaternion m).
  { intros g m Hm. pose proof (Hpose2 g) as Hp. unfold pose in Hp.
    rewrite Hm in Hp.
    destruct (rootMesh s2 g) as [m2 |]; [| discriminate].
    injection Hp as _ Hq. eauto. }
  destruct (Hq2 _ _ Hbody0) as [body2 [Hbody Hqb]].
  destruct (Hq2 _ _ Hlw0) as [lw2 [Hlw Hqlw]].
  destruct (Hq2 _ _ Hrw0) as [rw2 [Hrw Hqrw]].
  unfold afterRender.
  erewrite bind_Ok by exact Hrun1.
  erewrite bind_Ok by exact Hrun2.
  erewrite bind_Ok by (apply rotationOf_Ok; exact Hbody).
  erewrite bind_Ok by (apply rotationOf_Ok; exact Hlw).
  erewrite bind_Ok by (apply rotationOf_Ok; exact Hrw).
  rewrite bind_get, Hrot, Hql0, bind_deref_Some, Hqr0, bind_deref_Some.
  rewrite !bind_modify. rewrite Hqb, Hqlw, Hqrw.
  eexists. eexists. split; [reflexivity |].
  simpl. repeat split.
Qed.

Lemma restingRig_rigBuilt : rigBuilt restingRig.
Proof.
  split; [| split].
  - intros []; do 2 eexists; split; reflexivity.
  - intros []; eexists; reflexivity.
  - intros []; eexists; reflexivity.
Qed.

(** ** Repositioning *)

(** *** Loops over the root meshes *)

Section ForEachRoot.

Variable body : RootMeshField -> M unit.
Variable P : Mesh -> Prop.
Variable Q : Mesh -> Mesh -> Prop.

Hypothesis body_Ok :
  forall f s m,
    rootMesh s f = Some m -> P m ->
    exists s' m',
      body f s = (s', Ok tt)
      /\ joint s' = joint s
      /\ rotation s' = rotation s
      /\ (forall g, g <> f -> rootMesh s' g = rootMesh s g)
      /\ rootMesh s' f = Some m'
      /\ Q m m'.

Lemma forEach_roots (l : list RootMeshField) :
  NoDup l ->
  forall s,
    (forall f, In f l -> exists m, rootMesh s f = Some m /\ P m) ->
    exists s',
      forEach l body s = (s', Ok tt)
      /\ joint s' = joint s
      /\ rotation s' = rotation s
      /\ (forall g, ~ In g l -> rootMesh s' g = rootMesh s g)
      /\ (forall g, In g l ->
          exists m m', rootMesh s g = Some m /\ rootMesh s' g = Some m' /\ Q m m').
Proof.
  induction 1 as [| f l Hnotin Hnodup IH]; intros s Hs.
  - exists s. simpl. repeat split; intros g Hg; contradiction.
  - destruct (Hs f (or_introl eq_refl)) as [m [Hm HP]].
    destruct (body_Ok f s m Hm HP) as [s1 [m1 [Hrun [Hj [Hr [Ho [Hm1 HQ]]]]]]].
    assert (Hs1 : forall g, In g l -> exists m, rootMesh s1 g = Some m /\ P m).
    { intros g Hg. rewrite (Ho g) by (intros ->; contradiction).
      apply Hs. right. exact Hg. }
    destruct (IH s1 Hs1) as [s2 [Hrun2 [Hj2 [Hr2 [Ho2 Hin2]]]]].
    exists s2. simpl. erewrite bind_Ok by exact Hrun.
    split; [exact Hrun2 |].
    split; [congruence |]. split; [congruence |]. split.
    + intros g Hg. rewrite Ho2 by tauto. apply Ho. intros ->. tauto.
    + intros g [<- | Hg].
      * exists m, m1. rewrite (Ho2 f Hnotin). auto.
      * destruct (Hin2 g Hg) as [ma [mb [Ha [Hb HQ2]]]].
        exists ma, mb. rewrite <- Ha. repeat split; try assumption.
        symmetry. apply Ho. intros ->. contradiction.
Qed.

End ForEachRoot.

Lemma rootMeshes_NoDup : NoDup rootMeshes.
Proof.
  unfold rootMeshes.
  repeat constructor; simpl; intuition discriminate.
Qed.

Lemma rootMeshes_all (f : RootMeshField) : In f rootMeshes.
Proof. destruct f; simpl; tauto. Qed.

(** What the first loop does to one root mesh. *)
Lemma stopAndAttach_body (f : RootMeshField) (s : Space) (m : Mesh) :
  rootMesh s f = Some m ->
  (exists i, physicsImpostor m = Some i) ->
  exists s' m',
    bind (setLinearVelocity f Vec.Zero) (fun _ =>
    bind (setAngularVelocity f Vec.Zero) (fun _ =>
    setParent f (Some resetTransformNode))) s = (s', Ok tt)
    /\ joint s' = joint s
    /\ rotation s' = rotation s
    /\ (forall g, g <> f -> rootMesh s' g = rootMesh s g)
    /\ rootMesh s' f = Some m'
    /\ (position m' = position m
        /\ rotationQuaternion m' = rotationQuaternion m
        /\ parent m' = Some resetTransformNode
        /\ exists i, physicsImpostor m' = Some i
                     /\ linearVelocity i = Vec.Zero
                     /\ angularVelocity i = Vec.Zero).
Proof.
  intros Hm [i Hi].
  destruct (setLinearVelocity_Ok f Vec.Zero s m i Hm Hi)
    as [s1 [m1 [Hrun1 [[Hj1 [Hr1 [Ho1 Hp1]]] [Hm1 [_ Hi1]]]]]].
  destruct (setAngularVelocity_Ok f Vec.Zero s1 m1 _ Hm1 Hi1)
    as [s2 [m2 [Hrun2 [[Hj2 [Hr2 [Ho2 Hp2]]] [Hm2 [_ Hi2]]]]]].
  destruct (setParent_Ok f (Some resetTransformNode) s2 m2 Hm2)
    as [s3 [m3 [Hrun3 [[Hj3 [Hr3 [Ho3 Hp3]]] [Hm3 [Hpar3 Hi3]]]]]].
  exists s3, m3.
  erewrite bind_Ok by exact Hrun1. erewrite bind_Ok by exact Hrun2.
  split; [exact Hrun3 |].
  split; [congruence |]. split; [congruence |]. split.
  - intros g Hg. rewrite Ho3, Ho2, Ho1 by assumption. reflexivity.
  - split; [exact Hm3 |].
    assert (Hp : pose f s3 = pose f s) by congruence.
    unfold pose in Hp. rewrite Hm3, Hm in Hp. injection Hp as Hpos Hrot.
    repeat split; try assumption.
    rewrite Hi3, Hi2. eexists. split; [reflexivity |]. split; reflexivity.
Qed.

Lemma stopAndAttach_Ok (s : Space) :
  rootsBuilt s ->
  exists s1,
    stopAndAttach s = (s1, Ok tt)
    /\ (forall f, exists m m',
          rootMesh s f = Some m /\ rootMesh s1 f = Some m'
          /\ position m' = position m
          /\ rotationQuaternion m' = rotationQuaternion m
          /\ parent m' = Some resetTransformNode
          /\ exists i, physicsImpostor m' = Some i
                       /\ linearVelocity i = Vec.Zero
                       /\ angularVelocity i = Vec.Zero).
Proof.
  intro Hs.
  destruct (forEach_roots _ _ _ stopAndAttach_body rootMeshes rootMeshes_NoDup s)
    as [s1 [Hrun [_ [_ [_ Hin]]]]].
  - intros f _. destruct (Hs f) as [m [i [Hm Hi]]]. eauto.
  - exists s1. split; [exact Hrun |].
    intro f. destruct (Hin f (rootMeshes_all f)) as [m [m' [Hm [Hm' H]]]].
    exists m, m'. tauto.
Qed.

Lemma detach_body (f : RootMeshField) (s : Space) (m : Mesh) :
  rootMesh s f = Some m ->
  True ->
  exists s' m',
    setParent f None s = (s', Ok tt)
    /\ joint s' = joint s
    /\ rotation s' = rotation s
    /\ (forall g, g <> f -> rootMesh s' g = rootMesh s g)
    /\ rootMesh s' f = Some m'
    /\ (physicsImpostor m' = physicsImpostor m /\ parent m' = None).
Proof.
  intros Hm _.
  destruct (setParent_Ok f None s m Hm)
    as [s3 [m3 [Hrun3 [[Hj3 [Hr3 [Ho3 Hp3]]] [Hm3 [Hpar3 Hi3]]]]]].
  exists s3, m3. repeat split; assumption.
Qed.

Lemma detach_Ok (s : Space) :
  (forall f, exists m, rootMesh s f = Some m) ->
  exists s',
    detach s = (s', Ok tt)
    /\ (forall f, exists m m',
          rootMesh s f = Some m /\ rootMesh s' f = Some m'
          /\ physicsImpostor m' = physicsImpostor m /\ parent m' = None).
Proof.
  intro Hs.
  destruct (forEach_roots _ _ _ detach_body rootMeshes rootMeshes_NoDup s)
    as [s1 [Hrun [_ [_ [_ Hin]]]]].
  - intros f _. destruct (Hs f) as [m Hm]. eauto.
  - exists s1. split; [exact Hrun |].
    intro f. destruct (Hin f (rootMeshes_all f)) as [m [m' [Hm [Hm' H]]]].
    exists m, m'. tauto.
Qed.

Lemma hangsUnder_child (fuel : nat) (s : Space) (a : string) :
  hangsUnder fuel s a (Some a) = true.
Proof. destruct fuel; simpl; rewrite String.eqb_refl; reflexivity. Qed.

Lemma carry_child (a : string) (mv : Motion) (s : Space) (f : RootMeshField)
      (m : Mesh) :
  rootMesh s f = Some m -> parent m = Some a ->
  rootMesh (carry a mv s) f = Some (moveMesh mv m).
Proof.
  intros Hm Hp. cbn [carry rootMesh]. rewrite Hm. cbn [option_map].
  rewrite Hp, hangsUnder_child. reflexivity.
Qed.

(** Carrying changes poses only. *)
Lemma carry_rootMesh (a : string) (mv : Motion) (s : Space) (f : RootMeshField)
      (m : Mesh) :
  rootMesh s f = Some m ->
  exists m',
    rootMesh (carry a mv s) f = Some m'
    /\ physicsImpostor m' = physicsImpostor m
    /\ parent m' = parent m.
Proof.
  intro Hm. cbn [carry rootMesh]. rewrite Hm. cbn [option_map].
  destruct (hangsUnder _ s a (parent m)); eexists; repeat split; reflexivity.
Qed.

(** The part of [setRobotPosition] and [setOrigin] after the first loop,
    run from a state in which every root mesh is stopped. *)
Lemma reposition_tail (from to : Vector3) (qfrom qto : Quaternion) (s1 : Space) :
  (forall f, exists m i, rootMesh s1 f = Some m /\ physicsImpostor m = Some i
                         /\ linearVelocity i = Vec.Zero
                         /\ angularVelocity i = Vec.Zero) ->
  exists s',
    bind (moveResetNode from to) (fun _ =>
    bind (rotateResetNode to qfrom qto) (fun _ => detach)) s1 = (s', Ok tt)
    /\ forall f, velocities f s' = Some (Vec.Zero, Vec.Zero).
Proof.
  intro H1.
  unfold moveResetNode, rotateResetNode. rewrite !bind_modify.
  set (s2 := carry _ _ s1).
  set (s3 := carry _ _ s2).
  assert (H3 : forall f, exists m i, rootMesh s3 f = Some m
                                     /\ physicsImpostor m = Some i
                                     /\ linearVelocity i = Vec.Zero
                                     /\ angularVelocity i = Vec.Zero).
  { intro f. destruct (H1 f) as [m [i [Hm [Hi Hv]]]].
    destruct (carry_rootMesh resetTransformNode (translation from to) s1 f m Hm)
      as [m2 [Hm2 [Hi2 _]]].
    fold s2 in Hm2.
    destruct (carry_rootMesh resetTransformNode
                (turnAbout to (Quat.multiply qto (Quat.Inverse qfrom)))
                s2 f m2 Hm2) as [m3 [Hm3 [Hi3 _]]].
    fold s3 in Hm3.
    exists m3, i. split; [exact Hm3 |]. split; [congruence | exact Hv]. }
  clearbody s3.
  destruct (detach_Ok s3) as [s' [Hrun Hall]].
  { intro f. destruct (H3 f) as [m [_ [Hm _]]]. eauto. }
  exists s'. split; [exact Hrun |].
  intro f. destruct (Hall f) as [m [m' [Hm [Hm' [Hi _]]]]].
  destruct (H3 f) as [m0 [i [Hm0 [Hi0 [Hl Ha]]]]].
  unfold velocities. rewrite Hm'. rewrite Hi.
  assert (m0 = m) by congruence. subst m0.
  rewrite Hi0, Hl, Ha. reflexivity.
Qed.

Lemma anyRootMeshMissing_false (s : Space) :
  (forall f, exists m, rootMesh s f = Some m) -> anyRootMeshMissing s = false.
Proof.
  intro H. unfold anyRootMeshMissing, rootMeshes. simpl.
  destruct (H bodyCompoundRootMesh) as [? ->].
  destruct (H colliderLeftWheelMesh) as [? ->].
  destruct (H colliderRightWheelMesh) as [? ->].
  destruct (H armCompoundRootMesh) as [? ->].
  destruct (H clawCompoundRootMesh) as [? ->].
  reflexivity.
Qed.

Lemma anyRootMeshMissing_true (s : Space) (f : RootMeshField) :
  rootMesh s f = None -> anyRootMeshMissing s = true.
Proof.
  intro H. unfold anyRootMeshMissing, rootMeshes. simpl.
  destruct f; rewrite H;
    repeat match goal with
           | |- context [ rootMesh s ?g ] => destruct (rootMesh s g)
           end; reflexivity.
Qed.

(** [setOrigin] before the rig exists: nothing is touched and the call is
    scheduled again 100 ms later. *)
Lemma setOrigin_deferred (origin : UnitReferenceFrame) (s : Space)
      (f : RootMeshField) :
  rootMesh s f = None ->
  setOrigin origin s = (s, Ok (RetryScheduled 100)).
Proof.
  intro H. unfold setOrigin. rewrite bind_get.
  rewrite (anyRootMeshMissing_true s f H). reflexivity.
Qed.

(** C10 (as stated) fails for [setOrigin] when a root mesh is missing: the
    call stops nothing and moves nothing, it only schedules itself again.
    Before the rig is loaded there is no root mesh at all, and the call
    leaves the state as it is; on a rig that is moving but lacks its claw
    root, the four root meshes that exist keep their velocities. *)
Lemma setOrigin_missing_root_counterexample :
  (forall f, rootMesh completeModel f = None)
  /\ setOrigin emptyFrame completeModel
     = (completeModel, Ok (RetryScheduled 100))
  /\ rootMesh movingRigWithoutClaw clawCompoundRootMesh = None
  /\ velocities bodyCompoundRootMesh movingRigWithoutClaw
     = Some (mkVector3 1 2 3, mkVector3 4 5 6)
  /\ setOrigin emptyFrame movingRigWithoutClaw
     = (movingRigWithoutClaw, Ok (RetryScheduled 100))
  /\ ~ (forall f,
          velocities f (fst (setOrigin emptyFrame movingRigWithoutClaw))
          = Some (Vec.Zero, Vec.Zero)).
Proof.
  assert (E : setOrigin emptyFrame movingRigWithoutClaw
              = (movingRigWithoutClaw, Ok (RetryScheduled 100))).
  { apply (setOrigin_deferred _ _ clawCompoundRootMesh). reflexivity. }
  split; [reflexivity |].
  split; [apply (setOrigin_deferred _ _ bodyCompoundRootMesh); reflexivity |].
  split; [reflexivity |]. split; [reflexivity |]. split; [exact E |].
  intro H. specialize (H bodyCompoundRootMesh). rewrite E in H.
  cbv [fst velocities movingRigWithoutClaw setRootMesh rootMesh movingRig
       RootMeshField_eqb option_map restingRig withVelocities withImpostor
       physicsImpostor newRootMesh linearVelocity angularVelocity Vec.Zero] in H.
  injection H as H _. lra.
Qed.

(** C10 (amended).  On a rig whose five root meshes exist with their
    impostors, every call of [setRobotPosition] and of [setOrigin] first
    sets the linear and the angular velocity of all five root meshes to
    zero, their poses being still those of before the call, and only then
    moves them: the call is the first loop followed, from the state the
    first loop leaves, by the move, the turn and the unparenting; it
    succeeds, and the five root meshes have zero linear and angular
    velocity when it returns.  A call of [setOrigin] while a root mesh is
    missing changes nothing and schedules itself again after 100 ms. *)
Theorem reposition_stops_motion :
  (forall s : Space,
      rootsBuilt s ->
      exists s1 body,
        rootMesh s bodyCompoundRootMesh = Some body
        /\ stopAndAttach s = (s1, Ok tt)
        /\ (forall f, velocities f s1 = Some (Vec.Zero, Vec.Zero)
                      /\ pose f s1 = pose f s)
        /\ (forall position_, exists s',
              setRobotPosition position_ s = (s', Ok tt)
              /\ setRobotPosition position_ s
                 = (let target :=
                      mkVector3 (Distance.toCentimetersValue (posX position_))
                                (Distance.toCentimetersValue (posY position_))
                                (Distance.toCentimetersValue (posZ position_)) in
                    bind (moveResetNode (position body) target) (fun _ =>
                    bind (rotateResetNode target (rotationQuaternion body)
                            (Quat.RotationAxis Vec.Up
                               (Angle.toRadiansValue (posTheta position_))))
                         (fun _ => detach))) s1
              /\ forall f, velocities f s' = Some (Vec.Zero, Vec.Zero))
        /\ (forall origin, exists s',
              setOrigin origin s = (s', Ok Repositioned)
              /\ setOrigin origin s
                 = (let target :=
                      UnitVector3.toRaw
                        (match framePosition origin with
                         | Some p => p
                         | None => UnitVector3.zero Distance.centimeters
                         end) Distance.centimeters in
                    let quat :=
                      Rotation.toRawQuaternion
                        (match frameOrientation origin with
                         | Some o => o
                         | None => Rotation.identity
                         end) in
                    bind (moveResetNode (position body) target) (fun _ =>
                    bind (rotateResetNode target (rotationQuaternion body) quat)
                         (fun _ =>
                    bind detach (fun _ => ret Repositioned)))) s1
              /\ forall f, velocities f s' = Some (Vec.Zero, Vec.Zero)))
  /\ (forall (s : Space) (origin : UnitReferenceFrame),
         (exists f, rootMesh s f = None) ->
         setOrigin origin s = (s, Ok (RetryScheduled 100))).
Proof.
  split.
  2:{ intros s origin [f Hf]. apply (setOrigin_deferred origin s f Hf). }
  intros s Hs.
  destruct (stopAndAttach_Ok s Hs) as [s1 [Hrun1 H1]].
  destruct (Hs bodyCompoundRootMesh) as [body [_ [Hbody _]]].
  exists s1, body. split; [exact Hbody |]. split; [exact Hrun1 |].
  assert (Hstopped : forall f, exists m i,
             rootMesh s1 f = Some m /\ physicsImpostor m = Some i
             /\ linearVelocity i = Vec.Zero /\ angularVelocity i = Vec.Zero).
  { intro f. destruct (H1 f) as [m [m' [_ [Hm' [_ [_ [_ [i Hi]]]]]]]]. eauto. }
  split; [| split].
  - intro f. destruct (H1 f) as [m [m' [Hm [Hm' [Hp [Hq [_ [i [Hi [Hl Ha]]]]]]]]]].
    unfold velocities, pose. rewrite Hm, Hm', Hi, Hl, Ha, Hp, Hq.
    split; reflexivity.
  - intro position_.
    assert (Hunfold :
      setRobotPosition position_ s
      = (let target :=
           mkVector3 (Distance.toCentimetersValue (posX position_))
                     (Distance.toCentimetersValue (posY position_))
                     (Distance.toCentimetersValue (posZ position_)) in
         bind (moveResetNode (position body) target) (fun _ =>
         bind (rotateResetNode target (rotationQuaternion body)
                 (Quat.RotationAxis Vec.Up
                    (Angle.toRadiansValue (posTheta position_))))
              (fun _ => detach))) s1).
    { unfold setRobotPosition.
      rewrite bind_get, Hbody, bind_deref_Some.
      erewrite bind_Ok by exact Hrun1. reflexivity. }
    rewrite Hunfold. cbv zeta.
    destruct (reposition_tail (position body)
                (mkVector3 (Distance.toCentimetersValue (posX position_))
                           (Distance.toCentimetersValue (posY position_))
                           (Distance.toCentimetersValue (posZ position_)))
                (rotationQuaternion body)
                (Quat.RotationAxis Vec.Up
                   (Angle.toRadiansValue (posTheta position_)))
                s1 Hstopped) as [s' [Hrun Hv]].
    exists s'. rewrite Hrun. repeat split. exact Hv.
  - intro origin.
    assert (Hunfold :
      setOrigin origin s
      = (let target :=
           UnitVector3.toRaw
             (match framePosition origin with
              | Some p => p
              | None => UnitVector3.zero Distance.centimeters
              end) Distance.centimeters in
         let quat :=
           Rotation.toRawQuaternion
             (match frameOrientation origin with
              | Some o => o
              | None => Rotation.identity
              end) in
         bind (moveResetNode (position body) target) (fun _ =>
         bind (rotateResetNode target (rotationQuaternion body) quat)
              (fun _ =>
         bind detach (fun _ => ret Repositioned)))) s1).
    { unfold setOrigin. rewrite bind_get.
      rewrite anyRootMeshMissing_false.
      2:{ intro f. destruct (Hs f) as [m [_ [Hm _]]]. eauto. }
      rewrite Hbody, bind_deref_Some.
      erewrite bind_Ok by exact Hrun1. reflexivity. }
    rewrite Hunfold. cbv zeta.
    match goal with
    | |- context [ bind (moveResetNode ?a ?b)
                     (fun _ => bind (rotateResetNode ?c ?d ?e) _) ] =>
        destruct (reposition_tail a b d e s1 Hstopped) as [s' [Hrun Hv]]
    end.
    exists s'.
    assert (E : forall (m1 m2 m3 : M unit) (t : Space),
              bind m1 (fun _ => bind m2 (fun _ => m3)) t = (s', Ok tt) ->
              bind m1 (fun _ => bind m2 (fun _ =>
                bind m3 (fun _ => ret Repositioned))) t = (s', Ok Repositioned)).
    { intros m1 m2 m3 t. unfold bind.
      destruct (m1 t) as [t2 [[] | e2]]; [| discriminate].
      destruct (m2 t2) as [t3 [[] | e3]]; [| discriminate].
      destruct (m3 t3) as [t4 [[] | e4]]; [| discriminate].
      intro H. injection H as ->. reflexivity. }
    rewrite (E _ _ _ _ Hrun). repeat split. exact Hv.
Qed.

Lemma movingRig_rootsBuilt : rootsBuilt movingRig.
Proof. intros []; do 2 eexists; split; reflexivity. Qed.

(** The moving rig: its body has velocities (1, 2, 3) and (4, 5, 6); after
    either call all five root meshes are at rest. *)
Lemma reposition_stops_motion_witness :
  velocities bodyCompoundRootMesh movingRig
  = Some (mkVector3 1 2 3, mkVector3 4 5 6)
  /\ (exists s',
         setRobotPosition
           (mkRobotPosition (Distance.mk Distance.centimeters 10)
                            (Distance.mk Distance.centimeters 0)
                            (Distance.mk Distance.centimeters 20)
                            (Angle.mk Angle.degrees 90))
           movingRig = (s', Ok tt)
         /\ forall f, velocities f s' = Some (Vec.Zero, Vec.Zero))
  /\ (exists s',
         setOrigin emptyFrame movingRig = (s', Ok Repositioned)
         /\ forall f, velocities f s' = Some (Vec.Zero, Vec.Zero)).
Proof.
  destruct (proj1 reposition_stops_motion movingRig movingRig_rootsBuilt)
    as [s1 [body [_ [_ [_ [Hp Ho]]]]]].
  split; [reflexivity |]. split.
  - destruct (Hp (mkRobotPosition (Distance.mk Distance.centimeters 10)
                                  (Distance.mk Distance.centimeters 0)
                                  (Distance.mk Distance.centimeters 20)
                                  (Angle.mk Angle.degrees 90)))
      as [s' [Hrun [_ Hv]]].
    exists s'. split; assumption.
  - destruct (Ho emptyFrame) as [s' [Hrun [_ Hv]]].
    exists s'. split; assumption.
Defined.

(** ** The resting rig *)

Lemma multiply_Inverse_Identity :
  Quat.multiply (Quat.Inverse Quat.Identity) Quat.Identity = Quat.Identity.
Proof. unfold Quat.multiply, Quat.Inverse, Quat.Identity; simpl. f_equal; ring. Qed.

Lemma Identity_unit : Quat.lengthSquared Quat.Identity = 1.
Proof. unfold Quat.lengthSquared; simpl. ring. Qed.

(** On the resting rig, whose recorded rotations are the current ones
    (all of them the identity, on which the program's arithmetic is
    exact), both servo joints are extracted at rotation 0. *)
Lemma restingRig_jointRotation :
  jointRotation armRotationDefault bodyCompoundRootMesh armCompoundRootMesh
                armRotationVector restingRig = Some 0
  /\ jointRotation clawRotationDefault armCompoundRootMesh clawCompoundRootMesh
                   clawRotationVector restingRig = Some 0.
Proof.
  unfold jointRotation; simpl.
  rewrite multiply_Inverse_Identity.
  split; f_equal; apply getDeltaRotationOnAxis_same;
    try apply Identity_unit; unfold Vec.lengthSquared; simpl; ring.
Qed.

Lemma SERVO_DEFUALT_RADIANS_pos : 0 < SERVO_DEFUALT_RADIANS.
Proof. unfold SERVO_DEFUALT_RADIANS. pose proof PI_RGT_0. lra. Qed.

Lemma CLAW_DEFAULT_ROTATION_eq : CLAW_DEFAULT_ROTATION = 2 * SERVO_DEFUALT_RADIANS.
Proof. unfold CLAW_DEFAULT_ROTATION, SERVO_DEFUALT_RADIANS. lra. Qed.

Lemma wrapServoRotation_0 : wrapServoRotation 0 = 0.
Proof.
  unfold wrapServoRotation. pose proof PI_RGT_0.
  destruct (Rge_dec 0 PI); [lra | reflexivity].
Qed.

(** On the resting rig the arm stands at 1024 ticks and the claw at 2048:
    with the goals 1024 for the arm and 0 for the claw the arm, at its
    goal, is stopped, and the claw, a whole range away from its goal, is
    driven at 6 with maximal force 2000. *)
Lemma setServoPositions_three_tiers_witness :
  exists s',
    setServoPositions (mkTuple4 1024 0 0 0) restingRig = (s', Ok tt)
    /\ lastMotor armJoint s' = Some (Motor 0 None)
    /\ lastMotor clawJoint s' = Some (Motor (1 * 6) (Some 2000)).
Proof.
  pose proof PI_RGT_0 as Hpi.
  destruct (setServoPositions_three_tiers (mkTuple4 1024 0 0 0) restingRig
              _ _ _ _ _ restingRig_rigBuilt eq_refl eq_refl eq_refl eq_refl
              eq_refl)
    as [s' [Hrun [_ [_ [_ [A4 [_ [_ [C3 _]]]]]]]]].
  cbv zeta in A4, C3.
  cbn [rotationQuaternion withImpostor newRootMesh at0 at3] in A4, C3.
  rewrite multiply_Inverse_Identity in A4, C3.
  rewrite getDeltaRotationOnAxis_same in A4, C3
    by (try apply Identity_unit; unfold Vec.lengthSquared; simpl; ring).
  assert (Hx : 0 < 87.5 * PI / 180) by lra.
  assert (Hy : 175 * PI / 180 = 87.5 * PI / 180 * 2) by lra.
  exists s'. split; [exact Hrun |]. split.
  - apply A4. destruct (Rge_dec 0 PI); [lra |].
    set (x := 87.5 * PI / 180) in *. field. lra.
  - assert (Hd : (if Rge_dec 0 PI then 0 - 2 * PI else 0) - 175 * PI / 180
                 + 0 / (2048 / (2 * (87.5 * PI / 180))) = - (175 * PI / 180)).
    { destruct (Rge_dec 0 PI); [lra |].
      set (x := 87.5 * PI / 180) in *. set (y := 175 * PI / 180) in *.
      field. lra. }
    rewrite Hd in C3.
    assert (Hn : Rabs (- (175 * PI / 180) / (87.5 * PI / 180 * 2)) = 1).
    { rewrite Hy. set (x := 87.5 * PI / 180) in *.
      replace (- (x * 2) / (x * 2)) with (Ropp 1) by (field; lra).
      rewrite Rabs_Ropp. apply Rabs_R1. }
    rewrite Hn in C3.
    destruct (Rge_dec (- (175 * PI / 180)) 0) as [Hge | _]; [lra |].
    apply C3; lra.
Defined.

(** Servo dead-band on the resting rig: with the goals at the servos'
    current positions (1024 ticks for the arm, 2048 for the claw) both
    joints are stopped. *)
Lemma restingRig_servos_at_goal :
  exists s',
    setServoPositions (mkTuple4 1024 0 0 2048) restingRig = (s', Ok tt)
    /\ lastMotor armJoint s' = Some (Motor 0 None)
    /\ lastMotor clawJoint s' = Some (Motor 0 None).
Proof.
  destruct (setServoPositions_commands (mkTuple4 1024 0 0 2048) restingRig
              restingRig_rigBuilt) as [s' [Hrun [Harm [Hclaw _]]]].
  destruct restingRig_jointRotation as [Ra Rc].
  rewrite Ra in Harm. rewrite Rc in Hclaw. cbn [option_map] in Harm, Hclaw.
  exists s'. split; [exact Hrun |]. split.
  - rewrite Harm. f_equal.
    destruct (armMotorCommand_tiers 0 (mkTuple4 1024 0 0 2048))
      as [_ [_ [_ T4]]]. apply T4.
    rewrite wrapServoRotation_0.
    pose proof SERVO_DEFUALT_RADIANS_pos.
    unfold armDelta, ARM_DEFAULT_ROTATION, SERVO_TICKS_PER_RADIAN; simpl.
    field. lra.
  - rewrite Hclaw. f_equal.
    destruct (clawMotorCommand_tiers 0 (mkTuple4 1024 0 0 2048))
      as [_ [_ [_ T4]]]. apply T4.
    rewrite wrapServoRotation_0.
    pose proof SERVO_DEFUALT_RADIANS_pos.
    unfold clawDelta, SERVO_TICKS_PER_RADIAN; simpl.
    rewrite CLAW_DEFAULT_ROTATION_eq. field. lra.
Qed.

(** The effective low-speed tier: a normalized delta in [0.001, 0.01) is
    below the stop threshold, which is tried first. *)
Lemma armMotorCommand_below_stop_threshold :
  armDeltaNorm (armDelta (wrapServoRotation 0) (mkTuple4 1013.76 0 0 0)) = 0.005
  /\ armMotorCommand 0 (mkTuple4 1013.76 0 0 0) = Motor 0 None.
Proof.
  assert (H : armDeltaNorm (armDelta (wrapServoRotation 0)
                                     (mkTuple4 1013.76 0 0 0)) = 0.005).
  { rewrite wrapServoRotation_0.
    pose proof SERVO_DEFUALT_RADIANS_pos.
    unfold armDeltaNorm, armDelta, ARM_DEFAULT_ROTATION, SERVO_TICKS_PER_RADIAN;
      simpl.
    replace 1013.76 with (101376 / 100) by lra.
    replace ((0 + SERVO_DEFUALT_RADIANS
              - 101376 / 100 / (2048 / (2 * SERVO_DEFUALT_RADIANS)))
             / (SERVO_DEFUALT_RADIANS * 2)) with (5 / 1000)
      by (field; lra).
    replace 0.005 with (5 / 1000) by lra.
    apply Rabs_pos_eq. lra. }
  split; [exact H |].
  destruct (armMotorCommand_tiers 0 (mkTuple4 1013.76 0 0 0)) as [T1 _].
  apply T1. rewrite H. lra.
Qed.

(** ** State reconciler *)

(** The distance, in meters, between a point on the x axis given in
    centimeters and the origin. *)
Lemma distance_from_origin (u : Distance.Unit) (d : R) :
  0 <= d ->
  Distance.value
    (UnitVector3.distance (UnitVector3.zero u)
       (UnitVector3.fromRaw (mkVector3 d 0 0) Distance.centimeters))
  = d / 100.
Proof.
  intro Hd.
  unfold UnitVector3.distance, UnitVector3.toRaw, UnitVector3.fromRaw,
    UnitVector3.zero, Vec.length, Vec.lengthSquared, Vec.subtract,
    Distance.toType; simpl.
  match goal with
  | |- sqrt ?e = _ =>
      replace e with ((d / 100) * (d / 100)) by (destruct u; simpl; field)
  end.
  apply sqrt_square. lra.
Qed.

Lemma getSignificantOriginChange_TransformNode
      (currentOrigin : UnitReferenceFrame) (bPosition : Vector3)
      (bRotation : option Quaternion) :
  let position := positionOrZero currentOrigin in
  let rotation := orientationOrIdentity currentOrigin in
  let bPositionConv := UnitVector3.fromRaw bPosition Distance.centimeters in
  exists change,
    getSignificantOriginChange currentOrigin (BTransformNode bPosition bRotation)
    = Ok change
    /\ (Distance.value (UnitVector3.distance position bPositionConv) > 0.005 ->
        framePosition change
        = Some (UnitVector3.toTypeGranular bPositionConv
                  (Distance.type (UnitVector3.x position))
                  (Distance.type (UnitVector3.y position))
                  (Distance.type (UnitVector3.z position))))
    /\ (Distance.value (UnitVector3.distance position bPositionConv) <= 0.005 ->
        framePosition change = None)
    /\ (forall q, bRotation = Some q ->
        let bOrientationConv := Rotation.fromRawQuaternion q Rotation.euler in
        (Angle.value (Angle.toRadians (Rotation.angle rotation bOrientationConv))
         > 0.00872665 ->
         frameOrientation change
         = Some (Rotation.toType bOrientationConv (Rotation.type rotation)))
        /\ (Angle.value (Angle.toRadians (Rotation.angle rotation bOrientationConv))
            <= 0.00872665 ->
            frameOrientation change = None))
    /\ (bRotation = None -> frameOrientation change = None)
    /\ frameScale change = None.
Proof.
  intros position_ rotation_ conv.
  unfold getSignificantOriginChange.
  fold position_. fold rotation_. fold conv.
  eexists. split; [reflexivity |]. cbn [framePosition frameOrientation frameScale].
  repeat split.
  - intro H. destruct (Rgt_dec _ _); [reflexivity | lra].
  - intro H. destruct (Rgt_dec _ _); [lra | reflexivity].
  - subst bRotation. intro H. destruct (Rgt_dec _ _); [reflexivity | contradiction].
  - subst bRotation. intro H. destruct (Rgt_dec _ _); [lra | reflexivity].
  - intros ->. reflexivity.
Qed.

Lemma frame_eta (c : UnitReferenceFrame) :
  c = mkUnitReferenceFrame (framePosition c) (frameOrientation c) (frameScale c).
Proof. destruct c; reflexivity. Qed.

(** No significant change: the body is within 0.005 m of the stored
    position and has no rotation quaternion. *)
Lemma getSignificantOriginChange_still
      (currentOrigin : UnitReferenceFrame) (bPosition : Vector3) :
  Distance.value
    (UnitVector3.distance (positionOrZero currentOrigin)
       (UnitVector3.fromRaw bPosition Distance.centimeters)) <= 0.005 ->
  getSignificantOriginChange currentOrigin (BTransformNode bPosition None)
  = Ok emptyFrame.
Proof.
  intro Hd.
  destruct (getSignificantOriginChange_TransformNode currentOrigin bPosition None)
    as [change [Hrun [_ [Hp [_ [Ho Hs]]]]]].
  rewrite Hrun, (frame_eta change), (Hp Hd), (Ho eq_refl), Hs. reflexivity.
Qed.

Lemma identity_angle :
  Angle.value
    (Angle.toRadians
       (Rotation.angle (Rotation.fromRawQuaternion Quat.Identity Rotation.euler)
                       (Rotation.fromRawQuaternion Quat.Identity Rotation.euler)))
  = 0.
Proof.
  unfold Angle.toRadians, Angle.toType, Rotation.angle; simpl.
  replace (2 * (0 * 0 + 0 * 0 + 0 * 0 + 1 * 1) * (0 * 0 + 0 * 0 + 0 * 0 + 1 * 1) - 1)
    with 1 by ring.
  rewrite acos_1. field.
Qed.

(** A robot body at rest at the origin, against a scene that records no
    robot origin: no change. *)
Lemma getSignificantOriginChange_body_at_origin :
  getSignificantOriginChange emptyFrame
    (BTransformNode Vec.Zero (Some Quat.Identity)) = Ok emptyFrame.
Proof.
  destruct (getSignificantOriginChange_TransformNode emptyFrame Vec.Zero
              (Some Quat.Identity))
    as [change [Hrun [_ [Hp [Hq [_ Hs]]]]]].
  rewrite Hrun, (frame_eta change), Hs.
  rewrite Hp.
  - destruct (Hq Quat.Identity eq_refl) as [_ Hle].
    rewrite Hle; [reflexivity |].
    change (orientationOrIdentity emptyFrame)
      with (Rotation.fromRawQuaternion Quat.Identity Rotation.euler).
    rewrite identity_angle. lra.
  - change (positionOrZero emptyFrame) with (UnitVector3.zero Distance.meters).
    change Vec.Zero with (mkVector3 0 0 0).
    rewrite distance_from_origin by lra. lra.
Qed.

(** C2 (as stated) fails: a node whose body has moved by 0.006 cm from
    the stored position triggers no state-update request. *)
Lemma reconciler_0_006_cm_counterexample :
  Distance.value
    (Distance.toType
       (UnitVector3.distance
          (UnitVector3.zero Distance.centimeters)
          (UnitVector3.fromRaw (mkVector3 0.006 0 0) Distance.centimeters))
       Distance.centimeters) = 0.006
  /\ getSignificantOriginChange
       (mkUnitReferenceFrame (Some (UnitVector3.zero Distance.centimeters))
                             None None)
       (BTransformNode (mkVector3 0.006 0 0) None) = Ok emptyFrame
  /\ updateStore_ [("can"%string, nodeAtOrigin Distance.centimeters)] None
                  (engineWithCanAt 0.006) (Some restingBody) = Ok [].
Proof.
  assert (Hd : Distance.value
                 (UnitVector3.distance (UnitVector3.zero Distance.centimeters)
                    (UnitVector3.fromRaw (mkVector3 0.006 0 0)
                                         Distance.centimeters))
               = 0.006 / 100) by (apply distance_from_origin; lra).
  assert (Hstill :
            getSignificantOriginChange
              (mkUnitReferenceFrame (Some (UnitVector3.zero Distance.centimeters))
                                    None None)
              (BTransformNode (mkVector3 0.006 0 0) None) = Ok emptyFrame).
  { apply getSignificantOriginChange_still.
    change (positionOrZero _) with (UnitVector3.zero Distance.centimeters).
    rewrite Hd. lra. }
  split; [| split].
  - unfold Distance.toType. cbn [Distance.value]. rewrite Hd.
    cbn [Distance.type UnitVector3.distance Distance.metersPerUnit]. field.
  - exact Hstill.
  - unfold updateStore_, significantNodes, lookupBNode, engineWithCanAt,
      nodeAtOrigin, bNodeOfMesh, restingBody.
    cbn [find bId bName bNode String.eqb Ascii.eqb Bool.eqb nodeLabel nodeOrigin
         newRootMesh position rotationQuaternion].
    rewrite Hstill. cbn [isSignificant framePosition frameOrientation frameScale
                         emptyFrame].
    rewrite getSignificantOriginChange_body_at_origin. reflexivity.
Qed.

Lemma metersPerUnit_pos (u : Distance.Unit) : 0 < Distance.metersPerUnit u.
Proof. destruct u; simpl; lra. Qed.

(** A position converted to other units is the same position. *)
Lemma toTypeGranular_same_position (b : Vector3) (ux uy uz : Distance.Unit) :
  UnitVector3.toRaw
    (UnitVector3.toTypeGranular (UnitVector3.fromRaw b Distance.centimeters)
                                ux uy uz)
    Distance.centimeters = b.
Proof.
  destruct b as [bx by_ bz].
  unfold UnitVector3.toRaw, UnitVector3.toTypeGranular, UnitVector3.fromRaw,
    Distance.toType; simpl.
  pose proof (metersPerUnit_pos ux). pose proof (metersPerUnit_pos uy).
  pose proof (metersPerUnit_pos uz).
  f_equal; field; lra.
Qed.

Lemma significantNodes_single (engine : list BNodeEntry) (nodeId : string)
      (node : Node) (b : BNode) (change : UnitReferenceFrame) :
  lookupBNode engine nodeId (nodeLabel node) = Some b ->
  getSignificantOriginChange
    (match nodeOrigin node with Some o => o | None => emptyFrame end) b
  = Ok change ->
  significantNodes engine [(nodeId, node)]
  = Ok (if isSignificant change
        then [(nodeId,
               withOrigin
                 (Some (spreadFrame
                          (match nodeOrigin node with
                           | Some o => o
                           | None => emptyFrame
                           end) change)) node)]
        else []).
Proof.
  intros Hl Hc. simpl. rewrite Hl, Hc. destruct (isSignificant change); reflexivity.
Qed.

(** C2 (amended).  For every scene node compared against its live body: a
    position change is reported exactly when the distance between the
    stored position and the body's position exceeds 0.005 m (0.5 cm), and
    then it is the body's position expressed in the unit of each
    coordinate of the stored position; an orientation change is reported
    only when the angle between the two exceeds 0.00872665 rad, in the
    stored orientation's type; the change holds the changed fields only,
    and the request emitted for the node carries the node with exactly
    those fields of its origin overwritten.  So a node moved by 0.004 cm or
    by 0.006 cm triggers no request, and a node moved by 0.6 cm triggers
    one that reports the new position in the node's unit. *)
Theorem reconciler_thresholds :
  (forall (engine : list BNodeEntry) (nodeId : string) (node : Node)
          (bPosition : Vector3) (bRotation : option Quaternion),
      lookupBNode engine nodeId (nodeLabel node)
      = Some (BTransformNode bPosition bRotation) ->
      let origin :=
        match nodeOrigin node with Some o => o | None => emptyFrame end in
      let position := positionOrZero origin in
      let rotation := orientationOrIdentity origin in
      let bPositionConv := UnitVector3.fromRaw bPosition Distance.centimeters in
      let distance :=
        Distance.value (UnitVector3.distance position bPositionConv) in
      exists change,
        getSignificantOriginChange origin (BTransformNode bPosition bRotation)
        = Ok change
        /\ (distance > 0.005 ->
            exists p,
              framePosition change = Some p
              /\ p = UnitVector3.toTypeGranular bPositionConv
                       (Distance.type (UnitVector3.x position))
                       (Distance.type (UnitVector3.y position))
                       (Distance.type (UnitVector3.z position))
              /\ UnitVector3.toRaw p Distance.centimeters = bPosition)
        /\ (distance <= 0.005 -> framePosition change = None)
        /\ (forall q, bRotation = Some q ->
            let bOrientationConv :=
              Rotation.fromRawQuaternion q Rotation.euler in
            let radians :=
              Angle.value
                (Angle.toRadians (Rotation.angle rotation bOrientationConv)) in
            (radians > 0.00872665 ->
             frameOrientation change
             = Some (Rotation.toType bOrientationConv (Rotation.type rotation)))
            /\ (radians <= 0.00872665 -> frameOrientation change = None))
        /\ (bRotation = None -> frameOrientation change = None)
        /\ frameScale change = None
        /\ significantNodes engine [(nodeId, node)]
           = Ok (if isSignificant change
                 then [(nodeId,
                        withOrigin (Some (spreadFrame origin change)) node)]
                 else []))
  /\
  (forall u : Distance.Unit,
      significantNodes (engineWithCanAt 0.004) [("can"%string, nodeAtOrigin u)]
      = Ok []
      /\ significantNodes (engineWithCanAt 0.006) [("can"%string, nodeAtOrigin u)]
         = Ok []
      /\ significantNodes (engineWithCanAt 0.6) [("can"%string, nodeAtOrigin u)]
         = Ok [("can"%string,
                withOrigin
                  (Some (mkUnitReferenceFrame
                           (Some (UnitVector3.toTypeGranular
                                    (UnitVector3.fromRaw (mkVector3 0.6 0 0)
                                                         Distance.centimeters)
                                    u u u))
                           None None))
                  (nodeAtOrigin u))]).
Proof.
  split.
  - intros engine nodeId node bPosition bRotation Hl origin position_ rotation_
           conv distance.
    destruct (getSignificantOriginChange_TransformNode origin bPosition bRotation)
      as [change [Hrun [Hgt [Hle [Hq [Hnone Hs]]]]]].
    exists change. split; [exact Hrun |].
    split; [| split; [exact Hle | split; [exact Hq | split; [exact Hnone |
            split; [exact Hs |]]]]].
    + intro H. eexists. split; [apply Hgt; exact H |].
      split; [reflexivity | apply toTypeGranular_same_position].
    + apply (significantNodes_single engine nodeId node
               (BTransformNode bPosition bRotation) change Hl Hrun).
  - intro u.
    assert (Hsmall : forall d, 0 <= d -> d / 100 <= 0.005 ->
              significantNodes (engineWithCanAt d) [("can"%string, nodeAtOrigin u)]
              = Ok []).
    { intros d Hd Hle.
      rewrite (significantNodes_single (engineWithCanAt d) "can"%string
                 (nodeAtOrigin u) (BTransformNode (mkVector3 d 0 0) None)
                 emptyFrame).
      - reflexivity.
      - reflexivity.
      - apply getSignificantOriginChange_still.
        change (positionOrZero _) with (UnitVector3.zero u).
        rewrite distance_from_origin by exact Hd. exact Hle. }
    split; [apply Hsmall; lra |]. split; [apply Hsmall; lra |].
    destruct (getSignificantOriginChange_TransformNode
                (mkUnitReferenceFrame (Some (UnitVector3.zero u)) None None)
                (mkVector3 0.6 0 0) None)
      as [change [Hrun [Hgt [_ [_ [Hnone Hs]]]]]].
    rewrite (significantNodes_single (engineWithCanAt 0.6) "can"%string
               (nodeAtOrigin u) (BTransformNode (mkVector3 0.6 0 0) None)
               change eq_refl Hrun).
    assert (Hp : framePosition change
                 = Some (UnitVector3.toTypeGranular
                           (UnitVector3.fromRaw (mkVector3 0.6 0 0)
                                                Distance.centimeters) u u u)).
    { apply Hgt.
      change (positionOrZero _) with (UnitVector3.zero u).
      rewrite distance_from_origin by lra. lra. }
    rewrite (frame_eta change), Hp, (Hnone eq_refl), Hs. reflexivity.
Qed.

Lemma reconciler_thresholds_witness :
  exists change,
    getSignificantOriginChange
      (mkUnitReferenceFrame (Some (UnitVector3.zero Distance.inches)) None None)
      (BTransformNode (mkVector3 0.6 0 0) None) = Ok change
    /\ significantNodes (engineWithCanAt 0.6)
         [("can"%string, nodeAtOrigin Distance.inches)]
       = Ok (if isSignificant change
             then [("can"%string,
                    withOrigin
                      (Some (spreadFrame
                               (mkUnitReferenceFrame
                                  (Some (UnitVector3.zero Distance.inches))
                                  None None)
                               change))
                      (nodeAtOrigin Distance.inches))]
             else []).
Proof.
  destruct (proj1 reconciler_thresholds (engineWithCanAt 0.6) "can"%string
              (nodeAtOrigin Distance.inches) (mkVector3 0.6 0 0) None eq_refl)
    as [change [Hrun [_ [_ [_ [_ [_ Hsig]]]]]]].
  exists change. split; [exact Hrun | exact Hsig].
Defined.

(** ** Scene-change listener *)

Lemma initialSync_oneAtOnce (physics : bool) (shown : option SceneRef) :
  oneAtOnce (initialSync physics shown).
Proof. split; [reflexivity | left; split; reflexivity]. Qed.

Lemma step_oneAtOnce (s : Sync) (e : Event) :
  oneAtOnce s -> oneAtOnce (step s e).
Proof.
  destruct s as [d ss l p b ts c]. unfold oneAtOnce. simpl.
  intros [-> [[-> ->] | [-> [t ->]]]].
  - destruct e as [ws | ws | i]; simpl.
    + split; [reflexivity |]. right. split; [reflexivity | eauto].
    + split; [reflexivity |]. left. split; reflexivity.
    + destruct i; simpl; (split; [reflexivity |]); left; split; reflexivity.
  - destruct e as [ws | ws | i]; simpl.
    + split; [reflexivity |]. right. split; [reflexivity | eauto].
    + split; [reflexivity |]. right. split; [reflexivity | eauto].
    + destruct i as [| i]; simpl.
      * destruct t as [ws | ws latest]; simpl.
        -- destruct (negb (sameScene l ws)); simpl.
           ++ split; [reflexivity |]. right. split; [reflexivity | eauto].
           ++ split; [reflexivity |]. left. split; reflexivity.
        -- split; [reflexivity |]. left. split; reflexivity.
      * destruct i; simpl; (split; [reflexivity |]); right;
          (split; [reflexivity | eauto]).
Qed.

(** Scene changes are never applied concurrently. *)
Lemma run_oneAtOnce (events : list Event) (s : Sync) :
  oneAtOnce s -> oneAtOnce (run s events).
Proof.
  revert s. induction events as [| e events IH]; intros s H; simpl.
  - exact H.
  - apply IH. apply step_oneAtOnce. exact H.
Qed.

(** Requests for scene A then scene B, B arriving before A has been
    applied: the listener applies A, then B, and settles on B; while A
    is shown it has not settled. *)
Lemma coalesce_two_requests (A B : SceneRef) (shown : option SceneRef) :
  A <> B ->
  let s0 := initialSync true shown in
  let s1 := step s0 (StoreChange A) in
  let s2 := step s1 (StoreChange B) in
  let s3 := step s2 (SetSceneResolved 0%nat) in
  let s4 := step s3 (SetSceneResolved 0%nat) in
  (settled s1 = false /\ settled s2 = false)
  /\ (bindingScene s3 = Some A /\ settled s3 = false /\ physicsEnabled s3 = false)
  /\ (bindingScene s4 = Some B /\ settled s4 = true /\ physicsEnabled s4 = true
      /\ latestUnfulfilledScene_ s4 = Some B)
  /\ setSceneCalls s4 = [Some A; Some B].
Proof.
  intros Hne s0 s1 s2 s3 s4.
  assert (E : Nat.eqb B A = false) by (apply Nat.eqb_neq; congruence).
  subst s4 s3 s2 s1 s0.
  unfold step, onStoreChange_, initialSync; simpl.
  rewrite E; simpl. repeat split.
Qed.

Lemma run_app (s : Sync) (l1 l2 : list Event) :
  run s (l1 ++ l2) = run (run s l1) l2.
Proof. apply fold_left_app. Qed.

Lemma last_cons_default {A : Type} (x : A) (l : list A) (d d' : A) :
  last (x :: l) d = last (x :: l) d'.
Proof.
  revert x. induction l as [| y l IH]; intro x; [reflexivity |].
  change (last (y :: l) d = last (y :: l) d'). apply IH.
Qed.

(** Requests that arrive while a scene change is being applied only
    overwrite the latest unfulfilled scene. *)
Lemma requests_while_setting (reqs : list SceneRef) (s : Sync) :
  debounceUpdate_ s = false -> sceneSetting_ s = true ->
  run s (map StoreChange reqs)
  = mkSync false true
           (last (map Some reqs) (latestUnfulfilledScene_ s))
           (physicsEnabled s) (bindingScene s) (tasks s) (setSceneCalls s).
Proof.
  revert s. induction reqs as [| r reqs IH]; intros s Hd Hs.
  - destruct s; simpl in *. subst. reflexivity.
  - cbn [map run fold_left]. unfold step at 2. unfold onStoreChange_.
    rewrite Hd, Hs. cbn [negb].
    fold (run (mkSync false true (Some r) (physicsEnabled s) (bindingScene s)
                      (tasks s) (setSceneCalls s)) (map StoreChange reqs)).
    rewrite IH by reflexivity. cbn [latestUnfulfilledScene_ physicsEnabled
      bindingScene tasks setSceneCalls].
    f_equal. destruct reqs as [| r' reqs]; [reflexivity |].
    cbn [map]. rewrite (last_cons_default (Some r) (Some r' :: map Some reqs)
                          (latestUnfulfilledScene_ s) (Some r)).
    reflexivity.
Qed.

(** Coalescing, not queueing: of the requests that arrive while the first
    one is being applied, only the last is applied afterwards. *)
Lemma coalesce_latest (A B : SceneRef) (reqs : list SceneRef)
      (shown : option SceneRef) :
  A <> B ->
  let s := run (initialSync true shown)
               (StoreChange A :: map StoreChange (reqs ++ [B])
                ++ [SetSceneResolved 0%nat; SetSceneResolved 0%nat]) in
  settled s = true
  /\ bindingScene s = Some B
  /\ physicsEnabled s = true
  /\ setSceneCalls s = [Some A; Some B].
Proof.
  intros Hne s. subst s.
  assert (E : Nat.eqb B A = false) by (apply Nat.eqb_neq; congruence).
  change (run (initialSync true shown)
              (StoreChange A :: map StoreChange (reqs ++ [B])
               ++ [SetSceneResolved 0%nat; SetSceneResolved 0%nat]))
    with (run (step (initialSync true shown) (StoreChange A))
              (map StoreChange (reqs ++ [B])
               ++ [SetSceneResolved 0%nat; SetSceneResolved 0%nat])).
  rewrite run_app.
  rewrite requests_while_setting by reflexivity.
  rewrite (map_app Some reqs [B]).
  change (map Some [B]) with [Some B].
  rewrite last_last. simpl. rewrite E. simpl. repeat split.
Qed.

(** Three requests, for scenes 1, 2 and 3, seen by the listener alone: the
    second arrives while the first is being applied, the third while the
    second is being applied.  The function that applies the second ends
    with scene 2 installed and scene 3 recorded as the latest unfulfilled
    scene; the listener applies scene 3 at the store change that follows. *)
Lemma third_request_waits_for_next_change :
  let s := run (initialSync true None)
               [ StoreChange 1%nat; StoreChange 2%nat; SetSceneResolved 0%nat;
                 StoreChange 3%nat; SetSceneResolved 0%nat ] in
  let s' := run s [ StoreChange 3%nat; SetSceneResolved 0%nat ] in
  (bindingScene s = Some 2%nat
   /\ latestUnfulfilledScene_ s = Some 3%nat
   /\ setSceneCalls s = [Some 1%nat; Some 2%nat])
  /\ (settled s' = true
      /\ bindingScene s' = Some 3%nat
      /\ setSceneCalls s' = [Some 1%nat; Some 2%nat; Some 3%nat]).
Proof. repeat split. Qed.

Lemma runProgram_app (p : Program) (l1 l2 : list Action) :
  runProgram p (l1 ++ l2) = runProgram (runProgram p l1) l2.
Proof. apply fold_left_app. Qed.

Lemma dispatch_oneAtOnce (p : Program) (a : Action) :
  oneAtOnce (listener p) -> oneAtOnce (listener (dispatch p a)).
Proof. intro H. destruct a; apply step_oneAtOnce; exact H. Qed.

Lemma runProgram_oneAtOnce (actions : list Action) (p : Program) :
  oneAtOnce (listener p) -> oneAtOnce (listener (runProgram p actions)).
Proof.
  revert p. induction actions as [| a actions IH]; intros p H; simpl.
  - exact H.
  - apply IH. apply dispatch_oneAtOnce. exact H.
Qed.

(** While a scene change is being applied, a dispatch starts nothing: it
    leaves the suspended function, the calls made and the physics flag as
    they are; made with [debounceUpdate_] clear, it records the working
    scene as the latest unfulfilled one. *)
Lemma dispatch_while_setting (p : Program) (a : Action) :
  debounceUpdate_ (listener p) = false ->
  sceneSetting_ (listener p) = true ->
  isDispatch a = true ->
  let p' := dispatch p a in
  debounceUpdate_ (listener p') = false
  /\ sceneSetting_ (listener p') = true
  /\ physicsEnabled (listener p') = physicsEnabled (listener p)
  /\ tasks (listener p') = tasks (listener p)
  /\ setSceneCalls (listener p') = setSceneCalls (listener p)
  /\ (isOutsideDispatch a = true ->
      latestUnfulfilledScene_ (listener p') = Some (workingScene p')).
Proof.
  destruct p as [w [d ss l ph b ts c]]. simpl. intros -> -> Ha.
  destruct a as [w' | | w' | i]; [| | | discriminate]; simpl;
    repeat split; discriminate.
Qed.

Lemma runProgram_while_setting (pending : list Action) (p : Program) :
  debounceUpdate_ (listener p) = false ->
  sceneSetting_ (listener p) = true ->
  forallb isDispatch pending = true ->
  let p' := runProgram p pending in
  debounceUpdate_ (listener p') = false
  /\ sceneSetting_ (listener p') = true
  /\ physicsEnabled (listener p') = physicsEnabled (listener p)
  /\ tasks (listener p') = tasks (listener p)
  /\ setSceneCalls (listener p') = setSceneCalls (listener p).
Proof.
  revert p. induction pending as [| a pending IH]; intros p Hd Hs Hall.
  - simpl. repeat split; assumption.
  - simpl in Hall. apply andb_prop in Hall. destruct Hall as [Ha Hall].
    destruct (dispatch_while_setting p a Hd Hs Ha) as [Hd' [Hs' [Hp [Ht [Hc _]]]]].
    destruct (IH (dispatch p a) Hd' Hs' Hall) as [Hd2 [Hs2 [Hp2 [Ht2 Hc2]]]].
    cbn [runProgram fold_left]. fold (runProgram (dispatch p a) pending).
    repeat split; congruence.
Qed.

(** The dispatches of [updateStore_] reach a listener at rest only through
    the binding. *)
Lemma reconciler_at_rest (writes : list SceneRef) (w : SceneRef) (s : Sync) :
  debounceUpdate_ s = false -> settled s = true ->
  let p' := runProgram (mkProgram w s) (map ReconcilerDispatch writes) in
  workingScene p' = last writes w
  /\ debounceUpdate_ (listener p') = false
  /\ settled (listener p') = true
  /\ physicsEnabled (listener p') = physicsEnabled s
  /\ setSceneCalls (listener p') = setSceneCalls s.
Proof.
  revert w s. induction writes as [| r writes IH]; intros w s Hd Hs.
  - simpl. repeat split; assumption.
  - cbn [map runProgram fold_left].
    fold (runProgram (dispatch (mkProgram w s) (ReconcilerDispatch r))
                     (map ReconcilerDispatch writes)).
    cbn [dispatch listener workingScene].
    destruct (IH r (step s (ReconcilerWrite r))) as [H1 [H2 [H3 [H4 H5]]]].
    + reflexivity.
    + destruct s as [d ss l ph b ts c]. simpl in *. subst d. exact Hs.
    + split.
      { rewrite H1. destruct writes as [| r' writes]; [reflexivity |].
        apply (last_cons_default r' writes r w). }
      split; [exact H2 |]. split; [exact H3 |].
      destruct s as [d ss l ph b ts c]. simpl in *. subst d.
      split; assumption.
Qed.

(** C7.  Scene changes are never applied concurrently, and requests that
    arrive while one is being applied are coalesced.

    - Whatever is dispatched and whenever [setScene] promises resolve, at
      most one scene change is being applied between any two events.
    - A request for scene A reaches the listener at rest, and before the
      [setScene] call for A completes other dispatches follow, the last
      of them made with the debounce flag clear and leaving a scene B other
      than A as the working scene.  When the call for A completes the
      listener has not settled: physics stays disabled and [setScene] is
      called with B, and with no scene requested in between; when that
      call completes the listener settles with B installed and physics
      enabled.
    - The program ends in the latest scene, whatever was pending: once
      the [setScene] calls in flight have completed, one turn of the
      render loop and the completion of the call it starts leave the
      listener settled with the working scene installed. *)
Theorem scene_requests_coalesced :
  (forall (actions : list Action) (w0 : SceneRef) (shown : option SceneRef),
      oneAtOnce
        (listener (runProgram (mkProgram w0 (initialSync true shown)) actions)))
  /\ (forall (p : Program) (A B : SceneRef) (pending : list Action)
             (latest : Action),
         debounceUpdate_ (listener p) = false ->
         settled (listener p) = true ->
         forallb isDispatch pending = true ->
         isOutsideDispatch latest = true ->
         let p1 := runProgram p (SetWorkingScene A :: pending ++ [latest]) in
         workingScene p1 = B ->
         A <> B ->
         let p2 := dispatch p1 (SetSceneResolves 0) in
         let p3 := dispatch p2 (SetSceneResolves 0) in
         settled (listener p1) = false
         /\ (bindingScene (listener p2) = Some A
             /\ settled (listener p2) = false
             /\ physicsEnabled (listener p2) = false
             /\ setSceneCalls (listener p2)
                = setSceneCalls (listener p) ++ [Some A; Some B])
         /\ (bindingScene (listener p3) = Some B
             /\ settled (listener p3) = true
             /\ physicsEnabled (listener p3) = true
             /\ setSceneCalls (listener p3)
                = setSceneCalls (listener p) ++ [Some A; Some B]))
  /\ (forall (p : Program) (writes : list SceneRef) (anyUpdated : bool),
         oneAtOnce (listener p) ->
         let p' := runProgram p ([SetSceneResolves 0; SetSceneResolves 0]
                                 ++ renderLoopFrame writes anyUpdated
                                 ++ [SetSceneResolves 0]) in
         workingScene p' = last writes (workingScene p)
         /\ bindingScene (listener p') = Some (workingScene p')
         /\ settled (listener p') = true
         /\ physicsEnabled (listener p') = true).
Proof.
  split; [| split].
  - intros actions w0 shown. apply runProgram_oneAtOnce.
    apply initialSync_oneAtOnce.
  - intros p A B pending latest Hd Hs Hall Hlast p1 HB Hne p2 p3.
    destruct p as [w [d ss l ph b ts c]].
    cbn [listener debounceUpdate_] in Hd. subst d.
    unfold settled in Hs. cbn [listener sceneSetting_ tasks] in Hs.
    destruct ss; [discriminate |]. destruct ts; [| discriminate]. clear Hs.
    set (q := dispatch (mkProgram w (mkSync false false l ph b [] c))
                       (SetWorkingScene A)).
    assert (Hq : listener q
                 = mkSync false true (Some A) false b [AwaitFirst A]
                          (c ++ [Some A])) by reflexivity.
    assert (E1 : p1 = dispatch (runProgram q pending) latest).
    { subst p1. cbn [runProgram fold_left]. fold q.
      fold (runProgram q (pending ++ [latest])). rewrite runProgram_app.
      reflexivity. }
    destruct (runProgram_while_setting pending q) as [Hd1 [Hs1 [Hp1 [Ht1 Hc1]]]];
      [rewrite Hq; reflexivity | rewrite Hq; reflexivity | exact Hall |].
    assert (Hl : isDispatch latest = true) by (destruct latest; [reflexivity | reflexivity | discriminate | discriminate]).
    destruct (dispatch_while_setting (runProgram q pending) latest Hd1 Hs1 Hl)
      as [Hd2 [Hs2 [Hp2 [Ht2 [Hc2 Hl2]]]]].
    specialize (Hl2 Hlast). rewrite <- E1 in Hd2, Hs2, Hp2, Ht2, Hc2, Hl2.
    rewrite HB in Hl2.
    rewrite Hp1, Hq in Hp2. rewrite Ht1, Hq in Ht2. rewrite Hc1, Hq in Hc2.
    cbn [physicsEnabled tasks setSceneCalls] in Hp2, Ht2, Hc2.
    assert (E : Nat.eqb B A = false) by (apply Nat.eqb_neq; congruence).
    subst p3 p2. clear E1 Hd1 Hs1 Hp1 Ht1 Hc1 Hq q.
    destruct p1 as [w1 [d1 ss1 l1 ph1 b1 ts1 c1]].
    cbn [listener debounceUpdate_ sceneSetting_ latestUnfulfilledScene_
         physicsEnabled tasks setSceneCalls workingScene] in *.
    subst. simpl. rewrite E. simpl. rewrite <- app_assoc.
    repeat split.
  - intros p writes anyUpdated [Hd Hone] p'.
    set (q := runProgram p [SetSceneResolves 0; SetSceneResolves 0]).
    assert (Hq : workingScene q = workingScene p
                 /\ debounceUpdate_ (listener q) = false
                 /\ settled (listener q) = true).
    { subst q. destruct p as [w [d ss l ph b ts c]].
      cbn [listener debounceUpdate_ sceneSetting_ tasks] in Hd, Hone. subst d.
      destruct Hone as [[-> ->] | [-> [t ->]]].
      - repeat split.
      - destruct t as [ws | ws latest]; simpl.
        + destruct (negb (sameScene l ws)); repeat split.
        + repeat split. }
    destruct Hq as [Hw [Hdq Hsq]].
    assert (E : p' = runProgram
                       (runProgram q (map ReconcilerDispatch writes))
                       ((if anyUpdated then [SetRobotState] else [])
                        ++ [SetRobotState; SetSceneResolves 0])).
    { subst p' q. unfold renderLoopFrame.
      rewrite <- !runProgram_app.
      f_equal. rewrite <- !app_assoc. reflexivity. }
    destruct q as [wq sq]. cbn [workingScene listener] in Hw, Hdq, Hsq.
    destruct (reconciler_at_rest writes wq sq Hdq Hsq) as [H1 [H2 [H3 _]]].
    rewrite E. clear E.
    set (r := runProgram (mkProgram wq sq) (map ReconcilerDispatch writes)) in *.
    rewrite Hw in H1. clearbody r.
    destruct r as [w2 [d2 ss2 l2 ph2 b2 ts2 c2]].
    cbn [workingScene listener debounceUpdate_] in H1, H2, H3. subst d2.
    unfold settled in H3. cbn [sceneSetting_ tasks] in H3.
    destruct ss2; [discriminate |]. destruct ts2; [| discriminate].
    destruct anyUpdated; simpl; rewrite Nat.eqb_refl; simpl;
      repeat split; exact H1.
Qed.

(** Scenes 1 then 2, a frame's dispatch in between: the calls are for 1
    and 2 and the binding ends with 2.  And scenes 1, 2, 3, the third
    arriving while the second is being applied: a turn of the render loop
    later scene 3 is installed. *)
Lemma scene_requests_coalesced_witness :
  let p0 := mkProgram 0%nat (initialSync true None) in
  (let p3 := runProgram p0 [ SetWorkingScene 1%nat; SetRobotState;
                             SetWorkingScene 2%nat; SetSceneResolves 0;
                             SetSceneResolves 0 ] in
   bindingScene (listener p3) = Some 2%nat
   /\ setSceneCalls (listener p3) = [Some 1%nat; Some 2%nat])
  /\ (let p := runProgram p0 [ SetWorkingScene 1%nat; SetWorkingScene 2%nat;
                               SetSceneResolves 0; SetWorkingScene 3%nat ] in
      let p' := runProgram p ([SetSceneResolves 0; SetSceneResolves 0]
                              ++ renderLoopFrame [] false
                              ++ [SetSceneResolves 0]) in
      bindingScene (listener p') = Some 3%nat
      /\ settled (listener p') = true).
Proof.
  destruct scene_requests_coalesced as [H1 [H2 H3]].
  intro p0. split.
  - destruct (H2 p0 1%nat 2%nat [SetRobotState] (SetWorkingScene 2%nat)
                eq_refl eq_refl eq_refl eq_refl eq_refl)
      as [_ [_ [Hb [_ [_ Hc]]]]]; [discriminate |].
    split; [exact Hb | exact Hc].
  - intros p p'.
    destruct (H3 p [] false) as [_ [Hb [Hs _]]].
    + apply (H1 [ SetWorkingScene 1%nat; SetWorkingScene 2%nat;
                  SetSceneResolves 0; SetWorkingScene 3%nat ] 0%nat None).
    + split; [exact Hb | exact Hs].
Defined.

(** ** Rig construction *)

Section Keeps.

Variable I : Space -> Prop.
Variable E : Exn -> Prop.

Lemma keeps_ret {A : Type} (a : A) : keeps I E (ret a).
Proof. intros s H. split; [exact H | discriminate]. Qed.

Lemma keeps_get : keeps I E get.
Proof. intros s H. split; [exact H | discriminate]. Qed.

Lemma keeps_modify (f : Space -> Space) :
  (forall s, I s -> I (f s)) -> keeps I E (modify f).
Proof. intros Hf s H. split; [apply Hf; exact H | discriminate]. Qed.

Lemma keeps_throw {A : Type} (e : Exn) : E e -> keeps I E (@throw A e).
Proof. intros He s H. split; [exact H |]. intros e' [= <-]. exact He. Qed.

Lemma keeps_deref {A : Type} (o : option A) : E TypeError -> keeps I E (deref o).
Proof. intro He. destruct o; [apply keeps_ret | apply keeps_throw; exact He]. Qed.

Lemma keeps_bind {A B : Type} (m : M A) (k : A -> M B) :
  keeps I E m -> (forall a, keeps I E (k a)) -> keeps I E (bind m k).
Proof.
  intros Hm Hk s H. unfold bind.
  destruct (Hm s H) as [H1 He]. destruct (m s) as [s1 [a | e]]; simpl in *.
  - apply Hk. exact H1.
  - split; [exact H1 |]. intros e' [= <-]. apply He. reflexivity.
Qed.

Lemma keeps_forEach {A : Type} (l : list A) (body : A -> M unit) :
  (forall a, In a l -> keeps I E (body a)) -> keeps I E (forEach l body).
Proof.
  induction l as [| a l IH]; intro Hb; simpl.
  - apply keeps_ret.
  - apply keeps_bind; [apply Hb; left; reflexivity |].
    intros _. apply IH. intros b Hin. apply Hb. right. exact Hin.
Qed.

End Keeps.

(** *** Loops *)

Lemma bind_assoc {A B C : Type} (m : M A) (k : A -> M B) (h : B -> M C)
      (s : Space) :
  bind (bind m k) h s = bind m (fun a => bind (k a) h) s.
Proof. unfold bind. destruct (m s) as [s1 [a | e]]; reflexivity. Qed.

Lemma forEach_ext {A : Type} (l : list A) (f g : A -> M unit) :
  (forall a s, f a s = g a s) -> forall s, forEach l f s = forEach l g s.
Proof.
  intro H. induction l as [| a l IH]; intro s; [reflexivity |].
  simpl. unfold bind. rewrite H.
  destruct (g a s) as [s1 [[] | e]]; [apply IH | reflexivity].
Qed.

Lemma forEach_app {A : Type} (l1 l2 : list A) (f : A -> M unit) (s : Space) :
  forEach (l1 ++ l2) f s = bind (forEach l1 f) (fun _ => forEach l2 f) s.
Proof.
  revert s. induction l1 as [| a l1 IH]; intro s; [reflexivity |].
  simpl. rewrite bind_assoc. unfold bind at 1 2.
  destruct (f a s) as [s1 [[] | e]]; [apply IH | reflexivity].
Qed.

Lemma forEach_map {A B : Type} (g : A -> B) (l : list A) (f : B -> M unit)
      (s : Space) :
  forEach (map g l) f s = forEach l (fun a => f (g a)) s.
Proof.
  revert s. induction l as [| a l IH]; intro s; [reflexivity |].
  simpl. unfold bind.
  destruct (f (g a) s) as [s1 [[] | e]]; [apply IH | reflexivity].
Qed.

(** *** Looking meshes and nodes up by name *)

Lemma find_meshKey (n : string) (l l' : list Mesh) (m : Mesh) :
  map meshKey l' = map meshKey l ->
  find (fun m => String.eqb (name m) n) l = Some m ->
  exists m',
    find (fun m => String.eqb (name m) n) l' = Some m' /\ meshKey m' = meshKey m.
Proof.
  revert l'. induction l as [| a l IH]; intros l' Hk Hf; [discriminate |].
  destruct l' as [| a' l']; [discriminate |].
  simpl in Hk.
  assert (Ha : meshKey a' = meshKey a) by congruence.
  assert (Hl : map meshKey l' = map meshKey l) by congruence.
  clear Hk. simpl in Hf |- *.
  assert (Hn : name a' = name a) by (unfold meshKey in Ha; congruence).
  rewrite Hn. destruct (String.eqb (name a) n).
  - injection Hf as <-. exists a'. split; [reflexivity | exact Ha].
  - apply IH; assumption.
Qed.

Lemma find_meshKey_None (n : string) (l l' : list Mesh) :
  map meshKey l' = map meshKey l ->
  find (fun m => String.eqb (name m) n) l = None ->
  find (fun m => String.eqb (name m) n) l' = None.
Proof.
  revert l'. induction l as [| a l IH]; intros l' Hk Hf;
    (destruct l' as [| a' l']; [reflexivity | try discriminate]).
  simpl in Hk.
  assert (Ha : meshKey a' = meshKey a) by congruence.
  assert (Hl : map meshKey l' = map meshKey l) by congruence.
  clear Hk. simpl in Hf |- *.
  assert (Hn : name a' = name a) by (unfold meshKey in Ha; congruence).
  rewrite Hn. destruct (String.eqb (name a) n); [discriminate |].
  apply IH; assumption.
Qed.

Lemma find_meshKey_found (n : string) (l l' : list Mesh) :
  map meshKey l' = map meshKey l ->
  find (fun m => String.eqb (name m) n) l <> None ->
  find (fun m => String.eqb (name m) n) l' <> None.
Proof.
  intros Hk Hf.
  destruct (find _ l) as [m |] eqn:E; [| contradiction].
  destruct (find_meshKey n l l' m Hk E) as [m' [Hm' _]].
  rewrite Hm'. discriminate.
Qed.

Lemma find_nodeName (n : string) (l l' : list TransformNode) :
  map nodeName l' = map nodeName l ->
  find (fun t => String.eqb (nodeName t) n) l <> None ->
  exists t', find (fun t => String.eqb (nodeName t) n) l' = Some t'.
Proof.
  revert l'. induction l as [| a l IH]; intros l' Hk Hf; [contradiction |].
  destruct l' as [| a' l']; [discriminate |].
  simpl in Hk. injection Hk as Ha Hl.
  simpl in Hf |- *. rewrite Ha. destruct (String.eqb (nodeName a) n).
  - eauto.
  - apply IH; assumption.
Qed.

Lemma meshKey_updateFirstMesh (n : string) (f : Mesh -> Mesh) (l : list Mesh) :
  (forall m, meshKey (f m) = meshKey m) ->
  map meshKey (updateFirstMesh n f l) = map meshKey l.
Proof.
  intro Hf. induction l as [| m l IH]; [reflexivity |].
  simpl. destruct (String.eqb (name m) n); simpl.
  - rewrite Hf. reflexivity.
  - rewrite IH. reflexivity.
Qed.

Lemma meshKey_map (f : Mesh -> Mesh) (l : list Mesh) :
  (forall m, meshKey (f m) = meshKey m) ->
  map meshKey (map f l) = map meshKey l.
Proof.
  intro Hf. rewrite map_map. apply map_ext. exact Hf.
Qed.

Lemma nodeName_updateFirstNode (n : string) (f : TransformNode -> TransformNode)
      (l : list TransformNode) :
  (forall t, nodeName (f t) = nodeName t) ->
  map nodeName (updateFirstNode n f l) = map nodeName l.
Proof.
  intro Hf. induction l as [| t l IH]; [reflexivity |].
  simpl. destruct (String.eqb (nodeName t) n); simpl.
  - rewrite Hf. reflexivity.
  - rewrite IH. reflexivity.
Qed.

Lemma find_updateFirstMesh_same (n : string) (f : Mesh -> Mesh) (l : list Mesh) :
  (forall m, name (f m) = name m) ->
  find (fun m => String.eqb (name m) n) (updateFirstMesh n f l)
  = option_map f (find (fun m => String.eqb (name m) n) l).
Proof.
  intro Hf. induction l as [| m l IH]; [reflexivity |].
  simpl. destruct (String.eqb (name m) n) eqn:E; simpl.
  - rewrite Hf, E. reflexivity.
  - rewrite E. exact IH.
Qed.

Lemma find_updateFirstMesh_other (n n' : string) (f : Mesh -> Mesh)
      (l : list Mesh) :
  (forall m, name (f m) = name m) ->
  n' <> n ->
  find (fun m => String.eqb (name m) n') (updateFirstMesh n f l)
  = find (fun m => String.eqb (name m) n') l.
Proof.
  intros Hf Hne. induction l as [| m l IH]; [reflexivity |].
  simpl. destruct (String.eqb (name m) n) eqn:E; simpl.
  - rewrite Hf. apply String.eqb_eq in E.
    destruct (String.eqb (name m) n') eqn:E'; [| reflexivity].
    apply String.eqb_eq in E'. congruence.
  - destruct (String.eqb (name m) n'); [reflexivity | exact IH].
Qed.

Lemma updateFirstMesh_twice (n : string) (f g : Mesh -> Mesh) (l : list Mesh) :
  (forall m, name (g m) = name m) ->
  updateFirstMesh n f (updateFirstMesh n g l)
  = updateFirstMesh n (fun m => f (g m)) l.
Proof.
  intro Hg. induction l as [| m l IH]; [reflexivity |].
  simpl. destruct (String.eqb (name m) n) eqn:E; simpl.
  - rewrite Hg, E. reflexivity.
  - rewrite E, IH. reflexivity.
Qed.

Lemma bind_getMeshByName {B : Type} (n : string) (k : option Mesh -> M B)
      (s : Space) :
  bind (getMeshByName n) k s
  = k (find (fun m => String.eqb (name m) n) (sceneMeshes s)) s.
Proof. reflexivity. Qed.

Lemma bind_getTransformNodeByName {B : Type} (n : string)
      (k : option TransformNode -> M B) (s : Space) :
  bind (getTransformNodeByName n) k s
  = k (find (fun t => String.eqb (nodeName t) n) (sceneTransformNodes s)) s.
Proof. reflexivity. Qed.

Ltac fields :=
  cbn [sceneMeshes sceneTransformNodes rootMesh joint rotation sensorObjects_
       renderLoopRunning initializationPromise setSceneMeshes
       setSceneTransformNodes setRootMesh setJoint setRotation setSensorObjects
       holdRootMesh RootMeshField_eqb JointField_eqb RotationField_eqb].

Ltac stepm :=
  first [ rewrite bind_assoc | rewrite bind_get | rewrite bind_deref_Some
        | rewrite bind_modify | rewrite bind_ret
        | progress cbv beta iota | progress fields
        | progress cbn [forEach] ].

(** *** The scene through the phases of [loadMeshes] *)

Lemma sameModel_carry (s0 s : Space) (a : string) (mv : Motion) :
  (forall q, moveRotation mv q = q) ->
  sameModel s0 s -> sameModel s0 (carry a mv s).
Proof.
  intros Hq [Hm Hn]. split.
  - rewrite <- Hm. cbn [carry sceneMeshes]. rewrite map_map. apply map_ext.
    intro m. destruct (hangsUnder _ s a (parent m)); [| reflexivity].
    unfold meshKey, moveMesh. cbn [name rotationQuaternion]. rewrite Hq.
    reflexivity.
  - rewrite <- Hn. cbn [carry sceneTransformNodes]. rewrite map_map.
    apply map_ext.
    intro t. destruct (hangsUnder _ s a (nodeParent t)); reflexivity.
Qed.

Lemma sameModel_meshes (s0 s : Space) (ms : list Mesh) :
  map meshKey ms = map meshKey (sceneMeshes s) ->
  sameModel s0 s -> sameModel s0 (setSceneMeshes ms s).
Proof. intros H [Hm Hn]. split; [cbn; congruence | exact Hn]. Qed.

Lemma sameModel_nodes (s0 s : Space) (ns : list TransformNode) :
  map nodeName ns = map nodeName (sceneTransformNodes s) ->
  sameModel s0 s -> sameModel s0 (setSceneTransformNodes ns s).
Proof. intros H [Hm Hn]. split; [exact Hm | cbn; congruence]. Qed.

Lemma sameModel_refl (s : Space) : sameModel s s.
Proof. split; reflexivity. Qed.

Lemma sameButScene_refl (s : Space) : sameButScene s s.
Proof. repeat split. Qed.

(** The model is scaled and placed: the scene keeps its meshes and nodes,
    by name and rotation, and nothing else of the state changes but the
    poses of root meshes. *)
Lemma placeModel_run (s0 : Space) :
  anchored s0 ->
  exists s1,
    placeModel s0 = (s1, Ok tt) /\ sameModel s0 s1 /\ sameButScene s0 s1.
Proof.
  intros [Hmesh Hnode].
  destruct (find (fun m => String.eqb (name m) "__root__") (sceneMeshes s0))
    as [root0 |] eqn:Hroot0.
  2:{ exfalso. apply (Hmesh "__root__"%string); [simpl; tauto | exact Hroot0]. }
  unfold placeModel.
  rewrite bind_getMeshByName, Hroot0, bind_deref_Some.
  unfold scaleMeshInPlace, mutateMesh. rewrite bind_assoc, !bind_modify.
  set (sa := carry "__root__" _ _).
  assert (Ma : sameModel s0 sa).
  { subst sa. apply sameModel_carry; [reflexivity |].
    apply sameModel_meshes; [| apply sameModel_refl].
    apply meshKey_updateFirstMesh. intros []; reflexivity. }
  assert (Fa : sameButScene s0 sa) by (subst sa; repeat split).
  clearbody sa.
  rewrite bind_getTransformNodeByName.
  destruct (find_nodeName "Root" _ _ (proj2 Ma) Hnode) as [rootNode HrootNode].
  rewrite HrootNode, bind_deref_Some.
  unfold setNodeAbsolutePosition, scaleNodeInPlace, mutateNode.
  rewrite !bind_assoc, !bind_modify.
  rewrite bind_assoc, !bind_modify.
  unfold modify.
  eexists. split; [reflexivity |].
  destruct Fa as [F1 [F2 [F3 [F4 F5]]]].
  split; [| repeat split; assumption].
  apply sameModel_meshes.
  { cbn [sceneMeshes]. apply meshKey_map.
    intros m. destruct (String.prefix "collider" (name m)); destruct m; reflexivity. }
  apply sameModel_carry; [reflexivity |].
  apply sameModel_nodes.
  { apply nodeName_updateFirstNode. intros []; reflexivity. }
  apply sameModel_carry; [reflexivity |].
  apply sameModel_nodes.
  { apply nodeName_updateFirstNode. intros []; reflexivity. }
  exact Ma.
Qed.

(** The three compound roots are created into their fields. *)
Lemma createCompoundRoots_run (s0 s : Space) :
  anchored s0 -> sameModel s0 s ->
  exists pb pa pc : Vector3,
    createCompoundRoots s
    = (setRootMesh clawCompoundRootMesh
         (Some (newRootMesh clawCenterMesh pc (mkQuaternion 0 0 0 1)))
         (setRootMesh armCompoundRootMesh
            (Some (newRootMesh armCompoundMesh pa Quat.Identity))
            (setRootMesh bodyCompoundRootMesh
               (Some (newRootMesh bodyCompoundMesh pb Quat.Identity)) s)),
       Ok tt).
Proof.
  intros [Hmesh _] [Hm _].
  assert (Hfind : forall n,
            In n [ "__root__"; "collider_wallaby"; "collider_claw_servo";
                   "collider_claw_3" ]%string ->
            exists m, find (fun m => String.eqb (name m) n) (sceneMeshes s)
                      = Some m).
  { intros n Hn. pose proof (find_meshKey_found n _ _ Hm (Hmesh n Hn)) as H.
    destruct (find _ (sceneMeshes s)); [eauto | contradiction]. }
  destruct (Hfind "collider_wallaby"%string) as [w Hw]; [simpl; tauto |].
  destruct (Hfind "collider_claw_servo"%string) as [cs Hcs]; [simpl; tauto |].
  destruct (Hfind "collider_claw_3"%string) as [cc Hcc]; [simpl; tauto |].
  unfold createCompoundRoots.
  rewrite bind_getMeshByName, Hw, bind_deref_Some, bind_modify.
  rewrite bind_getMeshByName. fields.
  rewrite Hcs, bind_deref_Some, bind_modify.
  rewrite bind_getMeshByName. fields.
  rewrite Hcc, bind_deref_Some.
  exists (position w), (position cs), (position cc). reflexivity.
Qed.

(** *** The manifest loops *)

(** What a turn of a manifest loop makes of the collider mesh. *)
Lemma attachCollider_run (n : string) (t : ImpostorType) (root : string)
      (s : Space) (m : Mesh) :
  find (fun m => String.eqb (name m) n) (sceneMeshes s) = Some m ->
  attachCollider n t root s
  = (setSceneMeshes
       (updateFirstMesh n
          (fun m => withParent (Some root)
                      (withImpostor (Some (newImpostor t 0 None))
                         (fixNegativeScaling (withParent None m))))
          (sceneMeshes s)) s,
     Ok tt).
Proof.
  intro Hm. unfold attachCollider. rewrite bind_getMeshByName, Hm.
  unfold mutateMesh. rewrite !bind_modify. unfold modify. fields.
  rewrite !updateFirstMesh_twice by (intros []; reflexivity).
  reflexivity.
Qed.

Lemma attachCollider_missing (n : string) (t : ImpostorType) (root : string)
      (s : Space) :
  find (fun m => String.eqb (name m) n) (sceneMeshes s) = None ->
  attachCollider n t root s
  = (s, Throw (JsError ("failed to find collider mesh in model: " ++ n))).
Proof.
  intro Hm. unfold attachCollider. rewrite bind_getMeshByName, Hm. reflexivity.
Qed.

(** The three loops are one loop over the manifest. *)
Lemma attachColliders_manifest (s : Space) :
  attachColliders s
  = forEach colliderManifest
            (fun e => attachCollider (fst (fst e)) (snd (fst e)) (snd e)) s.
Proof.
  unfold attachColliders, colliderManifest.
  rewrite forEach_app. unfold bind at 1 3.
  rewrite forEach_map.
  rewrite (forEach_ext bodyColliderMeshInfos
             (fun a => attachCollider
                         (fst (fst (let '(n, shape) := a in
                                    (n, match shape with
                                        | box => BoxImpostor
                                        | sphere => SphereImpostor
                                        end, bodyCompoundMesh))))
                         (snd (fst (let '(n, shape) := a in
                                    (n, match shape with
                                        | box => BoxImpostor
                                        | sphere => SphereImpostor
                                        end, bodyCompoundMesh))))
                         (snd (let '(n, shape) := a in
                               (n, match shape with
                                   | box => BoxImpostor
                                   | sphere => SphereImpostor
                                   end, bodyCompoundMesh))))
             (fun '(bodyColliderMeshName, bodyColliderShape) =>
                attachCollider bodyColliderMeshName
                  match bodyColliderShape with
                  | box => BoxImpostor
                  | sphere => SphereImpostor
                  end bodyCompoundMesh))
    by (intros [n sh] s'; reflexivity).
  destruct (forEach bodyColliderMeshInfos _ s) as [s1 [[] | e]]; [| reflexivity].
  rewrite forEach_app. unfold bind at 1 2.
  rewrite forEach_map. cbn [fst snd].
  destruct (forEach armColliderMeshInfos _ s1) as [s2 [[] | e]]; [| reflexivity].
  rewrite forEach_map. reflexivity.
Qed.

Lemma distinct_NoDup (l : list string) : distinct l = true -> NoDup l.
Proof.
  induction l as [| a l IH]; intro H; [constructor |].
  simpl in H. apply andb_prop in H. destruct H as [H1 H2].
  constructor; [| apply IH; exact H2].
  intro Hin. apply negb_true_iff in H1.
  assert (E : existsb (String.eqb a) l = true).
  { apply existsb_exists. exists a. split; [exact Hin | apply String.eqb_refl]. }
  congruence.
Qed.

Lemma colliderManifest_NoDup :
  NoDup (map (fun e : string * ImpostorType * string => fst (fst e))
             colliderManifest).
Proof. apply distinct_NoDup. vm_compute. reflexivity. Qed.

(** A loop over entries whose meshes are all in the scene attaches each of
    them and touches no other mesh. *)
Lemma attach_run (l : list (string * ImpostorType * string)) :
  NoDup (map (fun e => fst (fst e)) l) ->
  forall s,
    (forall e, In e l ->
       find (fun m => String.eqb (name m) (fst (fst e))) (sceneMeshes s) <> None) ->
    exists ms,
      forEach l (fun e => attachCollider (fst (fst e)) (snd (fst e)) (snd e)) s
      = (setSceneMeshes ms s, Ok tt)
      /\ map meshKey ms = map meshKey (sceneMeshes s)
      /\ (forall n t root, In (n, t, root) l ->
          exists m,
            find (fun m => String.eqb (name m) n) ms = Some m
            /\ physicsImpostor m = Some (newImpostor t 0 None)
            /\ parent m = Some root)
      /\ (forall n, ~ In n (map (fun e => fst (fst e)) l) ->
          find (fun m => String.eqb (name m) n) ms
          = find (fun m => String.eqb (name m) n) (sceneMeshes s)).
Proof.
  induction l as [| [[n t] root] l IH]; intros Hnd s Hall.
  - exists (sceneMeshes s). split; [destruct s; reflexivity |].
    split; [reflexivity |]. split; [intros ? ? ? [] | reflexivity].
  - cbn [map fst] in Hnd. inversion Hnd as [| ? ? Hnotin Hnd']. subst.
    destruct (find (fun m => String.eqb (name m) n) (sceneMeshes s))
      as [m |] eqn:Hm.
    2:{ exfalso. apply (Hall (n, t, root)); [left; reflexivity | exact Hm]. }
    pose proof (attachCollider_run n t root s m Hm) as Hrun.
    set (ms1 := updateFirstMesh n _ (sceneMeshes s)) in Hrun.
    assert (Hother : forall n', n' <> n ->
              find (fun m => String.eqb (name m) n') ms1
              = find (fun m => String.eqb (name m) n') (sceneMeshes s)).
    { intros n' Hne. subst ms1.
      apply find_updateFirstMesh_other; [intros []; reflexivity | exact Hne]. }
    assert (Hsame : find (fun m => String.eqb (name m) n) ms1
                    = Some (withParent (Some root)
                              (withImpostor (Some (newImpostor t 0 None))
                                 (fixNegativeScaling (withParent None m))))).
    { subst ms1. rewrite find_updateFirstMesh_same by (intros []; reflexivity).
      rewrite Hm. reflexivity. }
    assert (Hkey : map meshKey ms1 = map meshKey (sceneMeshes s)).
    { subst ms1. apply meshKey_updateFirstMesh. intros []; reflexivity. }
    clearbody ms1.
    destruct (IH Hnd' (setSceneMeshes ms1 s)) as [ms [Hrun2 [Hk2 [Hatt Hrest]]]].
    { intros e He. cbn [sceneMeshes setSceneMeshes]. rewrite Hother.
      - apply Hall. right. exact He.
      - intro Heq. apply Hnotin. rewrite <- Heq.
        apply (in_map (fun e => fst (fst e)) _ _ He). }
    exists ms. split.
    { cbn [forEach fst snd]. erewrite bind_Ok by exact Hrun. exact Hrun2. }
    split; [cbn [sceneMeshes setSceneMeshes] in Hk2; congruence |].
    split.
    + intros n' t' root' [Heq | Hin].
      * injection Heq as <- <- <-.
        rewrite (Hrest n Hnotin). cbn [sceneMeshes setSceneMeshes].
        rewrite Hsame. eexists. repeat split.
      * apply Hatt. exact Hin.
    + intros n' Hn'.
      rewrite Hrest by (intro H; apply Hn'; right; exact H).
      cbn [sceneMeshes setSceneMeshes].
      apply Hother. intro Heq. apply Hn'. left. symmetry. exact Heq.
Qed.

(** A loop stops at the first entry whose mesh is not in the scene, with
    the error that names it; the entries before it stay attached. *)
Lemma attach_missing (before after : list (string * ImpostorType * string))
      (missing : string) (t : ImpostorType) (root : string) (s : Space) :
  NoDup (map (fun e => fst (fst e)) (before ++ (missing, t, root) :: after)) ->
  (forall e, In e before ->
     find (fun m => String.eqb (name m) (fst (fst e))) (sceneMeshes s) <> None) ->
  find (fun m => String.eqb (name m) missing) (sceneMeshes s) = None ->
  exists ms,
    forEach (before ++ (missing, t, root) :: after)
            (fun e => attachCollider (fst (fst e)) (snd (fst e)) (snd e)) s
    = (setSceneMeshes ms s,
       Throw (JsError ("failed to find collider mesh in model: " ++ missing)))
    /\ (forall n t' root', In (n, t', root') before ->
        exists m,
          find (fun m => String.eqb (name m) n) ms = Some m
          /\ physicsImpostor m = Some (newImpostor t' 0 None)
          /\ parent m = Some root').
Proof.
  intros Hnd Hall Hmiss.
  rewrite map_app in Hnd. apply NoDup_app_remove_r in Hnd.
  destruct (attach_run before Hnd s Hall) as [ms [Hrun [Hk [Hatt _]]]].
  exists ms. split; [| exact Hatt].
  rewrite forEach_app. erewrite bind_Ok by exact Hrun.
  cbn [forEach fst snd].
  erewrite bind_Throw; [reflexivity |].
  apply attachCollider_missing. cbn [sceneMeshes setSceneMeshes].
  apply (find_meshKey_None missing _ _ Hk Hmiss).
Qed.

(** C8 (as stated) fails: a failed construction leaves a partial rig, and
    not every missing manifest mesh is reported by the manifest check.
    Without ["collider_battery"] the body loop throws its error, a plain
    [Error]; the body root and the colliders before it in the manifest are
    already installed.  Without ["collider_wallaby"] the construction fails
    on a null reference before any check. *)
Lemma missing_mesh_counterexample :
  In "collider_battery"%string colliderNames
  /\ find (fun m => String.eqb (name m) "collider_battery")
          (sceneMeshes modelWithoutBattery) = None
  /\ snd (ensureInitialized [] modelWithoutBattery)
     = Throw (JsError "failed to find collider mesh in model: collider_battery")
  /\ (exists m, rootMesh (fst (ensureInitialized [] modelWithoutBattery))
                         bodyCompoundRootMesh = Some m
                /\ name m = bodyCompoundMesh)
  /\ (exists m i,
         find (fun m => String.eqb (name m) "collider_body")
              (sceneMeshes (fst (ensureInitialized [] modelWithoutBattery)))
         = Some m
         /\ parent m = Some bodyCompoundMesh
         /\ physicsImpostor m = Some i)
  /\ In "collider_wallaby"%string colliderNames
  /\ find (fun m => String.eqb (name m) "collider_wallaby")
          (sceneMeshes modelWithoutWallaby) = None
  /\ snd (ensureInitialized [] modelWithoutWallaby) = Throw TypeError.
Proof.
  split; [evaluate; tauto |].
  split; [reflexivity |].
  split; [evaluate; reflexivity |].
  split; [evaluate; eexists; split; reflexivity |].
  split; [evaluate; do 2 eexists; repeat split |].
  split; [evaluate; tauto |].
  split; [reflexivity |].
  evaluate; reflexivity.
Qed.

(** C8 (amended).  On a scene that holds what the construction uses before
    its manifest loops, a collider mesh named in the manifest being absent
    and those before it in the manifest present, rig construction throws
    the error that names the absent mesh.  Nothing after the throw runs: no
    joint is created, no sensor is instantiated and the render loop is not
    started; and the promise of [ensureInitialized] is rejected with that
    error.  Nothing is rolled back: the three compound roots stay in their
    fields, and every collider before the absent one in the manifest stays
    in the scene with its impostor, parented to its root. *)
Theorem missing_collider_aborts (sensors : list string) (s : Space)
        (before after : list (string * ImpostorType * string))
        (missing : string) (t : ImpostorType) (root : string) :
  colliderManifest = before ++ (missing, t, root) :: after ->
  anchored s ->
  (forall e, In e before ->
     find (fun m => String.eqb (name m) (fst (fst e))) (sceneMeshes s) <> None) ->
  find (fun m => String.eqb (name m) missing) (sceneMeshes s) = None ->
  notInitialized s ->
  let error := JsError ("failed to find collider mesh in model: " ++ missing) in
  exists s',
    loadMeshes sensors s = (s', Throw error)
    /\ ensureInitialized sensors s
       = (setInitializationPromise (Some (Throw error)) s', Throw error)
    /\ (forall f, joint s' f = None)
    /\ sensorObjects_ s' = []
    /\ renderLoopRunning s' = false
    /\ (exists pb pa pc : Vector3,
          rootMesh s' bodyCompoundRootMesh
          = Some (newRootMesh bodyCompoundMesh pb Quat.Identity)
          /\ rootMesh s' armCompoundRootMesh
             = Some (newRootMesh armCompoundMesh pa Quat.Identity)
          /\ rootMesh s' clawCompoundRootMesh
             = Some (newRootMesh clawCenterMesh pc (mkQuaternion 0 0 0 1)))
    /\ (forall n t' root', In (n, t', root') before ->
        exists m,
          find (fun m => String.eqb (name m) n) (sceneMeshes s') = Some m
          /\ physicsImpostor m = Some (newImpostor t' 0 None)
          /\ parent m = Some root').
Proof.
  intros Hman Hanch Hbefore Hmissing [Hj [Hso [Hrl Hip]]] error.
  destruct (placeModel_run s Hanch) as [s1 [Hrun1 [Hm1 [F1 [F2 [F3 [F4 F5]]]]]]].
  destruct (createCompoundRoots_run s s1 Hanch Hm1) as [pb [pa [pc Hrun2]]].
  set (s2 := setRootMesh clawCompoundRootMesh _ _) in Hrun2.
  pose proof colliderManifest_NoDup as Hnd. rewrite Hman in Hnd.
  destruct (attach_missing before after missing t root s2 Hnd)
    as [ms [Hrun3 Hatt]].
  { intros e He. subst s2. fields.
    apply (find_meshKey_found _ _ _ (proj1 Hm1)). apply Hbefore. exact He. }
  { subst s2. fields. apply (find_meshKey_None _ _ _ (proj1 Hm1) Hmissing). }
  assert (Hload : loadMeshes sensors s = (setSceneMeshes ms s2, Throw error)).
  { unfold loadMeshes.
    erewrite bind_Ok by exact Hrun1.
    erewrite bind_Ok by exact Hrun2.
    apply bind_Throw. rewrite attachColliders_manifest, Hman. exact Hrun3. }
  exists (setSceneMeshes ms s2).
  split; [exact Hload |]. split.
  { unfold ensureInitialized. rewrite Hip.
    unfold createScene. rewrite bind_ret.
    erewrite bind_Throw by exact Hload. reflexivity. }
  subst s2. fields.
  split; [intro f; rewrite F1; apply Hj |].
  split; [congruence |]. split; [congruence |].
  split; [exists pb, pa, pc; repeat split |].
  exact Hatt.
Qed.

(** The model without its battery collider: the error names the battery;
    the collider of the controller, which comes before it in the manifest,
    is left attached to the body root. *)
Lemma missing_collider_aborts_witness :
  exists s',
    loadMeshes [] modelWithoutBattery
    = (s', Throw (JsError "failed to find collider mesh in model: collider_battery"))
    /\ (forall f, joint s' f = None)
    /\ (exists m,
          find (fun m => String.eqb (name m) "collider_wallaby") (sceneMeshes s')
          = Some m
          /\ physicsImpostor m = Some (newImpostor BoxImpostor 0 None)
          /\ parent m = Some bodyCompoundMesh).
Proof.
  destruct (missing_collider_aborts [] modelWithoutBattery
              (firstn 12 colliderManifest) (skipn 13 colliderManifest)
              "collider_battery" BoxImpostor bodyCompoundMesh)
    as [s' [Hrun [_ [Hj [_ [_ [_ Hatt]]]]]]].
  - reflexivity.
  - split.
    + intros n Hn. simpl in Hn.
      repeat (destruct Hn as [<- | Hn]; [vm_compute; discriminate |]).
      contradiction.
    + vm_compute. discriminate.
  - intros e He. simpl in He.
    repeat (destruct He as [<- | He]; [vm_compute; discriminate |]).
    contradiction.
  - reflexivity.
  - repeat split.
  - exists s'. split; [exact Hrun |]. split; [exact Hj |].
    apply Hatt. simpl. tauto.
Defined.

(** * Further properties *)

(** ** Pose-delta extraction, continued *)

Lemma normalize_nonzero (q : Quaternion) :
  Quat.lengthSquared q <> 0 ->
  Quat.normalize q = Quat.scaleInPlace q (1 / Quat.length q)
  /\ 0 < Quat.length q
  /\ Quat.length q * Quat.length q = Quat.lengthSquared q.
Proof.
  intro Hne.
  assert (Hnn : 0 <= Quat.lengthSquared q) by (unfold Quat.lengthSquared; nra).
  assert (Hpos : 0 < Quat.length q).
  { unfold Quat.length. apply sqrt_lt_R0. lra. }
  split; [| split; [exact Hpos | apply sqrt_sqrt; exact Hnn]].
  unfold Quat.normalize.
  destruct (Req_dec_T (Quat.length q) 0); [lra | reflexivity].
Qed.

Lemma normalize_zero (q : Quaternion) :
  Quat.lengthSquared q = 0 -> Quat.normalize q = q.
Proof.
  intro H. unfold Quat.normalize, Quat.length. rewrite H, sqrt_0.
  destruct (Req_dec_T 0 0); [reflexivity | contradiction].
Qed.

(** The quaternion [getTwistForQuaternion] normalizes has squared length
    dot^2 + w^2 when the direction is normalized. *)
Lemma twist_lengthSquared (q : Quaternion) (direction : Vector3) :
  Vec.lengthSquared direction = 1 ->
  let dotProd := Vec.Dot direction (mkVector3 (qx q) (qy q) (qz q)) in
  let projection := Vec.scale direction dotProd in
  Quat.lengthSquared (mkQuaternion (vx projection) (vy projection)
                                   (vz projection) (qw q))
  = dotProd * dotProd + qw q * qw q.
Proof.
  intros Hd dotProd projection. subst projection.
  unfold Quat.lengthSquared, Vec.scale; simpl.
  unfold Vec.lengthSquared in Hd.
  replace (vx direction * dotProd * (vx direction * dotProd)
           + vy direction * dotProd * (vy direction * dotProd)
           + vz direction * dotProd * (vz direction * dotProd) + qw q * qw q)
    with (dotProd * dotProd
          * (vx direction * vx direction + vy direction * vy direction
             + vz direction * vz direction) + qw q * qw q) by ring.
  rewrite Hd. ring.
Qed.

(** X1.  The twist about a normalized direction.  When the quaternion has
    scalar part 0 and a vector part perpendicular to the direction, what
    is to be normalized has length zero and is returned as it is: the
    twist is the zero quaternion, and the angle read off its scalar part is
    pi, half a turn.  In every other case the twist is a unit quaternion
    whose vector part lies along the direction, on its non-negative
    side. *)
Theorem getTwistForQuaternion_defined (q : Quaternion) (direction : Vector3) :
  Vec.lengthSquared direction = 1 ->
  let dotProd := Vec.Dot direction (mkVector3 (qx q) (qy q) (qz q)) in
  let twist := getTwistForQuaternion q direction in
  (qw q = 0 /\ dotProd = 0 ->
   twist = mkQuaternion 0 0 0 0 /\ 2 * acos (qw twist) = PI)
  /\ (~ (qw q = 0 /\ dotProd = 0) ->
      Quat.lengthSquared twist = 1
      /\ 0 <= Vec.Dot direction (mkVector3 (qx twist) (qy twist) (qz twist))
      /\ mkVector3 (qx twist) (qy twist) (qz twist)
         = Vec.scale direction
             (Vec.Dot direction (mkVector3 (qx twist) (qy twist) (qz twist)))).
Proof.
  intros Hd dotProd twist.
  pose proof (twist_lengthSquared q direction Hd) as Hlen. cbv zeta in Hlen.
  fold dotProd in Hlen.
  subst twist. unfold getTwistForQuaternion. fold dotProd.
  set (pre := mkQuaternion _ _ _ (qw q)) in *.
  split.
  - intros [Hw Hdot].
    assert (Hz : Quat.lengthSquared pre = 0) by (rewrite Hlen, Hw, Hdot; ring).
    rewrite (normalize_zero pre Hz).
    destruct (Rlt_dec dotProd 0) as [Hneg | _]; [lra |].
    assert (E : pre = mkQuaternion 0 0 0 0).
    { subst pre. unfold Vec.scale. cbn [vx vy vz]. rewrite Hw, Hdot.
      f_equal; ring. }
    rewrite E. split; [reflexivity |]. cbn [qw]. rewrite acos_0. field.
  - intro Hnot.
    assert (Hnz : Quat.lengthSquared pre <> 0).
    { rewrite Hlen. intro Hz. apply Hnot. split; nra. }
    destruct (normalize_nonzero pre Hnz) as [Hn [Hpos Hsq]]. rewrite Hn.
    assert (Hinv : / Quat.length pre * Quat.length pre = 1)
      by (apply Rinv_l; lra).
    assert (Hinv2 : / Quat.length pre * / Quat.length pre
                    * (dotProd * dotProd + qw q * qw q) = 1).
    { rewrite <- Hlen, <- Hsq. field. lra. }
    assert (Hip : 0 < / Quat.length pre) by (apply Rinv_0_lt_compat; exact Hpos).
    assert (Hvec : forall c : R,
               Vec.Dot direction (Vec.scale direction c) = c).
    { intro c. unfold Vec.Dot, Vec.scale; simpl.
      unfold Vec.lengthSquared in Hd.
      replace (vx direction * (vx direction * c)
               + vy direction * (vy direction * c)
               + vz direction * (vz direction * c))
        with (c * (vx direction * vx direction + vy direction * vy direction
                   + vz direction * vz direction)) by ring.
      rewrite Hd. ring. }
    destruct (Rlt_dec dotProd 0) as [Hneg | Hnneg].
    + assert (Hv : mkVector3
                     (qx (Quat.scaleInPlace
                            (Quat.scaleInPlace pre (1 / Quat.length pre)) (-1)))
                     (qy (Quat.scaleInPlace
                            (Quat.scaleInPlace pre (1 / Quat.length pre)) (-1)))
                     (qz (Quat.scaleInPlace
                            (Quat.scaleInPlace pre (1 / Quat.length pre)) (-1)))
                   = Vec.scale direction (- dotProd * / Quat.length pre)).
      { subst pre. unfold Quat.scaleInPlace, Vec.scale; simpl.
        f_equal; unfold Rdiv; ring. }
      rewrite Hv, Hvec. split; [| split; [nra | reflexivity]].
      subst pre. unfold Quat.lengthSquared, Quat.scaleInPlace, Vec.scale.
      cbn [qx qy qz qw vx vy vz].
      unfold Quat.lengthSquared in Hlen. cbn [qx qy qz qw vx vy vz] in Hlen.
      unfold Vec.scale in Hlen. cbn [vx vy vz] in Hlen.
      unfold Rdiv. rewrite Rmult_1_l.
      set (i := / Quat.length _) in *. nra.
    + assert (Hv : mkVector3
                     (qx (Quat.scaleInPlace pre (1 / Quat.length pre)))
                     (qy (Quat.scaleInPlace pre (1 / Quat.length pre)))
                     (qz (Quat.scaleInPlace pre (1 / Quat.length pre)))
                   = Vec.scale direction (dotProd * / Quat.length pre)).
      { subst pre. unfold Quat.scaleInPlace, Vec.scale; simpl.
        f_equal; unfold Rdiv; ring. }
      rewrite Hv, Hvec. split; [| split; [nra | reflexivity]].
      subst pre. unfold Quat.lengthSquared, Quat.scaleInPlace, Vec.scale.
      cbn [qx qy qz qw vx vy vz].
      unfold Quat.lengthSquared in Hlen. cbn [qx qy qz qw vx vy vz] in Hlen.
      unfold Vec.scale in Hlen. cbn [vx vy vz] in Hlen.
      unfold Rdiv. rewrite Rmult_1_l.
      set (i := / Quat.length _) in *. nra.
Qed.

Lemma getTwistForQuaternion_defined_witness :
  (getTwistForQuaternion (mkQuaternion 1 0 0 0) Vec.Up = mkQuaternion 0 0 0 0
   /\ 2 * acos (qw (getTwistForQuaternion (mkQuaternion 1 0 0 0) Vec.Up)) = PI)
  /\ Quat.lengthSquared (getTwistForQuaternion (mkQuaternion 0 3 0 4) Vec.Up) = 1.
Proof.
  assert (Hup : Vec.lengthSquared Vec.Up = 1)
    by (unfold Vec.lengthSquared; simpl; ring).
  split.
  - apply (proj1 (getTwistForQuaternion_defined (mkQuaternion 1 0 0 0) Vec.Up Hup)).
    unfold Vec.Dot; simpl. split; ring.
  - apply (proj2 (getTwistForQuaternion_defined (mkQuaternion 0 3 0 4) Vec.Up Hup)).
    simpl. intros [H _]. lra.
Defined.

(** The twist of a unit quaternion whose vector part lies along the
    direction, on its negative side: the negated quaternion. *)
Lemma getTwistForQuaternion_against (q : Quaternion) (u : Vector3) (k : R) :
  Vec.lengthSquared u = 1 ->
  qx q = k * vx u -> qy q = k * vy u -> qz q = k * vz u ->
  k * k + qw q * qw q = 1 ->
  k < 0 ->
  qw (getTwistForQuaternion q u) = - qw q.
Proof.
  intros Hu Hx Hy Hz Hk Hneg.
  unfold getTwistForQuaternion.
  assert (Hdot : Vec.Dot u (mkVector3 (qx q) (qy q) (qz q)) = k).
  { unfold Vec.Dot; simpl. rewrite Hx, Hy, Hz.
    unfold Vec.lengthSquared in Hu.
    replace (vx u * (k * vx u) + vy u * (k * vy u) + vz u * (k * vz u))
      with (k * (vx u * vx u + vy u * vy u + vz u * vz u)) by ring.
    rewrite Hu. ring. }
  rewrite Hdot.
  rewrite normalize_unit.
  - destruct (Rlt_dec k 0) as [_ | Hge]; [| lra]. simpl. field.
  - unfold Quat.lengthSquared, Vec.scale; simpl.
    unfold Vec.lengthSquared in Hu.
    replace (vx u * k * (vx u * k) + vy u * k * (vy u * k)
             + vz u * k * (vz u * k) + qw q * qw q)
      with (k * k * (vx u * vx u + vy u * vy u + vz u * vz u) + qw q * qw q)
      by ring.
    rewrite Hu. lra.
Qed.

(** A rotation of [start] backwards about its own [axis], by less than a
    full turn, is extracted as the complementary forward rotation. *)
Lemma getDeltaRotationOnAxis_local_back (start : Quaternion) (axis : Vector3)
      (theta : R) :
  Quat.lengthSquared start = 1 ->
  Vec.lengthSquared axis = 1 ->
  - 2 * PI < theta < 0 ->
  getDeltaRotationOnAxis start
    (Quat.multiply start (Quat.RotationAxis axis theta)) axis
  = theta + 2 * PI.
Proof.
  intros Hs Ha Ht.
  rewrite getDeltaRotationOnAxis_unfold, local_rotation_delta, Hs.
  cbv zeta.
  rewrite (getTwistForQuaternion_against _ _ (sin (theta / 2))); try reflexivity.
  - cbn [qw].
    replace (- (cos (theta / 2) * 1)) with (cos (theta / 2 + PI))
      by (rewrite neg_cos; ring).
    rewrite acos_cos by lra. field.
  - rewrite rotated_axis_lengthSquared, Hs, Ha. ring.
  - cbn [qw]. pose proof (sin2_cos2 (theta / 2)) as H. unfold Rsqr in H. lra.
  - apply sin_lt_0_var; lra.
Qed.

Lemma wheelRotationVector_unit : Vec.lengthSquared wheelRotationVector = 1.
Proof. unfold Vec.lengthSquared, wheelRotationVector; simpl. ring. Qed.

(** The wrapped extraction about the wheel axis, for a wheel turned by
    [theta] in either direction, by at most half a turn. *)
Lemma wheelRotation_local (prev : Quaternion) (theta : R) :
  Quat.lengthSquared prev = 1 ->
  - PI < theta <= PI ->
  wheelRotation prev
    (Quat.multiply prev (Quat.RotationAxis wheelRotationVector theta))
  = theta.
Proof.
  intros Hp Ht. pose proof PI_RGT_0 as Hpi.
  unfold wheelRotation, wrapWheelRotation.
  destruct (Rlt_dec theta 0) as [Hneg | Hpos].
  - rewrite getDeltaRotationOnAxis_local_back;
      [| exact Hp | exact wheelRotationVector_unit | lra].
    destruct (Rgt_dec (theta + 2 * PI) PI); [ring | lra].
  - rewrite getDeltaRotationOnAxis_local;
      [| exact Hp | exact wheelRotationVector_unit | lra].
    destruct (Rgt_dec theta PI); [lra | reflexivity].
Qed.

(** X2.  Encoder round trip: when a wheel whose orientation relative to the
    body was the unit quaternion [prev] has turned about the wheel axis by
    [theta], forward or backward by at most half a turn, the rotation the
    after-render callback computes for it is [theta], sign included.  A
    backward half turn is the one exception: it is reported as a forward
    half turn. *)
Theorem wheelRotation_round_trip (prev : Quaternion) (theta : R) :
  Quat.lengthSquared prev = 1 ->
  - PI <= theta <= PI ->
  wheelRotation prev
    (Quat.multiply prev (Quat.RotationAxis wheelRotationVector theta))
  = (if Req_dec_T theta (- PI) then PI else theta).
Proof.
  intros Hp Ht. pose proof PI_RGT_0 as Hpi.
  destruct (Req_dec_T theta (- PI)) as [-> | Hne].
  - unfold wheelRotation, wrapWheelRotation.
    rewrite getDeltaRotationOnAxis_local_back;
      [| exact Hp | exact wheelRotationVector_unit | lra].
    destruct (Rgt_dec (- PI + 2 * PI) PI); [lra | ring].
  - apply wheelRotation_local; [exact Hp | lra].
Qed.

Lemma wheelRotation_round_trip_witness :
  wheelRotation Quat.Identity
    (Quat.multiply Quat.Identity (Quat.RotationAxis wheelRotationVector (- PI / 2)))
  = (if Req_dec_T (- PI / 2) (- PI) then PI else - PI / 2).
Proof.
  apply (wheelRotation_round_trip Quat.Identity (- PI / 2)).
  - unfold Quat.lengthSquared; simpl. ring.
  - pose proof PI_RGT_0. lra.
Defined.

(** X3.  Servo round trip: a servo link turned about its joint axis by
    [theta] from its unit baseline orientation, by at most half a turn
    either way, has the wrapped rotation [theta] in [setServoPositions];
    here a forward half turn is reported as a backward one.  The extraction
    alone returns an angle of [0, 2 pi], and the wrapped angle is in
    [- pi, pi). *)
Theorem servo_rotation_round_trip (start : Quaternion) (axis : Vector3) (theta : R) :
  Quat.lengthSquared start = 1 ->
  Vec.lengthSquared axis = 1 ->
  - PI <= theta <= PI ->
  let raw :=
    getDeltaRotationOnAxis start
      (Quat.multiply start (Quat.RotationAxis axis theta)) axis in
  0 <= raw <= 2 * PI
  /\ wrapServoRotation raw = (if Req_dec_T theta PI then - PI else theta)
  /\ - PI <= wrapServoRotation raw < PI.
Proof.
  intros Hs Ha Ht raw. pose proof PI_RGT_0 as Hpi.
  unfold wrapServoRotation.
  destruct (Rlt_dec theta 0) as [Hneg | Hpos].
  - assert (E : raw = theta + 2 * PI)
      by (apply getDeltaRotationOnAxis_local_back; [assumption .. | lra]).
    rewrite E.
    split; [lra |].
    destruct (Req_dec_T theta PI) as [-> | _]; [lra |].
    destruct (Rge_dec (theta + 2 * PI) PI); [| lra].
    split; [ring | lra].
  - assert (E : raw = theta)
      by (apply getDeltaRotationOnAxis_local; [assumption .. | lra]).
    rewrite E.
    split; [lra |].
    destruct (Req_dec_T theta PI) as [-> | Hne].
    + destruct (Rge_dec PI PI); [| lra]. split; [ring | lra].
    + destruct (Rge_dec theta PI); [lra |]. split; [reflexivity | lra].
Qed.

Lemma servo_rotation_round_trip_witness :
  let raw :=
    getDeltaRotationOnAxis Quat.Identity
      (Quat.multiply Quat.Identity (Quat.RotationAxis armRotationVector PI))
      armRotationVector in
  0 <= raw <= 2 * PI
  /\ wrapServoRotation raw = (if Req_dec_T PI PI then - PI else PI)
  /\ - PI <= wrapServoRotation raw < PI.
Proof.
  apply (servo_rotation_round_trip Quat.Identity armRotationVector PI).
  - unfold Quat.lengthSquared; simpl. ring.
  - unfold Vec.lengthSquared, armRotationVector; simpl. ring.
  - pose proof PI_RGT_0. lra.
Defined.

(** ** Encoder feedback, continued *)

Lemma rotation_setRotation_same (f : RotationField) (q : option Quaternion)
      (s : Space) :
  rotation (setRotation f q s) f = q.
Proof. destruct f; reflexivity. Qed.

Lemma rotation_setRotation_other (f g : RotationField) (q : option Quaternion)
      (s : Space) :
  f <> g -> rotation (setRotation f q s) g = rotation s g.
Proof. intro H. destruct f, g; try reflexivity; congruence. Qed.

(** One run of the after-render callback on a built rig: the state it
    dispatches and the rotations it records. *)
Lemma afterRender_run (st : RobotState) (s : Space) (pb pl pr : Vector3)
      (qb qlw qrw ql qr : Quaternion) :
  rigBuilt s ->
  pose bodyCompoundRootMesh s = Some (pb, qb) ->
  pose colliderLeftWheelMesh s = Some (pl, qlw) ->
  pose colliderRightWheelMesh s = Some (pr, qrw) ->
  rotation s leftWheelRotationPrev = Some ql ->
  rotation s rightWheelRotationPrev = Some qr ->
  let leftCurr := Quat.multiply (Quat.Inverse qb) qlw in
  let rightCurr := Quat.multiply (Quat.Inverse qb) qrw in
  exists s',
    afterRender st s
    = (s', Ok (mkRobotState (motorSpeeds st)
                 (mkTuple4
                    (at0 (motorPositions st)
                     + wheelRotation ql leftCurr * WHEEL_TICKS_PER_RADIAN)
                    0 0
                    (at3 (motorPositions st)
                     + wheelRotation qr rightCurr * WHEEL_TICKS_PER_RADIAN))
                 (servoPositions st) (analogValues st) (digitalValues st)))
    /\ rigBuilt s'
    /\ (forall g, pose g s' = pose g s)
    /\ rotation s' leftWheelRotationPrev = Some leftCurr
    /\ rotation s' rightWheelRotationPrev = Some rightCurr
    /\ rotation s' armRotationDefault = rotation s armRotationDefault
    /\ rotation s' clawRotationDefault = rotation s clawRotationDefault.
Proof.
  intros Hs Hbody Hlw Hrw Hql Hqr leftCurr rightCurr.
  destruct (setDriveMotors_Ok (at0 (motorSpeeds st)) (at3 (motorSpeeds st)) s Hs)
    as [s1 [Hrun1 [Hs1 [Hrot1 Hpose1]]]].
  destruct (setServoPositions_Ok (servoPositions st) s1 Hs1)
    as [s2 [Hrun2 [Hs2 [Hrot2 Hrm2]]]].
  assert (Hpose2 : forall g, pose g s2 = pose g s).
  { intro g. rewrite <- Hpose1. unfold pose. rewrite Hrm2. reflexivity. }
  assert (Hrot : rotation s2 = rotation s) by (rewrite Hrot2; exact Hrot1).
  assert (Hq2 : forall g p q, pose g s = Some (p, q) ->
                exists m2, rootMesh s2 g = Some m2 /\ rotationQuaternion m2 = q).
  { intros g p q Hm. rewrite <- Hpose2 in Hm. unfold pose in Hm.
    destruct (rootMesh s2 g) as [m2 |]; [| discriminate].
    injection Hm as _ Hq. eauto. }
  destruct (Hq2 _ _ _ Hbody) as [body2 [Hbody2 Hqb]].
  destruct (Hq2 _ _ _ Hlw) as [lw2 [Hlw2 Hqlw]].
  destruct (Hq2 _ _ _ Hrw) as [rw2 [Hrw2 Hqrw]].
  unfold afterRender.
  erewrite bind_Ok by exact Hrun1.
  erewrite bind_Ok by exact Hrun2.
  erewrite bind_Ok by (apply rotationOf_Ok; exact Hbody2).
  erewrite bind_Ok by (apply rotationOf_Ok; exact Hlw2).
  erewrite bind_Ok by (apply rotationOf_Ok; exact Hrw2).
  rewrite bind_get, Hrot, Hql, bind_deref_Some, Hqr, bind_deref_Some.
  rewrite !bind_modify. rewrite Hqb, Hqlw, Hqrw.
  fold leftCurr rightCurr.
  eexists. split; [reflexivity |].
  destruct Hs2 as [Hroots2 [Hjoints2 Hrots2]].
  split; [| split; [| repeat split]].
  - split; [exact Hroots2 |]. split; [exact Hjoints2 |].
    intros []; simpl; eauto.
  - intro g. rewrite <- Hpose2. reflexivity.
  - simpl. rewrite Hrot. reflexivity.
  - simpl. rewrite Hrot. reflexivity.
Qed.

Lemma rigBuilt_pose (s : Space) (f : RootMeshField) :
  rigBuilt s -> exists p q, pose f s = Some (p, q).
Proof.
  intros [Hroots _]. destruct (Hroots f) as [m [_ [Hm _]]].
  unfold pose. rewrite Hm. eauto.
Qed.

Lemma multiply_lengthSquared (a b : Quaternion) :
  Quat.lengthSquared (Quat.multiply a b)
  = Quat.lengthSquared a * Quat.lengthSquared b.
Proof. unfold Quat.lengthSquared, Quat.multiply; simpl. ring. Qed.

Lemma Inverse_lengthSquared (a : Quaternion) :
  Quat.lengthSquared (Quat.Inverse a) = Quat.lengthSquared a.
Proof. unfold Quat.lengthSquared, Quat.Inverse; simpl. ring. Qed.

Lemma relative_unit (a b : Quaternion) :
  Quat.lengthSquared a = 1 -> Quat.lengthSquared b = 1 ->
  Quat.lengthSquared (Quat.multiply (Quat.Inverse a) b) = 1.
Proof.
  intros Ha Hb. rewrite multiply_lengthSquared, Inverse_lengthSquared, Ha, Hb.
  ring.
Qed.

(** A wheel that has not turned is reported at rotation 0: the wrap sends
    the extracted 0 (and would send a full turn) to 0. *)
Lemma wheelRotation_same (q : Quaternion) :
  Quat.lengthSquared q = 1 -> wheelRotation q q = 0.
Proof.
  intro Hq. unfold wheelRotation.
  rewrite getDeltaRotationOnAxis_same by (assumption || exact wheelRotationVector_unit).
  unfold wrapWheelRotation. pose proof PI_RGT_0.
  destruct (Rgt_dec 0 PI); [lra | reflexivity].
Qed.

Lemma RotationAxis_wheel_unit (theta : R) :
  Quat.lengthSquared (Quat.RotationAxis wheelRotationVector theta) = 1.
Proof.
  unfold Quat.lengthSquared, Quat.RotationAxis, wheelRotationVector; simpl.
  pose proof (sin2_cos2 (theta / 2)) as H. unfold Rsqr in H. lra.
Qed.

Lemma wheelsTurned_rigBuilt (thetaLeft thetaRight : R) :
  rigBuilt (wheelsTurned thetaLeft thetaRight).
Proof.
  split; [| split].
  - intros []; do 2 eexists; split; reflexivity.
  - intros []; eexists; reflexivity.
  - intros []; eexists; reflexivity.
Qed.

Lemma multiply_Inverse_Identity_l (q : Quaternion) :
  Quat.multiply (Quat.Inverse Quat.Identity) q = Quat.multiply Quat.Identity q.
Proof.
  unfold Quat.multiply, Quat.Inverse, Quat.Identity; simpl. f_equal; ring.
Qed.

(** On the rig whose left wheel has turned a quarter turn forward and
    whose right wheel a quarter turn backward since the previous frame,
    with motor positions 7, 8, 9, 10 in the store, the callback dispatches
    7 + 512, 0, 0, 10 - 512. *)
Lemma afterRender_motorPositions_witness :
  exists s' next,
    afterRender (mkRobotState (mkTuple4 100 0 0 100) (mkTuple4 7 8 9 10)
                              (mkTuple4 1024 0 0 2048) [] [])
                (wheelsTurned (PI / 2) (- PI / 2)) = (s', Ok next)
    /\ at0 (motorPositions next) = 519
    /\ at1 (motorPositions next) = 0
    /\ at2 (motorPositions next) = 0
    /\ at3 (motorPositions next) = - 502.
Proof.
  pose proof PI_RGT_0 as Hpi.
  destruct (afterRender_motorPositions
              (mkRobotState (mkTuple4 100 0 0 100) (mkTuple4 7 8 9 10)
                            (mkTuple4 1024 0 0 2048) [] [])
              (wheelsTurned (PI / 2) (- PI / 2)) _ _ _ _ _
              (wheelsTurned_rigBuilt (PI / 2) (- PI / 2))
              eq_refl eq_refl eq_refl eq_refl eq_refl)
    as [s' [next [Hrun [H0 [H1 [H2 [H3 _]]]]]]].
  cbv zeta in H0, H3.
  cbn [rotationQuaternion withPose withImpostor newRootMesh motorPositions
       at0 at3] in H0, H3.
  rewrite multiply_Inverse_Identity_l in H0, H3.
  change (if Rgt_dec
               (getDeltaRotationOnAxis Quat.Identity
                  (Quat.multiply Quat.Identity
                     (Quat.RotationAxis wheelRotationVector (PI / 2)))
                  (mkVector3 0 (-1) 0)) PI
          then
            getDeltaRotationOnAxis Quat.Identity
              (Quat.multiply Quat.Identity
                 (Quat.RotationAxis wheelRotationVector (PI / 2)))
              (mkVector3 0 (-1) 0) - 2 * PI
          else
            getDeltaRotationOnAxis Quat.Identity
              (Quat.multiply Quat.Identity
                 (Quat.RotationAxis wheelRotationVector (PI / 2)))
              (mkVector3 0 (-1) 0))
    with (wheelRotation Quat.Identity
            (Quat.multiply Quat.Identity
               (Quat.RotationAxis wheelRotationVector (PI / 2)))) in H0.
  change (if Rgt_dec
               (getDeltaRotationOnAxis Quat.Identity
                  (Quat.multiply Quat.Identity
                     (Quat.RotationAxis wheelRotationVector (- PI / 2)))
                  (mkVector3 0 (-1) 0)) PI
          then
            getDeltaRotationOnAxis Quat.Identity
              (Quat.multiply Quat.Identity
                 (Quat.RotationAxis wheelRotationVector (- PI / 2)))
              (mkVector3 0 (-1) 0) - 2 * PI
          else
            getDeltaRotationOnAxis Quat.Identity
              (Quat.multiply Quat.Identity
                 (Quat.RotationAxis wheelRotationVector (- PI / 2)))
              (mkVector3 0 (-1) 0))
    with (wheelRotation Quat.Identity
            (Quat.multiply Quat.Identity
               (Quat.RotationAxis wheelRotationVector (- PI / 2)))) in H3.
  rewrite wheelRotation_local in H0, H3 by (try apply Identity_unit; lra).
  exists s', next. split; [exact Hrun |].
  split; [rewrite H0; field; lra |].
  split; [exact H1 |]. split; [exact H2 |].
  rewrite H3. field. lra.
Defined.

(** X4.  Encoder ticks: on a built rig whose recorded wheel rotations are
    unit quaternions, when the physics step has turned the left wheel by
    [thetaL] and the right wheel by [thetaR] about the wheel axis relative
    to the body (each more than minus half a turn and at most half a turn),
    the after-render callback adds [thetaL * WHEEL_TICKS_PER_RADIAN] to
    motor position 0 and [thetaR * WHEEL_TICKS_PER_RADIAN] to motor
    position 3, and records the wheels' current relative rotations for the
    next frame. *)
Theorem afterRender_counts_ticks (st : RobotState) (s : Space)
        (pb pl pr : Vector3) (qb qlw qrw ql qr : Quaternion)
        (thetaL thetaR : R) :
  rigBuilt s ->
  pose bodyCompoundRootMesh s = Some (pb, qb) ->
  pose colliderLeftWheelMesh s = Some (pl, qlw) ->
  pose colliderRightWheelMesh s = Some (pr, qrw) ->
  rotation s leftWheelRotationPrev = Some ql ->
  rotation s rightWheelRotationPrev = Some qr ->
  Quat.lengthSquared ql = 1 ->
  Quat.lengthSquared qr = 1 ->
  Quat.multiply (Quat.Inverse qb) qlw
  = Quat.multiply ql (Quat.RotationAxis wheelRotationVector thetaL) ->
  Quat.multiply (Quat.Inverse qb) qrw
  = Quat.multiply qr (Quat.RotationAxis wheelRotationVector thetaR) ->
  - PI < thetaL <= PI ->
  - PI < thetaR <= PI ->
  exists s' next,
    afterRender st s = (s', Ok next)
    /\ at0 (motorPositions next)
       = at0 (motorPositions st) + thetaL * WHEEL_TICKS_PER_RADIAN
    /\ at3 (motorPositions next)
       = at3 (motorPositions st) + thetaR * WHEEL_TICKS_PER_RADIAN
    /\ rotation s' leftWheelRotationPrev
       = Some (Quat.multiply (Quat.Inverse qb) qlw)
    /\ rotation s' rightWheelRotationPrev
       = Some (Quat.multiply (Quat.Inverse qb) qrw).
Proof.
  intros Hs Hb Hl Hr Hql Hqr Hul Hur Hel Her Htl Htr.
  destruct (afterRender_run st s pb pl pr qb qlw qrw ql qr Hs Hb Hl Hr Hql Hqr)
    as [s' [Hrun [_ [_ [Hl' [Hr' _]]]]]].
  exists s'. eexists. split; [exact Hrun |].
  cbn [motorPositions at0 at3].
  rewrite Hel, Her, !wheelRotation_local by assumption.
  repeat split; try reflexivity.
  - rewrite <- Hel. exact Hl'.
  - rewrite <- Her. exact Hr'.
Qed.

(** X5.  No drift: on a built rig whose body and wheels have unit rotation
    quaternions, a second run of the after-render callback with no physics
    step in between dispatches the motor positions of the first run
    unchanged, whatever the first run made of them. *)
Theorem afterRender_no_drift (st : RobotState) (s : Space)
        (pb pl pr : Vector3) (qb qlw qrw : Quaternion) :
  rigBuilt s ->
  pose bodyCompoundRootMesh s = Some (pb, qb) ->
  pose colliderLeftWheelMesh s = Some (pl, qlw) ->
  pose colliderRightWheelMesh s = Some (pr, qrw) ->
  Quat.lengthSquared qb = 1 ->
  Quat.lengthSquared qlw = 1 ->
  Quat.lengthSquared qrw = 1 ->
  exists s1 next1 s2 next2,
    afterRender st s = (s1, Ok next1)
    /\ afterRender next1 s1 = (s2, Ok next2)
    /\ motorPositions next2 = motorPositions next1
    /\ (forall f, rotation s2 f = rotation s1 f).
Proof.
  intros Hs Hb Hl Hr Hub Hul Hur.
  destruct Hs as [Hroots [Hjoints Hrots]].
  destruct (Hrots leftWheelRotationPrev) as [ql Hql].
  destruct (Hrots rightWheelRotationPrev) as [qr Hqr].
  destruct (afterRender_run st s pb pl pr qb qlw qrw ql qr
              (conj Hroots (conj Hjoints Hrots)) Hb Hl Hr Hql Hqr)
    as [s1 [Hrun1 [Hs1 [Hpose1 [Hl1 [Hr1 [Ha1 Hc1]]]]]]].
  destruct (afterRender_run
              (mkRobotState (motorSpeeds st)
                 (mkTuple4
                    (at0 (motorPositions st)
                     + wheelRotation ql (Quat.multiply (Quat.Inverse qb) qlw)
                       * WHEEL_TICKS_PER_RADIAN)
                    0 0
                    (at3 (motorPositions st)
                     + wheelRotation qr (Quat.multiply (Quat.Inverse qb) qrw)
                       * WHEEL_TICKS_PER_RADIAN))
                 (servoPositions st) (analogValues st) (digitalValues st))
              s1 pb pl pr qb qlw qrw _ _ Hs1
              (eq_trans (Hpose1 _) Hb) (eq_trans (Hpose1 _) Hl)
              (eq_trans (Hpose1 _) Hr) Hl1 Hr1)
    as [s2 [Hrun2 [_ [_ [Hl2 [Hr2 [Ha2 Hc2]]]]]]].
  do 4 eexists. split; [exact Hrun1 |]. split; [exact Hrun2 |].
  cbn [motorPositions at0 at3].
  rewrite !wheelRotation_same by (apply relative_unit; assumption).
  split; [f_equal; ring |].
  intros []; congruence.
Qed.

Lemma afterRender_counts_ticks_witness :
  exists s' next,
    afterRender (mkRobotState (mkTuple4 100 0 0 100) (mkTuple4 7 8 9 10)
                              (mkTuple4 1024 0 0 2048) [] [])
                (wheelsTurned (PI / 2) (- PI / 2)) = (s', Ok next)
    /\ at0 (motorPositions next) = 7 + PI / 2 * WHEEL_TICKS_PER_RADIAN
    /\ at3 (motorPositions next) = 10 + - PI / 2 * WHEEL_TICKS_PER_RADIAN.
Proof.
  pose proof PI_RGT_0 as Hpi.
  destruct (afterRender_counts_ticks
              (mkRobotState (mkTuple4 100 0 0 100) (mkTuple4 7 8 9 10)
                            (mkTuple4 1024 0 0 2048) [] [])
              (wheelsTurned (PI / 2) (- PI / 2))
              Vec.Zero Vec.Zero Vec.Zero
              Quat.Identity
              (Quat.RotationAxis wheelRotationVector (PI / 2))
              (Quat.RotationAxis wheelRotationVector (- PI / 2))
              Quat.Identity Quat.Identity (PI / 2) (- PI / 2))
    as [s' [next [Hrun [H0 [H3 _]]]]];
    try reflexivity; try lra;
    try (unfold Quat.lengthSquared; simpl; ring);
    try (unfold Quat.multiply, Quat.Inverse, Quat.Identity; simpl; f_equal; ring).
  - apply wheelsTurned_rigBuilt.
  - exists s', next. repeat split; assumption.
Defined.

(** The rig whose wheels have turned since the previous frame: the first
    run counts the quarter turns, the second adds nothing. *)
Lemma afterRender_no_drift_witness :
  exists s1 next1 s2 next2,
    afterRender (mkRobotState (mkTuple4 100 0 0 100) (mkTuple4 7 8 9 10)
                              (mkTuple4 1024 0 0 2048) [] [])
                (wheelsTurned (PI / 2) (- PI / 2)) = (s1, Ok next1)
    /\ afterRender next1 s1 = (s2, Ok next2)
    /\ motorPositions next2 = motorPositions next1
    /\ (forall f, rotation s2 f = rotation s1 f).
Proof.
  apply (afterRender_no_drift _ (wheelsTurned (PI / 2) (- PI / 2))
           Vec.Zero Vec.Zero Vec.Zero Quat.Identity
           (Quat.RotationAxis wheelRotationVector (PI / 2))
           (Quat.RotationAxis wheelRotationVector (- PI / 2)));
    try reflexivity; try apply wheelsTurned_rigBuilt;
    try apply RotationAxis_wheel_unit.
  unfold Quat.lengthSquared; simpl; ring.
Defined.

(** ** Repositioning, continued *)

Lemma stopAndAttach_run (s : Space) :
  rootsBuilt s ->
  exists s1,
    stopAndAttach s = (s1, Ok tt)
    /\ joint s1 = joint s
    /\ rotation s1 = rotation s
    /\ (forall f, exists m m',
          rootMesh s f = Some m /\ rootMesh s1 f = Some m'
          /\ position m' = position m
          /\ rotationQuaternion m' = rotationQuaternion m
          /\ parent m' = Some resetTransformNode
          /\ exists i, physicsImpostor m' = Some i
                       /\ linearVelocity i = Vec.Zero
                       /\ angularVelocity i = Vec.Zero).
Proof.
  intro Hs.
  destruct (forEach_roots _ _ _ stopAndAttach_body rootMeshes rootMeshes_NoDup s)
    as [s1 [Hrun [Hj [Hr [_ Hin]]]]].
  - intros f _. destruct (Hs f) as [m [i [Hm Hi]]]. eauto.
  - exists s1. split; [exact Hrun |]. split; [exact Hj |]. split; [exact Hr |].
    intro f.
    destruct (Hin f (rootMeshes_all f))
      as [m [m' [Hm [Hm' [Hp [Hq [Hpar Hi]]]]]]].
    exists m, m'. repeat split; assumption.
Qed.

Lemma detach_run (s : Space) :
  (forall f, exists m, rootMesh s f = Some m) ->
  exists s',
    detach s = (s', Ok tt)
    /\ joint s' = joint s
    /\ rotation s' = rotation s
    /\ (forall f, exists m m',
          rootMesh s f = Some m /\ rootMesh s' f = Some m'
          /\ pose f s' = pose f s /\ parent m' = None
          /\ physicsImpostor m' = physicsImpostor m).
Proof.
  intro Hs.
  assert (Hbody : forall f s m, rootMesh s f = Some m -> True ->
            exists s' m',
              setParent f None s = (s', Ok tt)
              /\ joint s' = joint s
              /\ rotation s' = rotation s
              /\ (forall g, g <> f -> rootMesh s' g = rootMesh s g)
              /\ rootMesh s' f = Some m'
              /\ (position m' = position m
                  /\ rotationQuaternion m' = rotationQuaternion m
                  /\ parent m' = None
                  /\ physicsImpostor m' = physicsImpostor m)).
  { intros f s0 m Hm _.
    destruct (setParent_Ok f None s0 m Hm)
      as [s3 [m3 [Hrun3 [[Hj3 [Hr3 [Ho3 Hp3]]] [Hm3 [Hpar3 Hi3]]]]]].
    exists s3, m3. unfold pose in Hp3. rewrite Hm3, Hm in Hp3.
    injection Hp3 as Hpos Hrot. repeat split; assumption. }
  destruct (forEach_roots _ _ _ Hbody rootMeshes rootMeshes_NoDup s)
    as [s1 [Hrun [Hj [Hr [_ Hin]]]]].
  - intros f _. destruct (Hs f) as [m Hm]. eauto.
  - exists s1. split; [exact Hrun |]. split; [exact Hj |]. split; [exact Hr |].
    intro f.
    destruct (Hin f (rootMeshes_all f)) as [m [m' [Hm [Hm' [Hp [Hq [Hpar Hi]]]]]]].
    exists m, m'. unfold pose. rewrite Hm, Hm', Hp, Hq. tauto.
Qed.

(** Where the part of [setRobotPosition] and [setOrigin] after the first
    loop leaves each root mesh, all of them being children of the reset
    node. *)
Lemma reposition_run (from to : Vector3) (qfrom qto : Quaternion) (s1 : Space) :
  (forall f, exists m, rootMesh s1 f = Some m
                       /\ parent m = Some resetTransformNode) ->
  exists s',
    bind (moveResetNode from to) (fun _ =>
    bind (rotateResetNode to qfrom qto) (fun _ => detach)) s1 = (s', Ok tt)
    /\ joint s' = joint s1
    /\ rotation s' = rotation s1
    /\ (forall f, exists m m',
          rootMesh s1 f = Some m /\ rootMesh s' f = Some m'
          /\ parent m' = None
          /\ physicsImpostor m' = physicsImpostor m
          /\ position m'
             = Vec.add to
                 (Quat.rotateVector (Quat.multiply qto (Quat.Inverse qfrom))
                    (Vec.subtract (position m) from))
          /\ rotationQuaternion m'
             = Quat.multiply (Quat.multiply qto (Quat.Inverse qfrom))
                             (rotationQuaternion m)).
Proof.
  intro H1.
  unfold moveResetNode, rotateResetNode. rewrite !bind_modify.
  set (s3 := carry _ _ (carry _ _ s1)).
  assert (H3 : forall f, exists m m3,
             rootMesh s1 f = Some m /\ rootMesh s3 f = Some m3
             /\ physicsImpostor m3 = physicsImpostor m
             /\ position m3
                = Vec.add to
                    (Quat.rotateVector (Quat.multiply qto (Quat.Inverse qfrom))
                       (Vec.subtract (position m) from))
             /\ rotationQuaternion m3
                = Quat.multiply (Quat.multiply qto (Quat.Inverse qfrom))
                                (rotationQuaternion m)).
  { intro f. destruct (H1 f) as [m [Hm Hpar]].
    pose proof (carry_child resetTransformNode (translation from to) s1 f m
                  Hm Hpar) as Hm2.
    pose proof (carry_child resetTransformNode
                  (turnAbout to (Quat.multiply qto (Quat.Inverse qfrom)))
                  _ f _ Hm2 Hpar) as Hm3.
    exists m. eexists. split; [exact Hm |]. split; [exact Hm3 |].
    cbn [position rotationQuaternion physicsImpostor moveMesh translation
         turnAbout movePosition moveRotation].
    split; [reflexivity |]. split; [| reflexivity].
    f_equal. f_equal.
    unfold Vec.subtract, Vec.add; cbn [vx vy vz]. f_equal; ring. }
  assert (Hj3 : joint s3 = joint s1) by reflexivity.
  assert (Hr3 : rotation s3 = rotation s1) by reflexivity.
  clearbody s3.
  destruct (detach_run s3) as [s' [Hrun [Hj [Hr Hall]]]].
  { intro f. destruct (H3 f) as [m0 [m3 [_ [Hm3 _]]]]. eauto. }
  exists s'. split; [exact Hrun |].
  split; [congruence |]. split; [congruence |].
  intro f. destruct (H3 f) as [m [m3 [Hm [Hm3 [Hi3 [Hp Hq]]]]]].
  destruct (Hall f) as [m3' [m' [Hm3' [Hm' [Hpose [Hpar Hi]]]]]].
  assert (m3' = m3) by congruence. subst m3'.
  exists m, m'. split; [exact Hm |]. split; [exact Hm' |].
  split; [exact Hpar |]. split; [congruence |].
  unfold pose in Hpose. rewrite Hm', Hm3 in Hpose. injection Hpose as -> ->.
  split; assumption.
Qed.

Lemma rotateVector_Zero (q : Quaternion) (v : Vector3) :
  Quat.rotateVector q (Vec.subtract v v) = Vec.Zero.
Proof.
  unfold Quat.rotateVector, Quat.multiply, Quat.Inverse, Vec.subtract, Vec.Zero;
    simpl. f_equal; ring.
Qed.

Lemma add_Zero (v : Vector3) : Vec.add v Vec.Zero = v.
Proof. destruct v. unfold Vec.add, Vec.Zero; simpl. f_equal; ring. Qed.

Lemma turn_start (qto qfrom : Quaternion) :
  Quat.lengthSquared qfrom = 1 ->
  Quat.multiply (Quat.multiply qto (Quat.Inverse qfrom)) qfrom = qto.
Proof.
  intro H.
  assert (E : Quat.multiply (Quat.multiply qto (Quat.Inverse qfrom)) qfrom
              = Quat.scaleInPlace qto (Quat.lengthSquared qfrom)).
  { unfold Quat.multiply, Quat.Inverse, Quat.scaleInPlace, Quat.lengthSquared;
      simpl. f_equal; ring. }
  rewrite E, H. destruct qto. unfold Quat.scaleInPlace; simpl. f_equal; ring.
Qed.

Lemma RotationAxis_Up_unit (theta : R) :
  Quat.lengthSquared (Quat.RotationAxis Vec.Up theta) = 1.
Proof.
  unfold Quat.lengthSquared, Quat.RotationAxis, Vec.Up; simpl.
  pose proof (sin2_cos2 (theta / 2)) as H. unfold Rsqr in H. lra.
Qed.

(** The rotation of one mesh relative to another is unchanged when both
    are turned by the same unit quaternion. *)
Lemma relative_rotation_turned (t a b : Quaternion) :
  Quat.lengthSquared t = 1 ->
  Quat.multiply (Quat.Inverse (Quat.multiply t a)) (Quat.multiply t b)
  = Quat.multiply (Quat.Inverse a) b.
Proof.
  intro H.
  assert (E : Quat.multiply (Quat.Inverse (Quat.multiply t a)) (Quat.multiply t b)
              = Quat.scaleInPlace (Quat.multiply (Quat.Inverse a) b)
                                  (Quat.lengthSquared t)).
  { unfold Quat.multiply, Quat.Inverse, Quat.scaleInPlace, Quat.lengthSquared;
      simpl. f_equal; ring. }
  rewrite E, H. destruct (Quat.multiply (Quat.Inverse a) b).
  unfold Quat.scaleInPlace; simpl. f_equal; ring.
Qed.

(** The vector between two meshes is turned with them. *)
Lemma displacement_turned (t : Quaternion) (to from p1 p2 : Vector3) :
  Vec.subtract (Vec.add to (Quat.rotateVector t (Vec.subtract p2 from)))
               (Vec.add to (Quat.rotateVector t (Vec.subtract p1 from)))
  = Quat.rotateVector t (Vec.subtract p2 p1).
Proof.
  unfold Vec.subtract, Vec.add, Quat.rotateVector, Quat.multiply, Quat.Inverse;
    simpl. f_equal; ring.
Qed.

(** [setRobotPosition] on a rig whose root meshes exist: where it leaves
    each of them. *)
Lemma setRobotPosition_run (position_ : RobotPosition) (s : Space)
      (pb : Vector3) (qb : Quaternion) :
  rootsBuilt s ->
  pose bodyCompoundRootMesh s = Some (pb, qb) ->
  let target :=
    mkVector3 (Distance.toCentimetersValue (posX position_))
              (Distance.toCentimetersValue (posY position_))
              (Distance.toCentimetersValue (posZ position_)) in
  let turn :=
    Quat.multiply
      (Quat.RotationAxis Vec.Up (Angle.toRadiansValue (posTheta position_)))
      (Quat.Inverse qb) in
  exists s',
    setRobotPosition position_ s = (s', Ok tt)
    /\ joint s' = joint s
    /\ rotation s' = rotation s
    /\ (forall f, exists m m',
          rootMesh s f = Some m /\ rootMesh s' f = Some m'
          /\ parent m' = None
          /\ (exists i, physicsImpostor m' = Some i
                        /\ linearVelocity i = Vec.Zero
                        /\ angularVelocity i = Vec.Zero)
          /\ position m'
             = Vec.add target (Quat.rotateVector turn (Vec.subtract (position m) pb))
          /\ rotationQuaternion m' = Quat.multiply turn (rotationQuaternion m)).
Proof.
  intros Hs Hb target turn.
  destruct (stopAndAttach_run s Hs) as [s1 [Hrun1 [Hj1 [Hr1 H1]]]].
  unfold pose in Hb.
  destruct (rootMesh s bodyCompoundRootMesh) as [body |] eqn:Hbody;
    [| discriminate].
  injection Hb as <- <-.
  destruct (reposition_run (position body) target (rotationQuaternion body)
              (Quat.RotationAxis Vec.Up (Angle.toRadiansValue (posTheta position_)))
              s1) as [s' [Hrun [Hj [Hr Hall]]]].
  { intro f. destruct (H1 f) as [m [m' [_ [Hm' [_ [_ [Hpar _]]]]]]]. eauto. }
  exists s'. split.
  - unfold setRobotPosition.
    rewrite bind_get, Hbody, bind_deref_Some.
    erewrite bind_Ok by exact Hrun1. exact Hrun.
  - split; [congruence |]. split; [congruence |].
    intro f. destruct (H1 f) as [m [m1 [Hm [Hm1 [Hp1 [Hq1 [_ [i [Hi1 Hv]]]]]]]]].
    destruct (Hall f) as [m1' [m' [Hm1' [Hm' [Hpar [Hi [Hp Hq]]]]]]].
    assert (m1' = m1) by congruence. subst m1'.
    exists m, m'. rewrite <- Hp1, <- Hq1.
    split; [exact Hm |]. split; [exact Hm' |]. split; [exact Hpar |].
    split; [| split; assumption].
    exists i. split; [congruence | exact Hv].
Qed.

(** X6.  [setRobotPosition] puts the body root exactly at the requested
    position (converted to centimeters) whatever its pose was, and, its
    rotation having been a unit quaternion, gives it exactly the rotation
    by theta about the vertical axis; it leaves every root mesh without a
    parent and keeps the joints and the recorded rotations. *)
Theorem setRobotPosition_places_body (position_ : RobotPosition) (s : Space)
        (pb : Vector3) (qb : Quaternion) :
  rootsBuilt s ->
  pose bodyCompoundRootMesh s = Some (pb, qb) ->
  exists s',
    setRobotPosition position_ s = (s', Ok tt)
    /\ (exists q',
          pose bodyCompoundRootMesh s'
          = Some (mkVector3 (Distance.toCentimetersValue (posX position_))
                            (Distance.toCentimetersValue (posY position_))
                            (Distance.toCentimetersValue (posZ position_)), q')
          /\ (Quat.lengthSquared qb = 1 ->
              q' = Quat.RotationAxis Vec.Up
                     (Angle.toRadiansValue (posTheta position_))))
    /\ (forall f, exists m', rootMesh s' f = Some m' /\ parent m' = None)
    /\ (forall f, joint s' f = joint s f)
    /\ (forall f, rotation s' f = rotation s f).
Proof.
  intros Hs Hb.
  destruct (setRobotPosition_run position_ s pb qb Hs Hb)
    as [s' [Hrun [Hj [Hr Hall]]]].
  exists s'. split; [exact Hrun |]. split; [| split; [| split]].
  - destruct (Hall bodyCompoundRootMesh) as [m [m' [Hm [Hm' [_ [_ [Hp Hq]]]]]]].
    unfold pose in Hb |- *. rewrite Hm in Hb. injection Hb as Hpb Hqb.
    rewrite Hm'. eexists. split.
    + rewrite Hp, Hpb, rotateVector_Zero, add_Zero. reflexivity.
    + intro Hunit. rewrite Hq, Hqb. apply turn_start. exact Hunit.
  - intro f. destruct (Hall f) as [m [m' [_ [Hm' [Hpar _]]]]]. eauto.
  - intro f. rewrite Hj. reflexivity.
  - intro f. rewrite Hr. reflexivity.
Qed.

Lemma setRobotPosition_places_body_witness :
  exists s',
    setRobotPosition
      (mkRobotPosition (Distance.mk Distance.centimeters 10)
                       (Distance.mk Distance.centimeters 0)
                       (Distance.mk Distance.centimeters 20)
                       (Angle.mk Angle.degrees 90))
      restingRig = (s', Ok tt)
    /\ (forall f, exists m', rootMesh s' f = Some m' /\ parent m' = None).
Proof.
  destruct (setRobotPosition_places_body
              (mkRobotPosition (Distance.mk Distance.centimeters 10)
                               (Distance.mk Distance.centimeters 0)
                               (Distance.mk Distance.centimeters 20)
                               (Angle.mk Angle.degrees 90))
              restingRig Vec.Zero Quat.Identity
              (proj1 restingRig_rigBuilt) eq_refl)
    as [s' [Hrun [_ [Hpar _]]]].
  exists s'. split; assumption.
Defined.

(** X7.  [setRobotPosition] moves the robot as one rigid body: on a rig
    whose body rotation is a unit quaternion, the rotation of every root
    mesh relative to every other one, the squared distance between any two
    of them, and with them every joint rotation [setServoPositions] and the
    after-render callback extract, are the same after the call as before. *)
Theorem setRobotPosition_rigid (position_ : RobotPosition) (s : Space)
        (pb : Vector3) (qb : Quaternion) :
  rootsBuilt s ->
  pose bodyCompoundRootMesh s = Some (pb, qb) ->
  Quat.lengthSquared qb = 1 ->
  exists s',
    setRobotPosition position_ s = (s', Ok tt)
    /\ (forall f g, exists pf qf pg qg pf' qf' pg' qg',
          pose f s = Some (pf, qf) /\ pose g s = Some (pg, qg)
          /\ pose f s' = Some (pf', qf') /\ pose g s' = Some (pg', qg')
          /\ Quat.multiply (Quat.Inverse qf') qg'
             = Quat.multiply (Quat.Inverse qf) qg
          /\ Vec.lengthSquared (Vec.subtract pg' pf')
             = Vec.lengthSquared (Vec.subtract pg pf))
    /\ (forall default parent_ child axis,
          jointRotation default parent_ child axis s'
          = jointRotation default parent_ child axis s).
Proof.
  intros Hs Hb Hunit.
  destruct (setRobotPosition_run position_ s pb qb Hs Hb)
    as [s' [Hrun [Hj [Hr Hall]]]].
  cbv zeta in Hall.
  set (turn := Quat.multiply
                 (Quat.RotationAxis Vec.Up
                    (Angle.toRadiansValue (posTheta position_)))
                 (Quat.Inverse qb)) in *.
  assert (Hturn : Quat.lengthSquared turn = 1).
  { subst turn.
    rewrite multiply_lengthSquared, Inverse_lengthSquared, RotationAxis_Up_unit,
      Hunit. ring. }
  exists s'. split; [exact Hrun |]. split.
  - intros f g.
    destruct (Hall f) as [mf [mf' [Hmf [Hmf' [_ [_ [Hpf Hqf]]]]]]].
    destruct (Hall g) as [mg [mg' [Hmg [Hmg' [_ [_ [Hpg Hqg]]]]]]].
    unfold pose. rewrite Hmf, Hmg, Hmf', Hmg'.
    do 8 eexists. do 4 (split; [reflexivity |]).
    rewrite Hpf, Hqf, Hpg, Hqg. split.
    + apply relative_rotation_turned. exact Hturn.
    + rewrite displacement_turned, rotated_axis_lengthSquared, Hturn. ring.
  - intros default parent_ child axis.
    destruct (Hall parent_) as [mf [mf' [Hmf [Hmf' [_ [_ [Hpf Hqf]]]]]]].
    destruct (Hall child) as [mg [mg' [Hmg [Hmg' [_ [_ [Hpg Hqg]]]]]]].
    unfold jointRotation. rewrite Hr, Hmf, Hmg, Hmf', Hmg', Hqf, Hqg.
    rewrite relative_rotation_turned by exact Hturn. reflexivity.
Qed.

Lemma setRobotPosition_rigid_witness :
  exists s',
    setRobotPosition
      (mkRobotPosition (Distance.mk Distance.centimeters 10)
                       (Distance.mk Distance.centimeters 0)
                       (Distance.mk Distance.centimeters 20)
                       (Angle.mk Angle.degrees 90))
      restingRig = (s', Ok tt)
    /\ (forall default parent_ child axis,
          jointRotation default parent_ child axis s'
          = jointRotation default parent_ child axis restingRig).
Proof.
  destruct (setRobotPosition_rigid
              (mkRobotPosition (Distance.mk Distance.centimeters 10)
                               (Distance.mk Distance.centimeters 0)
                               (Distance.mk Distance.centimeters 20)
                               (Angle.mk Angle.degrees 90))
              restingRig Vec.Zero Quat.Identity
              (proj1 restingRig_rigBuilt) eq_refl)
    as [s' [Hrun [_ Hjr]]].
  - unfold Quat.lengthSquared; simpl. ring.
  - exists s'. split; assumption.
Defined.

(** X8.  Repositioning does not move the encoders: on a built rig whose
    body and wheels have unit rotation quaternions, when [setRobotPosition]
    runs between two runs of the after-render callback (and the physics
    engine has not stepped), the second run dispatches the motor positions
    of the first unchanged, wherever and at whatever heading the robot was
    put. *)
Theorem reposition_keeps_encoders (st : RobotState) (position_ : RobotPosition)
        (s : Space) (pb pl pr : Vector3) (qb qlw qrw : Quaternion) :
  rigBuilt s ->
  pose bodyCompoundRootMesh s = Some (pb, qb) ->
  pose colliderLeftWheelMesh s = Some (pl, qlw) ->
  pose colliderRightWheelMesh s = Some (pr, qrw) ->
  Quat.lengthSquared qb = 1 ->
  Quat.lengthSquared qlw = 1 ->
  Quat.lengthSquared qrw = 1 ->
  exists s1 next1 s2 s3 next2,
    afterRender st s = (s1, Ok next1)
    /\ setRobotPosition position_ s1 = (s2, Ok tt)
    /\ afterRender next1 s2 = (s3, Ok next2)
    /\ motorPositions next2 = motorPositions next1.
Proof.
  intros Hs Hb Hl Hr Hub Hul Hur.
  pose proof Hs as [_ [_ Hrots]].
  destruct (Hrots leftWheelRotationPrev) as [ql Hql].
  destruct (Hrots rightWheelRotationPrev) as [qr Hqr].
  destruct (afterRender_run st s pb pl pr qb qlw qrw ql qr Hs Hb Hl Hr Hql Hqr)
    as [s1 [Hrun1 [Hs1 [Hpose1 [Hl1 [Hr1 _]]]]]].
  pose proof (eq_trans (Hpose1 _) Hb) as Hb1.
  pose proof (eq_trans (Hpose1 _) Hl) as Hlw1.
  pose proof (eq_trans (Hpose1 _) Hr) as Hrw1.
  destruct (setRobotPosition_run position_ s1 pb qb (proj1 Hs1) Hb1)
    as [s2 [Hrun2 [Hj2 [Hr2 Hall]]]].
  cbv zeta in Hall.
  set (turn := Quat.multiply
                 (Quat.RotationAxis Vec.Up
                    (Angle.toRadiansValue (posTheta position_)))
                 (Quat.Inverse qb)) in *.
  assert (Hturn : Quat.lengthSquared turn = 1).
  { subst turn.
    rewrite multiply_lengthSquared, Inverse_lengthSquared, RotationAxis_Up_unit,
      Hub. ring. }
  assert (Hs2 : rigBuilt s2).
  { destruct Hs1 as [_ [Hjoints1 Hrots1]]. split; [| split].
    - intro f. destruct (Hall f) as [m [m' [_ [Hm' [_ [[i [Hi _]] _]]]]]]. eauto.
    - intro f. rewrite Hj2. apply Hjoints1.
    - intro f. rewrite Hr2. apply Hrots1. }
  assert (Hpose2 : forall f p q, pose f s1 = Some (p, q) ->
            exists p', pose f s2 = Some (p', Quat.multiply turn q)).
  { intros f p q Hp. destruct (Hall f) as [m [m' [Hm [Hm' [_ [_ [_ Hq]]]]]]].
    unfold pose in Hp |- *. rewrite Hm in Hp. injection Hp as _ Hq1.
    rewrite Hm', Hq, Hq1. eauto. }
  destruct (Hpose2 _ _ _ Hb1) as [pb2 Hb2].
  destruct (Hpose2 _ _ _ Hlw1) as [pl2 Hlw2].
  destruct (Hpose2 _ _ _ Hrw1) as [pr2 Hrw2].
  rewrite <- Hr2 in Hl1, Hr1.
  destruct (afterRender_run
              (mkRobotState (motorSpeeds st)
                 (mkTuple4
                    (at0 (motorPositions st)
                     + wheelRotation ql (Quat.multiply (Quat.Inverse qb) qlw)
                       * WHEEL_TICKS_PER_RADIAN)
                    0 0
                    (at3 (motorPositions st)
                     + wheelRotation qr (Quat.multiply (Quat.Inverse qb) qrw)
                       * WHEEL_TICKS_PER_RADIAN))
                 (servoPositions st) (analogValues st) (digitalValues st))
              s2 pb2 pl2 pr2 _ _ _ _ _ Hs2 Hb2 Hlw2 Hrw2 Hl1 Hr1)
    as [s3 [Hrun3 _]].
  do 5 eexists. split; [exact Hrun1 |]. split; [exact Hrun2 |].
  split; [exact Hrun3 |].
  cbn [motorPositions at0 at3].
  rewrite !relative_rotation_turned by exact Hturn.
  rewrite !wheelRotation_same by (apply relative_unit; assumption).
  f_equal; ring.
Qed.

Lemma reposition_keeps_encoders_witness :
  exists s1 next1 s2 s3 next2,
    afterRender (mkRobotState (mkTuple4 100 0 0 100) (mkTuple4 7 8 9 10)
                              (mkTuple4 1024 0 0 2048) [] [])
                restingRig = (s1, Ok next1)
    /\ setRobotPosition
         (mkRobotPosition (Distance.mk Distance.centimeters 10)
                          (Distance.mk Distance.centimeters 0)
                          (Distance.mk Distance.centimeters 20)
                          (Angle.mk Angle.degrees 90)) s1 = (s2, Ok tt)
    /\ afterRender next1 s2 = (s3, Ok next2)
    /\ motorPositions next2 = motorPositions next1.
Proof.
  apply (reposition_keeps_encoders _ _ restingRig Vec.Zero Vec.Zero Vec.Zero
           Quat.Identity Quat.Identity Quat.Identity);
    try reflexivity; try exact restingRig_rigBuilt;
    unfold Quat.lengthSquared; simpl; ring.
Defined.

(** X9.  [setOrigin] with all root meshes in place puts the
    body root exactly at the frame's position (converted to centimeters;
    the origin when the frame has none) and, the body's rotation having
    been a unit quaternion, gives it the frame's orientation (the identity
    when the frame has none); it schedules no retry, leaves every root mesh
    without a parent and keeps joints and recorded rotations. *)
Theorem setOrigin_places_body (origin : UnitReferenceFrame) (s : Space)
        (pb : Vector3) (qb : Quaternion) :
  rootsBuilt s ->
  pose bodyCompoundRootMesh s = Some (pb, qb) ->
  exists s',
    setOrigin origin s = (s', Ok Repositioned)
    /\ (exists q',
          pose bodyCompoundRootMesh s'
          = Some (UnitVector3.toRaw
                    (match framePosition origin with
                     | Some p => p
                     | None => UnitVector3.zero Distance.centimeters
                     end) Distance.centimeters, q')
          /\ (Quat.lengthSquared qb = 1 ->
              q' = Rotation.toRawQuaternion
                     (match frameOrientation origin with
                      | Some o => o
                      | None => Rotation.identity
                      end)))
    /\ (forall f, exists m', rootMesh s' f = Some m' /\ parent m' = None)
    /\ (forall f, joint s' f = joint s f)
    /\ (forall f, rotation s' f = rotation s f).
Proof.
  intros Hs Hb.
  destruct (stopAndAttach_run s Hs) as [s1 [Hrun1 [Hj1 [Hr1 H1]]]].
  unfold pose in Hb.
  destruct (rootMesh s bodyCompoundRootMesh) as [body |] eqn:Hbody;
    [| discriminate].
  injection Hb as <- <-.
  set (target := UnitVector3.toRaw
                   (match framePosition origin with
                    | Some p => p
                    | None => UnitVector3.zero Distance.centimeters
                    end) Distance.centimeters).
  set (quat := Rotation.toRawQuaternion
                 (match frameOrientation origin with
                  | Some o => o
                  | None => Rotation.identity
                  end)).
  destruct (reposition_run (position body) target (rotationQuaternion body)
              quat s1) as [s' [Hrun [Hj [Hr Hall]]]].
  { intro f. destruct (H1 f) as [m [m' [_ [Hm' [_ [_ [Hpar _]]]]]]]. eauto. }
  exists s'. split.
  - unfold setOrigin. rewrite bind_get.
    rewrite anyRootMeshMissing_false.
    2:{ intro f. destruct (Hs f) as [m [_ [Hm _]]]. eauto. }
    rewrite Hbody, bind_deref_Some.
    erewrite bind_Ok by exact Hrun1.
    fold target quat.
    revert Hrun. unfold bind.
    destruct (moveResetNode _ _ s1) as [s2 [[] | e2]]; [| discriminate].
    destruct (rotateResetNode _ _ _ s2) as [s3 [[] | e3]]; [| discriminate].
    destruct (detach s3) as [s4 [[] | e4]]; [| discriminate].
    intro H. injection H as ->. reflexivity.
  - split; [| split; [| split]].
    + destruct (H1 bodyCompoundRootMesh) as [m [m1 [Hm [Hm1 [Hp1 [Hq1 _]]]]]].
      destruct (Hall bodyCompoundRootMesh)
        as [m1' [m' [Hm1' [Hm' [_ [_ [Hp Hq]]]]]]].
      assert (m1' = m1) by congruence. subst m1'.
      assert (m = body) by congruence. subst m.
      unfold pose. rewrite Hm'. eexists. split.
      * rewrite Hp, Hp1, rotateVector_Zero, add_Zero. reflexivity.
      * intro Hunit. rewrite Hq, Hq1. apply turn_start. exact Hunit.
    + intro f. destruct (Hall f) as [m [m' [_ [Hm' [Hpar _]]]]]. eauto.
    + intro f. rewrite Hj, Hj1. reflexivity.
    + intro f. rewrite Hr, Hr1. reflexivity.
Qed.

Lemma setOrigin_places_body_witness :
  let origin :=
    mkUnitReferenceFrame
      (Some (UnitVector3.fromRaw (mkVector3 10 0 20) Distance.centimeters))
      None None in
  velocities bodyCompoundRootMesh movingRig
  = Some (mkVector3 1 2 3, mkVector3 4 5 6)
  /\ exists s',
       setOrigin origin movingRig = (s', Ok Repositioned)
       /\ pose bodyCompoundRootMesh s'
          = Some (UnitVector3.toRaw
                    (UnitVector3.fromRaw (mkVector3 10 0 20) Distance.centimeters)
                    Distance.centimeters,
                  Rotation.toRawQuaternion Rotation.identity)
       /\ (forall f, exists m', rootMesh s' f = Some m' /\ parent m' = None).
Proof.
  intro origin. split; [reflexivity |].
  destruct (setOrigin_places_body origin movingRig Vec.Zero Quat.Identity
              movingRig_rootsBuilt eq_refl)
    as [s' [Hrun [[q' [Hp Hq]] [Hpar _]]]].
  exists s'. split; [exact Hrun |]. split; [| exact Hpar].
  rewrite Hp, Hq; [reflexivity |].
  unfold Quat.lengthSquared; simpl. ring.
Defined.

(** X10.  [setOrigin] called while a root mesh is still missing does
    nothing to the rig: no velocity is reset, nothing is parented or moved,
    nothing is thrown; it only schedules itself again after 100 ms.  With
    all five root meshes present it never schedules a retry. *)
Theorem setOrigin_retries_until_loaded (origin : UnitReferenceFrame) (s : Space) :
  ((exists f, rootMesh s f = None) ->
   setOrigin origin s = (s, Ok (RetryScheduled 100)))
  /\ ((forall f, exists m, rootMesh s f = Some m) ->
      forall delay, snd (setOrigin origin s) <> Ok (RetryScheduled delay)).
Proof.
  split.
  - intros [f H]. unfold setOrigin. rewrite bind_get.
    assert (E : anyRootMeshMissing s = true).
    { unfold anyRootMeshMissing, rootMeshes. simpl.
      destruct f; rewrite H;
        repeat match goal with
               | |- context [ rootMesh s ?g ] => destruct (rootMesh s g)
               end; reflexivity. }
    rewrite E. reflexivity.
  - intros Hall delay. unfold setOrigin. rewrite bind_get.
    rewrite (anyRootMeshMissing_false s Hall).
    unfold bind.
    repeat match goal with
           | |- context [ match ?m s with _ => _ end ] =>
               destruct (m s) as [? [? | ?]]
           | |- context [ match ?m ?s0 with (_, _) => _ end ] =>
               destruct (m s0) as [? [? | ?]]
           end; simpl; discriminate.
Qed.

Lemma setOrigin_retries_until_loaded_witness :
  setOrigin emptyFrame completeModel = (completeModel, Ok (RetryScheduled 100)).
Proof.
  apply (proj1 (setOrigin_retries_until_loaded emptyFrame completeModel)).
  exists bodyCompoundRootMesh. reflexivity.
Defined.

(** ** Wheel drive, continued *)

Lemma velocities_setJoint (f : JointField) (j : option MotorEnabledJoint)
      (g : RootMeshField) (s : Space) :
  velocities g (setJoint f j s) = velocities g s.
Proof. reflexivity. Qed.

(** X11.  [setDriveMotors] on a built rig: a wheel whose commanded speed
    is exactly 0 has its angular velocity set to zero at once, a wheel with
    any other speed keeps the velocity the physics engine gave it; no
    linear velocity, no pose and no root mesh other than the two wheels is
    touched. *)
Theorem setDriveMotors_stops_idle_wheels (leftSpeed rightSpeed : R) (s : Space) :
  rigBuilt s ->
  exists s',
    setDriveMotors leftSpeed rightSpeed s = (s', Ok tt)
    /\ (leftSpeed = 0 ->
        option_map snd (velocities colliderLeftWheelMesh s') = Some Vec.Zero)
    /\ (leftSpeed <> 0 ->
        rootMesh s' colliderLeftWheelMesh = rootMesh s colliderLeftWheelMesh)
    /\ (rightSpeed = 0 ->
        option_map snd (velocities colliderRightWheelMesh s') = Some Vec.Zero)
    /\ (rightSpeed <> 0 ->
        rootMesh s' colliderRightWheelMesh = rootMesh s colliderRightWheelMesh)
    /\ (forall f, f <> colliderLeftWheelMesh -> f <> colliderRightWheelMesh ->
        rootMesh s' f = rootMesh s f)
    /\ (forall f, option_map fst (velocities f s')
                  = option_map fst (velocities f s))
    /\ (forall f, pose f s' = pose f s).
Proof.
  intros [Hroots [Hjoints Hrots]].
  destruct (Hjoints leftWheelJoint) as [jl Hl].
  destruct (Hjoints rightWheelJoint) as [jr Hr].
  unfold setDriveMotors. rewrite bind_get, Hl, Hr. cbv zeta.
  erewrite bind_Ok.
  2:{ erewrite bind_Ok by (apply setMotor_Ok; exact Hl).
      apply setMotor_Ok.
      rewrite joint_setJoint_other by discriminate. exact Hr. }
  set (s2 := setJoint rightWheelJoint _ _).
  assert (Hrm2 : rootMesh s2 = rootMesh s) by reflexivity.
  clearbody s2.
  assert (Hstep : forall (c : R) (f : RootMeshField) (s0 : Space),
            (forall g, exists m i, rootMesh s0 g = Some m
                                   /\ physicsImpostor m = Some i) ->
            exists s1,
              (if Req_dec_T c 0 then setAngularVelocity f Vec.Zero else ret tt) s0
              = (s1, Ok tt)
              /\ (c = 0 -> option_map snd (velocities f s1) = Some Vec.Zero)
              /\ (c <> 0 -> s1 = s0)
              /\ (forall g, g <> f -> rootMesh s1 g = rootMesh s0 g)
              /\ (forall g, option_map fst (velocities g s1)
                            = option_map fst (velocities g s0))
              /\ (forall g, pose g s1 = pose g s0)
              /\ (forall g, exists m i, rootMesh s1 g = Some m
                                        /\ physicsImpostor m = Some i)).
  { intros c f s0 H0. destruct (Req_dec_T c 0) as [Hc | Hc].
    - destruct (H0 f) as [m [i [Hm Hi]]].
      destruct (setAngularVelocity_Ok f Vec.Zero s0 m i Hm Hi)
        as [s1 [m1 [Hrun [Hsame [Hm1 [_ Hi1]]]]]].
      exists s1. split; [exact Hrun |].
      pose proof Hsame as [_ [_ [Ho _]]].
      split; [| split; [| split; [| split; [| split]]]].
      + intros _. unfold velocities. rewrite Hm1, Hi1. reflexivity.
      + intro. contradiction.
      + exact Ho.
      + intro g. destruct (RootMeshField_eq_dec g f) as [-> | Hne].
        * unfold velocities. rewrite Hm1, Hi1, Hm, Hi. reflexivity.
        * unfold velocities. rewrite (Ho g Hne). reflexivity.
      + apply (sameButRoot_pose f). exact Hsame.
      + intro g. destruct (RootMeshField_eq_dec g f) as [-> | Hne].
        * eauto.
        * rewrite (Ho g Hne). apply H0.
    - exists s0. split; [reflexivity |]. repeat split; auto.
      intro. contradiction. }
  destruct (Hstep leftSpeed colliderLeftWheelMesh s2)
    as [s3 [Hrun3 [Hz3 [Hn3 [Ho3 [Hl3 [Hp3 Hb3]]]]]]].
  { intro g. rewrite Hrm2. apply Hroots. }
  destruct (Hstep rightSpeed colliderRightWheelMesh s3 Hb3)
    as [s4 [Hrun4 [Hz4 [Hn4 [Ho4 [Hl4 [Hp4 _]]]]]]].
  exists s4. split.
  - erewrite bind_Ok by exact Hrun3. exact Hrun4.
  - split; [| split; [| split; [| split; [| split; [| split]]]]].
    + intro Hz. unfold velocities. rewrite Ho4 by discriminate.
      apply (Hz3 Hz).
    + intro Hz. rewrite Ho4 by discriminate. rewrite (Hn3 Hz), Hrm2. reflexivity.
    + exact Hz4.
    + intro Hz. rewrite (Hn4 Hz), Ho3 by discriminate. rewrite Hrm2. reflexivity.
    + intros f Hf1 Hf2. rewrite Ho4, Ho3, Hrm2 by assumption. reflexivity.
    + intro f. rewrite Hl4, Hl3. unfold velocities. rewrite Hrm2. reflexivity.
    + intro f. rewrite Hp4, Hp3. unfold pose. rewrite Hrm2. reflexivity.
Qed.

Lemma movingRig_rigBuilt : rigBuilt movingRig.
Proof.
  split; [exact movingRig_rootsBuilt |]. split.
  - intros []; eexists; reflexivity.
  - intros []; eexists; reflexivity.
Qed.

(** The moving rig, left speed 0 and right speed 100: the left wheel, which
    was turning at (4, 5, 6), stops turning and keeps its linear velocity;
    the right wheel is left as it is. *)
Lemma setDriveMotors_stops_idle_wheels_witness :
  velocities colliderLeftWheelMesh movingRig
  = Some (mkVector3 1 2 3, mkVector3 4 5 6)
  /\ exists s',
       setDriveMotors 0 100 movingRig = (s', Ok tt)
       /\ option_map snd (velocities colliderLeftWheelMesh s') = Some Vec.Zero
       /\ option_map fst (velocities colliderLeftWheelMesh s')
          = Some (mkVector3 1 2 3)
       /\ velocities colliderRightWheelMesh s'
          = Some (mkVector3 1 2 3, mkVector3 4 5 6).
Proof.
  split; [reflexivity |].
  destruct (setDriveMotors_stops_idle_wheels 0 100 movingRig movingRig_rigBuilt)
    as [s' [Hrun [Hl [_ [_ [Hr [_ [Hlin _]]]]]]]].
  exists s'. split; [exact Hrun |]. split; [apply Hl; reflexivity |].
  split.
  - rewrite Hlin. reflexivity.
  - unfold velocities. rewrite Hr by lra. reflexivity.
Defined.

(** X12.  [setDriveMotors] before the rig is loaded: with a wheel joint
    still unset no motor command is issued; with both speeds non-zero the
    call then does nothing at all, but a speed of exactly 0 makes it
    dereference the missing wheel mesh and throw a [TypeError]. *)
Theorem setDriveMotors_before_loading (leftSpeed rightSpeed : R) (s : Space) :
  (joint s leftWheelJoint = None \/ joint s rightWheelJoint = None) ->
  (forall f, joint (fst (setDriveMotors leftSpeed rightSpeed s)) f = joint s f)
  /\ (leftSpeed <> 0 -> rightSpeed <> 0 ->
      setDriveMotors leftSpeed rightSpeed s = (s, Ok tt))
  /\ (leftSpeed = 0 -> rootMesh s colliderLeftWheelMesh = None ->
      setDriveMotors leftSpeed rightSpeed s = (s, Throw TypeError))
  /\ (leftSpeed <> 0 -> rightSpeed = 0 ->
      rootMesh s colliderRightWheelMesh = None ->
      setDriveMotors leftSpeed rightSpeed s = (s, Throw TypeError)).
Proof.
  intro Hj.
  assert (E : setDriveMotors leftSpeed rightSpeed s
              = bind (if Req_dec_T leftSpeed 0
                      then setAngularVelocity colliderLeftWheelMesh Vec.Zero
                      else ret tt)
                     (fun _ => if Req_dec_T rightSpeed 0
                               then setAngularVelocity colliderRightWheelMesh Vec.Zero
                               else ret tt) s).
  { unfold setDriveMotors. rewrite bind_get.
    destruct Hj as [Hj | Hj]; rewrite Hj;
      [| destruct (joint s leftWheelJoint)]; reflexivity. }
  rewrite E. split; [| split; [| split]].
  - intro f. unfold bind.
    destruct (Req_dec_T leftSpeed 0); destruct (Req_dec_T rightSpeed 0);
      unfold ret; cbv beta iota;
      repeat match goal with
             | |- context [ setAngularVelocity ?g ?v ?s0 ] =>
                 let H := fresh "H" in
                 pose proof (setAngularVelocity_joint g v s0) as H;
                 destruct (setAngularVelocity g v s0) as [? [[] | ?]];
                 simpl in H
             end; simpl; congruence.
  - intros Hl Hr.
    destruct (Req_dec_T leftSpeed 0); [contradiction |].
    destruct (Req_dec_T rightSpeed 0); [contradiction |]. reflexivity.
  - intros Hl Hm.
    destruct (Req_dec_T leftSpeed 0); [| contradiction].
    unfold bind, setAngularVelocity. rewrite bind_get, Hm. reflexivity.
  - intros Hl Hr Hm.
    destruct (Req_dec_T leftSpeed 0); [contradiction |].
    destruct (Req_dec_T rightSpeed 0); [| contradiction].
    rewrite bind_ret. unfold setAngularVelocity. rewrite bind_get, Hm. reflexivity.
Qed.

Lemma setDriveMotors_before_loading_witness :
  setDriveMotors 0 100 completeModel = (completeModel, Throw TypeError)
  /\ setDriveMotors 100 100 completeModel = (completeModel, Ok tt).
Proof.
  split.
  - destruct (setDriveMotors_before_loading 0 100 completeModel
                (or_introl eq_refl)) as [_ [_ [H _]]].
    apply H; reflexivity.
  - destruct (setDriveMotors_before_loading 100 100 completeModel
                (or_introl eq_refl)) as [_ [H _]].
    apply H; lra.
Defined.

(** ** Servo drive, continued *)








(** ** State reconciler, continued *)

(** A position converted for the store lies at distance 0 from the engine
    position it was converted from. *)
Lemma distance_toTypeGranular (b : Vector3) (ux uy uz : Distance.Unit) :
  Distance.value
    (UnitVector3.distance
       (UnitVector3.toTypeGranular (UnitVector3.fromRaw b Distance.centimeters)
                                   ux uy uz)
       (UnitVector3.fromRaw b Distance.centimeters)) = 0.
Proof.
  pose proof (metersPerUnit_pos ux). pose proof (metersPerUnit_pos uy).
  pose proof (metersPerUnit_pos uz).
  unfold UnitVector3.distance, UnitVector3.toRaw, UnitVector3.toTypeGranular,
    UnitVector3.fromRaw, Distance.toType, Vec.subtract, Vec.length,
    Vec.lengthSquared.
  cbn [Distance.value Distance.type UnitVector3.x UnitVector3.y UnitVector3.z
       vx vy vz].
  match goal with
  | |- sqrt ?e = 0 => replace e with 0; [apply sqrt_0 |]
  end.
  cbn [Distance.metersPerUnit]. field. lra.
Qed.

(** A unit rotation converted for the store is at angle 0 from the engine
    rotation it was converted from. *)
Lemma angle_toType (q : Quaternion) (k : Rotation.Kind) :
  Quat.lengthSquared q = 1 ->
  Angle.value
    (Angle.toRadians
       (Rotation.angle
          (Rotation.toType (Rotation.fromRawQuaternion q Rotation.euler) k)
          (Rotation.fromRawQuaternion q Rotation.euler))) = 0.
Proof.
  intro H. unfold Quat.lengthSquared in H.
  unfold Rotation.angle, Rotation.toType, Rotation.fromRawQuaternion,
    Angle.toRadians, Angle.toType.
  cbn [Rotation.raw Angle.value Angle.type Angle.radiansPerUnit].
  rewrite H.
  replace (2 * 1 * 1 - 1) with 1 by ring.
  rewrite acos_1. field.
Qed.

(** X14.  The reconciler settles: once the store has adopted the change
    [getSignificantOriginChange] reported for a node (the spread of the old
    origin and the change, as [updateStore_] dispatches it), the same
    comparison against the same engine node reports no change any more,
    unit rotation quaternions assumed. *)
Theorem reconciler_settles (origin change : UnitReferenceFrame) (bNode : BNode) :
  (forall p q, bNode = BTransformNode p (Some q) -> Quat.lengthSquared q = 1) ->
  getSignificantOriginChange origin bNode = Ok change ->
  getSignificantOriginChange (spreadFrame origin change) bNode = Ok emptyFrame
  /\ isSignificant emptyFrame = false.
Proof.
  intros Hunit Hchange. split; [| reflexivity].
  assert (Hgen : forall (p : Vector3) (r : option Quaternion),
            (forall q, r = Some q -> Quat.lengthSquared q = 1) ->
            getSignificantOriginChange origin (BTransformNode p r) = Ok change ->
            getSignificantOriginChange (spreadFrame origin change)
                                       (BTransformNode p r) = Ok emptyFrame).
  { intros p r Hr H.
    destruct (getSignificantOriginChange_TransformNode origin p r)
      as [c [Hc [Hp1 [Hp2 [Ho [Hon Hs]]]]]].
    cbv zeta in Hp1, Hp2, Ho.
    assert (c = change) by congruence. subst c.
    destruct (getSignificantOriginChange_TransformNode
                (spreadFrame origin change) p r)
      as [c' [Hc' [_ [Hp2' [Ho' [Hon' Hs']]]]]].
    cbv zeta in Hp2', Ho'.
    rewrite Hc'. f_equal. rewrite (frame_eta c'). unfold emptyFrame.
    rewrite Hs'. f_equal.
    - apply Hp2'.
      destruct (Rle_or_lt
                  (Distance.value
                     (UnitVector3.distance (positionOrZero origin)
                        (UnitVector3.fromRaw p Distance.centimeters))) 0.005)
        as [Hnear | Hfar].
      + unfold positionOrZero in Hnear |- *. unfold spreadFrame.
        cbn [framePosition]. rewrite (Hp2 Hnear). exact Hnear.
      + unfold positionOrZero at 1. unfold spreadFrame. cbn [framePosition].
        rewrite (Hp1 Hfar). rewrite distance_toTypeGranular. lra.
    - destruct r as [q |]; [| apply Hon'; reflexivity].
      destruct (Ho q eq_refl) as [Ho1 Ho2].
      destruct (Ho' q eq_refl) as [_ Ho2'].
      apply Ho2'.
      destruct (Rle_or_lt
                  (Angle.value
                     (Angle.toRadians
                        (Rotation.angle (orientationOrIdentity origin)
                           (Rotation.fromRawQuaternion q Rotation.euler))))
                  0.00872665) as [Hnear | Hfar].
      + unfold orientationOrIdentity in Hnear |- *. unfold spreadFrame.
        cbn [frameOrientation]. rewrite (Ho2 Hnear). exact Hnear.
      + unfold orientationOrIdentity at 1. unfold spreadFrame.
        cbn [frameOrientation]. rewrite (Ho1 Hfar).
        rewrite angle_toType by (apply Hr; reflexivity). lra. }
  destruct bNode as [p r | p | n].
  - apply Hgen; [| exact Hchange].
    intros q ->. apply (Hunit p q). reflexivity.
  - apply (Hgen p (Some Quat.Identity)); [| exact Hchange].
    intros q [= <-]. unfold Quat.lengthSquared; simpl. ring.
  - discriminate.
Qed.

Lemma reconciler_settles_witness :
  getSignificantOriginChange
    (spreadFrame emptyFrame
       (mkUnitReferenceFrame
          (Some (UnitVector3.toTypeGranular
                   (UnitVector3.fromRaw (mkVector3 1 0 0) Distance.centimeters)
                   Distance.meters Distance.meters Distance.meters))
          None None))
    (BTransformNode (mkVector3 1 0 0) (Some Quat.Identity)) = Ok emptyFrame.
Proof.
  apply (reconciler_settles emptyFrame).
  - intros p q [= _ <-]. unfold Quat.lengthSquared; simpl. ring.
  - unfold getSignificantOriginChange. cbv zeta. f_equal. f_equal.
    + assert (E : Distance.value
                    (UnitVector3.distance (positionOrZero emptyFrame)
                       (UnitVector3.fromRaw (mkVector3 1 0 0)
                                            Distance.centimeters)) = 1 / 100).
      { unfold positionOrZero, emptyFrame. cbn [framePosition].
        rewrite (distance_from_origin Distance.meters 1) by lra. reflexivity. }
      rewrite E. destruct (Rgt_dec (1 / 100) 0.005); [reflexivity | lra].
    + fold (Rotation.fromRawQuaternion Quat.Identity Rotation.euler).
      unfold orientationOrIdentity, emptyFrame. cbn [frameOrientation].
      rewrite identity_angle.
      destruct (Rgt_dec 0 0.00872665); [lra | reflexivity].
Defined.

(** The entries [updateStore_] pushes onto the batch: nodes of the working
    scene found in the engine, with nothing but their origin replaced. *)
Lemma significantNodes_entries (engine : list BNodeEntry)
      (nodes ids : list (string * Node)) :
  significantNodes engine nodes = Ok ids ->
  forall id n', In (id, n') ids ->
    exists n o b,
      In (id, n) nodes /\ n' = withOrigin (Some o) n
      /\ lookupBNode engine id (nodeLabel n) = Some b.
Proof.
  revert ids. induction nodes as [| [nodeId node] rest IH]; intros ids H id n' Hin.
  - injection H as <-. contradiction.
  - simpl in H.
    destruct (lookupBNode engine nodeId (nodeLabel node)) as [b |] eqn:Hb.
    + destruct (getSignificantOriginChange _ b) as [c | e]; [| discriminate].
      destruct (significantNodes engine rest) as [more | e]; [| discriminate].
      destruct (isSignificant c); injection H as <-.
      * destruct Hin as [Heq | Hin].
        -- injection Heq as <- <-. do 3 eexists.
           split; [left; reflexivity |]. split; [reflexivity | exact Hb].
        -- destruct (IH more eq_refl id n' Hin) as [n [o [b' [H1 H2]]]].
           exists n, o, b'. split; [right; exact H1 | exact H2].
      * destruct (IH more eq_refl id n' Hin) as [n [o [b' [H1 H2]]]].
        exists n, o, b'. split; [right; exact H1 | exact H2].
    + destruct (IH ids H id n' Hin) as [n [o [b' [H1 H2]]]].
      exists n, o, b'. split; [right; exact H1 | exact H2].
Qed.

Lemma getSignificantOriginChange_Throw (origin : UnitReferenceFrame)
      (b : BNode) (e : Exn) :
  getSignificantOriginChange origin b = Throw e ->
  exists c, b = BOther c /\ e = JsError ("Unknown node type: " ++ c).
Proof.
  destruct b as [p r | p | c]; try discriminate.
  intro H. injection H as <-. eauto.
Qed.

Lemma significantNodes_Throw (engine : list BNodeEntry)
      (nodes : list (string * Node)) (e : Exn) :
  significantNodes engine nodes = Throw e ->
  exists id n c,
    In (id, n) nodes
    /\ lookupBNode engine id (nodeLabel n) = Some (BOther c)
    /\ e = JsError ("Unknown node type: " ++ c).
Proof.
  induction nodes as [| [nodeId node] rest IH]; intro H; [discriminate |].
  simpl in H.
  destruct (lookupBNode engine nodeId (nodeLabel node)) as [b |] eqn:Hb.
  - destruct (getSignificantOriginChange _ b) as [c | e'] eqn:Hc.
    + destruct (significantNodes engine rest) as [more | e'].
      * destruct (isSignificant c); discriminate.
      * injection H as ->. destruct (IH eq_refl) as [id [n [c' [H1 H2]]]].
        exists id, n, c'. split; [right; exact H1 | exact H2].
    + injection H as ->.
      destruct (getSignificantOriginChange_Throw _ _ _ Hc) as [c [-> ->]].
      exists nodeId, node, c. split; [left; reflexivity |]. split; [exact Hb | reflexivity].
  - destruct (IH H) as [id [n [c' [H1 H2]]]].
    exists id, n, c'. split; [right; exact H1 | exact H2].
Qed.

(** X15.  What [updateStore_] dispatches.  When it returns, it has
    dispatched at most one [setNodeBatch], never an empty one, followed by
    at most one [setRobotOrigin], both with [modifyReferenceScene] false;
    every batch entry is a node of the working scene that the engine
    knows, with only its origin replaced.  When it throws, it has
    dispatched nothing, and either a node of the working scene resolves to
    an engine node of an unknown class (the error names that class) or the
    body root mesh does not exist yet (a [TypeError]). *)
Theorem updateStore_dispatches (nodes : list (string * Node))
        (robotOrigin_ : option UnitReferenceFrame) (engine : list BNodeEntry)
        (body : option Mesh) :
  (forall actions,
      updateStore_ nodes robotOrigin_ engine body = Ok actions ->
      exists batch robot,
        actions = batch ++ robot
        /\ (batch = []
            \/ exists ids,
                 ids <> [] /\ batch = [SetNodeBatch ids false]
                 /\ forall id n', In (id, n') ids ->
                      exists n o b,
                        In (id, n) nodes /\ n' = withOrigin (Some o) n
                        /\ lookupBNode engine id (nodeLabel n) = Some b)
        /\ (robot = [] \/ exists o, robot = [SetRobotOrigin o false])
        /\ body <> None)
  /\ (forall e,
         updateStore_ nodes robotOrigin_ engine body = Throw e ->
         (e = TypeError /\ body = None)
         \/ exists id n c,
              In (id, n) nodes
              /\ lookupBNode engine id (nodeLabel n) = Some (BOther c)
              /\ e = JsError ("Unknown node type: " ++ c)).
Proof.
  unfold updateStore_. split.
  - intros actions H.
    destruct (significantNodes engine nodes) as [ids | e] eqn:Hids; [| discriminate].
    destruct body as [m |]; [| discriminate]. cbn [bNodeOfMesh] in H.
    destruct (getSignificantOriginChange _ _) as [c | e]; [| discriminate].
    injection H as <-. do 2 eexists. split; [reflexivity |].
    split; [| split; [| discriminate]].
    + destruct ids as [| i ids']; [left; reflexivity |].
      right. exists (i :: ids'). split; [discriminate |]. split; [reflexivity |].
      apply (significantNodes_entries engine nodes). exact Hids.
    + destruct (isSignificant c); [right; eauto | left; reflexivity].
  - intros e H.
    destruct (significantNodes engine nodes) as [ids | e'] eqn:Hids.
    + destruct body as [m |].
      * cbn [bNodeOfMesh] in H.
        destruct (getSignificantOriginChange _ _) as [c | e''] eqn:Hc;
          [discriminate |].
        destruct (getSignificantOriginChange_Throw _ _ _ Hc) as [c [Hb _]].
        discriminate.
      * left. injection H as <-. split; reflexivity.
    + injection H as <-. right. apply significantNodes_Throw. exact Hids.
Qed.

(** A can stored at the origin whose body stands 0.6 cm away. *)
Lemma significantNodes_can_moved :
  significantNodes (engineWithCanAt 0.6)
                   [("can"%string, nodeAtOrigin Distance.centimeters)]
  = Ok [("can"%string,
         withOrigin
           (Some (mkUnitReferenceFrame
                    (Some (UnitVector3.toTypeGranular
                             (UnitVector3.fromRaw (mkVector3 0.6 0 0)
                                                  Distance.centimeters)
                             Distance.centimeters Distance.centimeters
                             Distance.centimeters))
                    None None))
           (nodeAtOrigin Distance.centimeters))].
Proof.
  destruct (getSignificantOriginChange_TransformNode
              (mkUnitReferenceFrame
                 (Some (UnitVector3.zero Distance.centimeters)) None None)
              (mkVector3 0.6 0 0) None)
    as [change [Hrun [Hgt [_ [_ [Hnone Hs]]]]]].
  rewrite (significantNodes_single (engineWithCanAt 0.6) "can"%string
             (nodeAtOrigin Distance.centimeters)
             (BTransformNode (mkVector3 0.6 0 0) None) change eq_refl Hrun).
  assert (Hp : framePosition change
               = Some (UnitVector3.toTypeGranular
                         (UnitVector3.fromRaw (mkVector3 0.6 0 0)
                                              Distance.centimeters)
                         Distance.centimeters Distance.centimeters
                         Distance.centimeters)).
  { apply Hgt.
    change (positionOrZero _) with (UnitVector3.zero Distance.centimeters).
    rewrite distance_from_origin by lra. lra. }
  rewrite (frame_eta change), Hp, (Hnone eq_refl), Hs. reflexivity.
Qed.

(** A can that has moved by 0.6 cm, the robot standing at its origin: one
    batch with the can is dispatched and no robot origin; with the body
    root missing, a [TypeError] and no dispatch. *)
Lemma updateStore_dispatches_witness :
  let nodes := [("can"%string, nodeAtOrigin Distance.centimeters)] in
  let engine := engineWithCanAt 0.6 in
  let moved :=
    withOrigin
      (Some (mkUnitReferenceFrame
               (Some (UnitVector3.toTypeGranular
                        (UnitVector3.fromRaw (mkVector3 0.6 0 0)
                                             Distance.centimeters)
                        Distance.centimeters Distance.centimeters
                        Distance.centimeters))
               None None))
      (nodeAtOrigin Distance.centimeters) in
  (updateStore_ nodes None engine (Some restingBody)
   = Ok [SetNodeBatch [("can"%string, moved)] false]
   /\ exists batch robot,
        [SetNodeBatch [("can"%string, moved)] false] = batch ++ robot
        /\ (batch = []
            \/ exists ids,
                 ids <> [] /\ batch = [SetNodeBatch ids false]
                 /\ forall id n', In (id, n') ids ->
                      exists n o b,
                        In (id, n) nodes /\ n' = withOrigin (Some o) n
                        /\ lookupBNode engine id (nodeLabel n) = Some b)
        /\ (robot = [] \/ exists o, robot = [SetRobotOrigin o false])
        /\ Some restingBody <> None)
  /\ (updateStore_ nodes None engine None = Throw TypeError
      /\ ((TypeError = TypeError /\ @None Mesh = None)
          \/ exists id n c,
               In (id, n) nodes
               /\ lookupBNode engine id (nodeLabel n) = Some (BOther c)
               /\ TypeError = JsError ("Unknown node type: " ++ c))).
Proof.
  intros nodes engine moved.
  assert (E1 : updateStore_ nodes None engine (Some restingBody)
               = Ok [SetNodeBatch [("can"%string, moved)] false]).
  { unfold updateStore_. subst nodes engine.
    rewrite significantNodes_can_moved. cbn [bNodeOfMesh].
    change (position restingBody) with Vec.Zero.
    change (rotationQuaternion restingBody) with Quat.Identity.
    rewrite getSignificantOriginChange_body_at_origin. reflexivity. }
  assert (E2 : updateStore_ nodes None engine None = Throw TypeError).
  { unfold updateStore_. subst nodes engine.
    rewrite significantNodes_can_moved. reflexivity. }
  split; (split; [assumption |]).
  - apply (proj1 (updateStore_dispatches nodes None engine (Some restingBody)) _ E1).
  - apply (proj2 (updateStore_dispatches nodes None engine None) _ E2).
Defined.

(** ** The scene-change listener, continued *)

(** What holds of the listener between any two events. *)
Lemma step_physics (s : Sync) (e : Event) :
  oneAtOnce s -> physicsEnabled s = negb (sceneSetting_ s) ->
  physicsEnabled (step s e) = negb (sceneSetting_ (step s e)).
Proof.
  destruct s as [d ss l p b ts c]. unfold oneAtOnce. simpl.
  intros [-> [[-> ->] | [-> [t ->]]]] ->.
  - destruct e as [ws | ws | i]; simpl; try reflexivity.
    destruct i; reflexivity.
  - destruct e as [ws | ws | i]; simpl; try reflexivity.
    destruct i as [| i]; simpl.
    + destruct t as [ws | ws latest]; simpl; [| reflexivity].
      destruct (negb (sameScene l ws)); reflexivity.
    + destruct i; reflexivity.
Qed.

(** X16.  The listener's invariant.  Whatever store changes, reconciler
    writes and [setScene] resolutions arrive, in whatever order, starting
    from a listener at rest with physics enabled: at most one scene change
    is being applied at any time (one suspended function exactly while
    [sceneSetting_] is set, none otherwise), the debounce flag is clear
    between events, and physics is disabled exactly while a scene change is
    being applied. *)
Theorem listener_invariant (events : list Event) (shown : option SceneRef) :
  let s := run (initialSync true shown) events in
  debounceUpdate_ s = false
  /\ (List.length (tasks s) <= 1)%nat
  /\ (sceneSetting_ s = true <-> tasks s <> [])
  /\ physicsEnabled s = negb (sceneSetting_ s).
Proof.
  intro s. subst s.
  assert (H : oneAtOnce (run (initialSync true shown) events)
              /\ physicsEnabled (run (initialSync true shown) events)
                 = negb (sceneSetting_ (run (initialSync true shown) events))).
  { assert (H0 : oneAtOnce (initialSync true shown)
                 /\ physicsEnabled (initialSync true shown)
                    = negb (sceneSetting_ (initialSync true shown))).
    { split; [apply initialSync_oneAtOnce | reflexivity]. }
    revert H0. generalize (initialSync true shown).
    induction events as [| e events IH]; intros s0 [H1 H2]; [split; assumption |].
    apply (IH (step s0 e)). split.
    - apply step_oneAtOnce. exact H1.
    - apply step_physics; assumption. }
  destruct H as [[Hd Hone] Hp].
  split; [exact Hd |]. split; [| split; [| exact Hp]].
  - destruct Hone as [[_ ->] | [_ [t ->]]]; simpl; lia.
  - destruct Hone as [[-> ->] | [-> [t ->]]]; split; intro H;
      try reflexivity; try discriminate; congruence.
Qed.

(** A scene that a store change of [events] asked for. *)
Lemma requested_app (events more : list Event) (c : option SceneRef) :
  (exists w, c = Some w /\ In (StoreChange w) events) ->
  exists w, c = Some w /\ In (StoreChange w) (events ++ more).
Proof.
  intros [w [H1 H2]]. exists w. split; [exact H1 |].
  apply in_or_app. left. exact H2.
Qed.

Lemma step_requested (s : Sync) (e : Event) (seen : list Event) :
  oneAtOnce s ->
  Forall (fun c => exists w, c = Some w /\ In (StoreChange w) seen)
         (setSceneCalls s) ->
  (sceneSetting_ s = true ->
   exists w, latestUnfulfilledScene_ s = Some w /\ In (StoreChange w) seen) ->
  Forall (fun c => exists w, c = Some w /\ In (StoreChange w) (seen ++ [e]))
         (setSceneCalls (step s e))
  /\ (sceneSetting_ (step s e) = true ->
      exists w, latestUnfulfilledScene_ (step s e) = Some w
                /\ In (StoreChange w) (seen ++ [e])).
Proof.
  intros Hone Hcalls Hlatest.
  assert (Hcalls' : Forall (fun c => exists w, c = Some w
                                      /\ In (StoreChange w) (seen ++ [e]))
                           (setSceneCalls s)).
  { eapply Forall_impl; [| exact Hcalls]. intros c. apply requested_app. }
  assert (Hlatest' : sceneSetting_ s = true ->
                     exists w, latestUnfulfilledScene_ s = Some w
                               /\ In (StoreChange w) (seen ++ [e])).
  { intro H. apply requested_app. apply Hlatest. exact H. }
  assert (Hnew : forall w, e = StoreChange w ->
                 exists w', Some w = Some w' /\ In (StoreChange w') (seen ++ [e])).
  { intros w ->. exists w. split; [reflexivity |].
    apply in_or_app. right. left. reflexivity. }
  clear Hcalls Hlatest.
  destruct s as [d ss l p b ts c]. unfold oneAtOnce in Hone. simpl in *.
  destruct Hone as [-> [[-> ->] | [-> [t ->]]]].
  - destruct e as [ws | ws | i]; simpl.
    + split; [| intros _; apply Hnew; reflexivity].
      apply Forall_app. split; [exact Hcalls' |].
      constructor; [apply Hnew; reflexivity | constructor].
    + split; [exact Hcalls' | exact Hlatest'].
    + destruct i; simpl; split; assumption.
  - destruct e as [ws | ws | i]; simpl.
    + split; [exact Hcalls' | intros _; apply Hnew; reflexivity].
    + split; [exact Hcalls' | exact Hlatest'].
    + destruct i as [| i]; simpl.
      * destruct t as [ws | ws latest]; simpl.
        -- destruct (negb (sameScene l ws)); simpl.
           ++ split; [| exact Hlatest'].
              apply Forall_app. split; [exact Hcalls' |].
              constructor; [apply Hlatest'; reflexivity | constructor].
           ++ split; [exact Hcalls' | discriminate].
        -- split; [exact Hcalls' | discriminate].
      * destruct i; simpl; split; assumption.
Qed.

(** X17.  The listener applies only scenes it was asked for: every argument
    of every [setScene] call it makes, the second call of a coalesced
    change included, is the working scene of a store change that arrived
    from outside the reconciler; it never passes an undefined scene, and
    never a scene written by the reconciler itself. *)
Theorem setScene_calls_were_requested (events : list Event)
        (shown : option SceneRef) (physics : bool) :
  Forall (fun c => exists w, c = Some w /\ In (StoreChange w) events)
         (setSceneCalls (run (initialSync physics shown) events)).
Proof.
  assert (H : forall events seen s,
            oneAtOnce s ->
            Forall (fun c => exists w, c = Some w /\ In (StoreChange w) seen)
                   (setSceneCalls s) ->
            (sceneSetting_ s = true ->
             exists w, latestUnfulfilledScene_ s = Some w
                       /\ In (StoreChange w) seen) ->
            Forall (fun c => exists w, c = Some w
                                       /\ In (StoreChange w) (seen ++ events))
                   (setSceneCalls (run s events))).
  { clear. induction events as [| e events IH]; intros seen s H1 H2 H3.
    - rewrite app_nil_r. exact H2.
    - destruct (step_requested s e seen H1 H2 H3) as [H2' H3'].
      replace (seen ++ e :: events) with ((seen ++ [e]) ++ events)
        by (rewrite <- app_assoc; reflexivity).
      apply (IH (seen ++ [e]) (step s e)); [apply step_oneAtOnce | |]; assumption. }
  apply (H events [] (initialSync physics shown)).
  - apply initialSync_oneAtOnce.
  - constructor.
  - discriminate.
Qed.

(** X18.  Coalescing, from any listener at rest: of the store changes that
    arrive before the first [setScene] resolves only the first and the last
    are applied.  When the last asks for the scene of the first, one
    [setScene] call is made and the listener is at rest again once it
    resolves; otherwise a second call with the last scene follows, the
    listener is at rest once that resolves, and the binding then shows the
    last scene.  The scenes in between are never passed to [setScene]. *)
Theorem coalesce_from_rest (s : Sync) (A : SceneRef) (reqs : list SceneRef) :
  debounceUpdate_ s = false ->
  settled s = true ->
  let L := last reqs A in
  let s1 := run s (StoreChange A :: map StoreChange reqs
                   ++ [SetSceneResolved 0%nat]) in
  let s2 := step s1 (SetSceneResolved 0%nat) in
  bindingScene s1 = Some A
  /\ (L = A ->
      settled s1 = true /\ physicsEnabled s1 = true
      /\ setSceneCalls s1 = setSceneCalls s ++ [Some A])
  /\ (L <> A ->
      settled s1 = false /\ physicsEnabled s1 = false
      /\ settled s2 = true /\ physicsEnabled s2 = true
      /\ bindingScene s2 = Some L
      /\ setSceneCalls s2 = setSceneCalls s ++ [Some A; Some L]).
Proof.
  intros Hd Hs L s1 s2.
  destruct s as [d ss l p b ts c]. simpl in Hd. subst d.
  unfold settled in Hs. simpl in Hs.
  destruct ss; [discriminate |]. destruct ts; [| discriminate]. clear Hs.
  assert (E1 : s1 = step (mkSync false true (Some L) false b [AwaitFirst A]
                                 (c ++ [Some A]))
                         (SetSceneResolved 0%nat)).
  { subst s1.
    change (run (mkSync false false l p b [] c)
                (StoreChange A :: map StoreChange reqs ++ [SetSceneResolved 0%nat]))
      with (run (mkSync false true (Some A) false b [AwaitFirst A] (c ++ [Some A]))
                (map StoreChange reqs ++ [SetSceneResolved 0%nat])).
    rewrite run_app.
    rewrite requests_while_setting by reflexivity.
    cbn [latestUnfulfilledScene_ physicsEnabled bindingScene tasks setSceneCalls].
    replace (last (map Some reqs) (Some A)) with (Some L); [reflexivity |].
    subst L. clear. induction reqs as [| r reqs IH]; [reflexivity |].
    destruct reqs as [| r' reqs]; [reflexivity |].
    change (last (r :: r' :: reqs) A) with (last (r' :: reqs) A).
    change (last (map Some (r :: r' :: reqs)) (Some A))
      with (last (map Some (r' :: reqs)) (Some A)).
    exact IH. }
  subst s2. rewrite E1. clear E1 s1. simpl.
  destruct (Nat.eqb L A) eqn:E; simpl.
  - apply Nat.eqb_eq in E. split; [reflexivity |]. split.
    + intros _. repeat split.
    + intro H. contradiction.
  - apply Nat.eqb_neq in E. split; [reflexivity |]. split.
    + intro H. contradiction.
    + intros _. rewrite <- app_assoc. repeat split.
Qed.

Lemma coalesce_from_rest_witness :
  let s1 := run (initialSync true None)
                (StoreChange 1%nat :: map StoreChange [2%nat; 3%nat; 4%nat]
                 ++ [SetSceneResolved 0%nat]) in
  let s2 := step s1 (SetSceneResolved 0%nat) in
  bindingScene s2 = Some 4%nat
  /\ setSceneCalls s2 = [Some 1%nat; Some 4%nat].
Proof.
  destruct (coalesce_from_rest (initialSync true None) 1%nat
              [2%nat; 3%nat; 4%nat] eq_refl eq_refl) as [_ [_ H]].
  destruct H as [_ [_ [_ [_ [H1 H2]]]]]; [discriminate |].
  split; [exact H1 | exact H2].
Defined.

(** ** Rig construction on a complete model *)

Lemma find_removeFirstMesh_other (n n' : string) (l : list Mesh) :
  n' <> n ->
  find (fun m => String.eqb (name m) n') (removeFirstMesh n l)
  = find (fun m => String.eqb (name m) n') l.
Proof.
  intro Hne. induction l as [| m l IH]; [reflexivity |].
  simpl. destruct (String.eqb (name m) n) eqn:E.
  - apply String.eqb_eq in E.
    destruct (String.eqb (name m) n') eqn:E'; [| reflexivity].
    apply String.eqb_eq in E'. congruence.
  - simpl. destruct (String.eqb (name m) n'); [reflexivity | exact IH].
Qed.

Lemma setNodeParent_run (n p : string) (s : Space) (t : TransformNode) :
  find (fun t => String.eqb (nodeName t) n) (sceneTransformNodes s) = Some t ->
  exists ns,
    setNodeParent n p s = (setSceneTransformNodes ns s, Ok tt)
    /\ map nodeName ns = map nodeName (sceneTransformNodes s).
Proof.
  intro Ht. unfold setNodeParent.
  rewrite bind_getTransformNodeByName, Ht, bind_deref_Some.
  eexists. split; [reflexivity |].
  apply nodeName_updateFirstNode. intros []; reflexivity.
Qed.

Lemma complete_mesh (s0 : Space) (n : string) :
  modelComplete s0 -> In n ("__root__"%string :: modelMeshNames) ->
  exists m, find (fun m => String.eqb (name m) n) (sceneMeshes s0) = Some m.
Proof.
  intros [Hc _] Hn.
  destruct (find _ (sceneMeshes s0)) as [m |] eqn:E; [eauto |].
  exfalso. exact (Hc n Hn E).
Qed.

Lemma complete_anchored (s0 : Space) : modelComplete s0 -> anchored s0.
Proof.
  intros [Hm Hn]. split.
  - intros n Hin. apply Hm. simpl in Hin. unfold modelMeshNames. simpl.
    intuition (subst; tauto).
  - apply Hn. simpl. tauto.
Qed.

Lemma manifest_names :
  map (fun e : string * ImpostorType * string => fst (fst e)) colliderManifest
  = colliderNames.
Proof. reflexivity. Qed.

Lemma loadMeshes_run (sensors : list string) (s0 : Space) :
  modelComplete s0 ->
  exists (s1 : Space) (lw rw lw1 rw1 : Mesh) (pb pa pc : Vector3),
    find (fun m => String.eqb (name m) "collider_left_wheel") (sceneMeshes s0)
    = Some lw
    /\ find (fun m => String.eqb (name m) "collider_right_wheel") (sceneMeshes s0)
       = Some rw
    /\ loadMeshes sensors s0
       = setRobotPosition
           (mkRobotPosition (Distance.mk Distance.centimeters 0)
                            (Distance.mk Distance.centimeters 0)
                            (Distance.mk Distance.centimeters 0)
                            (Angle.mk Angle.degrees 0)) s1
    /\ rootMesh s1 bodyCompoundRootMesh
       = Some (withImpostor (Some (newImpostor NoImpostor 1126 (Some 0.1)))
                 (newRootMesh bodyCompoundMesh pb Quat.Identity))
    /\ rootMesh s1 armCompoundRootMesh
       = Some (withImpostor (Some (newImpostor NoImpostor 132 (Some 5)))
                 (newRootMesh armCompoundMesh pa Quat.Identity))
    /\ rootMesh s1 clawCompoundRootMesh
       = Some (withImpostor (Some (newImpostor NoImpostor 17 (Some 5)))
                 (newRootMesh clawCenterMesh pc (mkQuaternion 0 0 0 1)))
    /\ rootMesh s1 colliderLeftWheelMesh
       = Some (withImpostor (Some (newImpostor CylinderImpostor 14 (Some 25)))
                 (withPickable false (fixNegativeScaling (withParent None lw1))))
    /\ rootMesh s1 colliderRightWheelMesh
       = Some (withImpostor (Some (newImpostor CylinderImpostor 14 (Some 25)))
                 (withPickable false (fixNegativeScaling (withParent None rw1))))
    /\ rotationQuaternion lw1 = rotationQuaternion lw
    /\ rotationQuaternion rw1 = rotationQuaternion rw
    /\ (forall f, exists d, joint s1 f = Some (newJoint d))
    /\ rotation s1 leftWheelRotationPrev
       = Some (Quat.multiply (Quat.Inverse Quat.Identity) (rotationQuaternion lw))
    /\ rotation s1 rightWheelRotationPrev
       = Some (Quat.multiply (Quat.Inverse Quat.Identity) (rotationQuaternion rw))
    /\ rotation s1 armRotationDefault
       = Some (Quat.multiply (Quat.Inverse Quat.Identity) Quat.Identity)
    /\ rotation s1 clawRotationDefault
       = Some (Quat.multiply (Quat.Inverse Quat.Identity) (mkQuaternion 0 0 0 1))
    /\ sensorObjects_ s1 = sensors
    /\ renderLoopRunning s1 = renderLoopRunning s0
    /\ initializationPromise s1 = initializationPromise s0.
Proof.
  intro Hc.
  pose proof (complete_anchored s0 Hc) as Hanch.
  destruct (complete_mesh s0 "collider_left_wheel" Hc) as [lw Hlw];
    [simpl; tauto |].
  destruct (complete_mesh s0 "collider_right_wheel" Hc) as [rw Hrw];
    [simpl; tauto |].
  assert (Hnode : forall n ns, In n modelNodeNames ->
            map nodeName ns = map nodeName (sceneTransformNodes s0) ->
            exists t, find (fun t => String.eqb (nodeName t) n) ns = Some t).
  { intros n ns Hn Hk. apply (find_nodeName n (sceneTransformNodes s0)); [exact Hk |].
    apply (proj2 Hc). exact Hn. }
  (* the scaling of the model and the three compound roots *)
  destruct (placeModel_run s0 Hanch) as [sa [Hrun1 [[Hma Hna] [F1 [F2 [F3 [F4 F5]]]]]]].
  destruct (createCompoundRoots_run s0 sa Hanch (conj Hma Hna))
    as [pb [pa [pc Hrun2]]].
  set (sb := setRootMesh clawCompoundRootMesh _ _) in Hrun2.
  (* the colliders *)
  destruct (attach_run colliderManifest colliderManifest_NoDup sb)
    as [ms [Hrun3 [Hms [_ Hrest]]]].
  { intros e He. subst sb. fields. apply (find_meshKey_found _ _ _ Hma).
    apply (proj1 Hc). right. unfold modelMeshNames.
    rewrite !app_assoc. apply in_or_app. left. rewrite <- !app_assoc.
    change (In (fst (fst e)) colliderNames). rewrite <- manifest_names.
    apply (in_map (fun e => fst (fst e)) _ _ He). }
  assert (Hkey : map meshKey ms = map meshKey (sceneMeshes s0)).
  { rewrite Hms. subst sb. fields. exact Hma. }
  unfold loadMeshes.
  erewrite bind_Ok by exact Hrun1.
  erewrite bind_Ok by exact Hrun2.
  erewrite bind_Ok by (rewrite attachColliders_manifest; exact Hrun3).
  clear Hrun1 Hrun2 Hrun3 Hrest Hms.
  (* the wheels *)
  destruct (find_meshKey _ _ _ _ Hkey Hlw) as [lw1 [Hlw1 Hklw]].
  destruct (find_meshKey _ _ _ _ Hkey Hrw) as [rw1 [Hrw1 Hkrw]].
  unfold findWheels.
  rewrite !bind_assoc, bind_getMeshByName. subst sb. fields.
  rewrite Hlw1. repeat rewrite bind_assoc. rewrite bind_modify.
  unfold holdRootMesh. fields.
  repeat rewrite bind_assoc. rewrite bind_getMeshByName. fields.
  rewrite find_removeFirstMesh_other by discriminate.
  rewrite Hrw1. repeat rewrite bind_assoc. rewrite bind_modify.
  unfold holdRootMesh. fields.
  unfold setParent.
  repeat stepm.
  (* the visual transform nodes *)
  unfold parentVisuals. rewrite !bind_assoc.
  do 6 (repeat rewrite bind_assoc; match goal with
  | |- context [ bind (setNodeParent ?n ?p) ?k ?s ] =>
      let t := fresh "t" in
      let Ht := fresh "Ht" in
      let ns := fresh "ns" in
      let Hrun := fresh "Hrun" in
      let Hns := fresh "Hns" in
      destruct (Hnode n (sceneTransformNodes s)) as [t Ht];
        [simpl; tauto | fields; congruence |];
      destruct (setNodeParent_run n p s t Ht) as [ns [Hrun Hns]];
      rewrite (bind_Ok _ k s _ tt Hrun); clear Hrun Ht;
      fields;
      cbn [sceneTransformNodes setSceneTransformNodes setSceneMeshes setRootMesh]
        in Hns
  end).
  (* recorded rotations and impostors *)
  unfold recordRotations, setRootImpostors, rotationOf. repeat stepm.
  (* the joints *)
  unfold createJoints.
  rewrite !bind_assoc, bind_getTransformNodeByName. fields.
  match goal with
  | |- context [ find (fun t => String.eqb (nodeName t) ?n) ?ns ] =>
      destruct (Hnode n ns) as [horn Hhorn]; [simpl; tauto | congruence |]
  end.
  rewrite Hhorn. repeat stepm.
  rewrite bind_getTransformNodeByName. fields.
  match goal with
  | |- context [ find (fun t => String.eqb (nodeName t) ?n) ?ns ] =>
      destruct (Hnode n ns) as [washer1 Hwasher1]; [simpl; tauto | congruence |]
  end.
  rewrite Hwasher1. repeat stepm.
  rewrite bind_getTransformNodeByName. fields.
  match goal with
  | |- context [ find (fun t => String.eqb (nodeName t) ?n) ?ns ] =>
      destruct (Hnode n ns) as [washer2 Hwasher2]; [simpl; tauto | congruence |]
  end.
  rewrite Hwasher2. repeat stepm.
  assert (Hqlw : rotationQuaternion lw1 = rotationQuaternion lw)
    by (unfold meshKey in Hklw; congruence).
  assert (Hqrw : rotationQuaternion rw1 = rotationQuaternion rw)
    by (unfold meshKey in Hkrw; congruence).
  eexists. exists lw, rw, lw1, rw1, pb, pa, pc.
  do 2 (split; [assumption |]).
  split; [reflexivity |].
  do 5 (split; [reflexivity |]).
  split; [exact Hqlw |]. split; [exact Hqrw |].
  split; [intros []; eexists; reflexivity |].
  split; [rewrite <- Hqlw; reflexivity |].
  split; [rewrite <- Hqrw; reflexivity |].
  do 2 (split; [reflexivity |]).
  split; [reflexivity |]. split; assumption.
Qed.

(** [setRobotPosition] keeps the sensors, the render loop and the promise
    of [ensureInitialized]. *)
Lemma setRobotPosition_frame (position_ : RobotPosition) (s : Space) :
  let s' := fst (setRobotPosition position_ s) in
  sensorObjects_ s' = sensorObjects_ s
  /\ renderLoopRunning s' = renderLoopRunning s
  /\ initializationPromise s' = initializationPromise s.
Proof.
  set (I := fun t : Space =>
              sensorObjects_ t = sensorObjects_ s
              /\ renderLoopRunning t = renderLoopRunning s
              /\ initializationPromise t = initializationPromise s).
  assert (Hset : forall f m t, I t -> I (setRootMesh f m t)).
  { intros f m t H. exact H. }
  assert (Hmap : forall a mv t, I t -> I (carry a mv t)).
  { intros a mv t H. exact H. }
  assert (Hvel : forall f v, keeps I (fun _ => True) (setLinearVelocity f v)
                             /\ keeps I (fun _ => True) (setAngularVelocity f v)).
  { intros f v. split;
      (apply keeps_bind; [apply keeps_get |]; intro t;
       apply keeps_bind; [apply keeps_deref; exact Logic.I |]; intro m;
       apply keeps_bind; [apply keeps_deref; exact Logic.I |]; intro i;
       apply keeps_modify; intros u; apply Hset). }
  assert (Hpar : forall f p, keeps I (fun _ => True) (setParent f p)).
  { intros f p.
    apply keeps_bind; [apply keeps_get |]. intro t.
    apply keeps_bind; [apply keeps_deref; exact Logic.I |]. intro m.
    apply keeps_modify. intros u. apply Hset. }
  assert (H : keeps I (fun _ => True) (setRobotPosition position_)).
  { unfold setRobotPosition.
    apply keeps_bind; [apply keeps_get |]. intro t.
    apply keeps_bind; [apply keeps_deref; exact Logic.I |]. intro body.
    apply keeps_bind.
    { apply keeps_forEach. intros f _.
      apply keeps_bind; [apply (Hvel f) |]. intros _.
      apply keeps_bind; [apply (Hvel f) |]. intros _. apply Hpar. }
    intros _.
    apply keeps_bind; [apply keeps_modify; intros u; apply Hmap |]. intros _.
    apply keeps_bind; [apply keeps_modify; intros u; apply Hmap |]. intros _.
    apply keeps_forEach. intros f _. apply Hpar. }
  apply (H s). repeat split.
Qed.

Lemma origin_target :
  mkVector3
    (Distance.toCentimetersValue (Distance.mk Distance.centimeters 0))
    (Distance.toCentimetersValue (Distance.mk Distance.centimeters 0))
    (Distance.toCentimetersValue (Distance.mk Distance.centimeters 0))
  = Vec.Zero.
Proof.
  unfold Distance.toCentimetersValue, Distance.toType, Vec.Zero; simpl.
  f_equal; field.
Qed.

Lemma origin_heading :
  Quat.RotationAxis Vec.Up (Angle.toRadiansValue (Angle.mk Angle.degrees 0))
  = Quat.Identity.
Proof.
  unfold Angle.toRadiansValue, Angle.toRadians, Angle.toType,
    Quat.RotationAxis, Quat.Identity, Vec.Up; simpl.
  replace (0 * (PI / 180) / 1 / 2) with 0 by field.
  rewrite sin_0, cos_0. f_equal; ring.
Qed.

(** [loadMeshes] on a complete model: the rig it leaves, and how the
    rotations it has recorded relate to the rig's final pose. *)
Lemma loadMeshes_result (sensors : list string) (s0 : Space) :
  modelComplete s0 ->
  exists (s' : Space) (lw rw : Mesh) (pl pr pa pc : Vector3)
         (ql qr qa qc : Quaternion),
    find (fun m => String.eqb (name m) "collider_left_wheel") (sceneMeshes s0)
    = Some lw
    /\ find (fun m => String.eqb (name m) "collider_right_wheel") (sceneMeshes s0)
       = Some rw
    /\ loadMeshes sensors s0 = (s', Ok tt)
    /\ rigBuilt s'
    /\ sensorObjects_ s' = sensors
    /\ renderLoopRunning s' = renderLoopRunning s0
    /\ initializationPromise s' = initializationPromise s0
    /\ (forall f, lastMotor f s' = None)
    /\ (forall f, velocities f s' = Some (Vec.Zero, Vec.Zero))
    /\ (forall f, exists m, rootMesh s' f = Some m /\ parent m = None)
    /\ pose bodyCompoundRootMesh s' = Some (Vec.Zero, Quat.Identity)
    /\ pose colliderLeftWheelMesh s' = Some (pl, ql)
    /\ pose colliderRightWheelMesh s' = Some (pr, qr)
    /\ pose armCompoundRootMesh s' = Some (pa, qa)
    /\ pose clawCompoundRootMesh s' = Some (pc, qc)
    /\ rotation s' leftWheelRotationPrev
       = Some (Quat.multiply (Quat.Inverse Quat.Identity) ql)
    /\ rotation s' rightWheelRotationPrev
       = Some (Quat.multiply (Quat.Inverse Quat.Identity) qr)
    /\ rotation s' armRotationDefault
       = Some (Quat.multiply (Quat.Inverse Quat.Identity) qa)
    /\ rotation s' clawRotationDefault
       = Some (Quat.multiply (Quat.Inverse qa) qc)
    /\ Quat.lengthSquared ql = Quat.lengthSquared (rotationQuaternion lw)
    /\ Quat.lengthSquared qr = Quat.lengthSquared (rotationQuaternion rw)
    /\ Quat.lengthSquared qa = 1
    /\ Quat.lengthSquared qc = 1.
Proof.
  intro Hc.
  destruct (loadMeshes_run sensors s0 Hc)
    as [s1 [lw [rw [lw1 [rw1 [pb0 [pa0 [pc0 H]]]]]]]].
  destruct H as [Hlw [Hrw [Hrun [Hb [Ha [Hcl [Hl [Hr H]]]]]]]].
  destruct H as [Hqlw [Hqrw [Hj [Rl [Rr [Ra [Rc [Hso [Hrl Hip]]]]]]]]].
  assert (Hroots : rootsBuilt s1).
  { intros []; rewrite ?Hb, ?Ha, ?Hcl, ?Hl, ?Hr; do 2 eexists; split; reflexivity. }
  destruct (setRobotPosition_run
              (mkRobotPosition (Distance.mk Distance.centimeters 0)
                               (Distance.mk Distance.centimeters 0)
                               (Distance.mk Distance.centimeters 0)
                               (Angle.mk Angle.degrees 0))
              s1 pb0 Quat.Identity Hroots)
    as [s' [Hrun' [Hj' [Hr' Hall]]]].
  { unfold pose. rewrite Hb. reflexivity. }
  cbv zeta in Hall. cbn [posX posY posZ posTheta] in Hall.
  rewrite origin_target, origin_heading in Hall.
  pose proof (setRobotPosition_frame
                (mkRobotPosition (Distance.mk Distance.centimeters 0)
                                 (Distance.mk Distance.centimeters 0)
                                 (Distance.mk Distance.centimeters 0)
                                 (Angle.mk Angle.degrees 0)) s1) as Hframe.
  rewrite Hrun' in Hframe. cbv zeta in Hframe. cbn [fst] in Hframe.
  destruct Hframe as [F3 [F4 F5]].
  set (turn := Quat.multiply Quat.Identity (Quat.Inverse Quat.Identity)) in *.
  assert (Hturn : forall q, Quat.multiply turn q = q).
  { intros [x y z w]. subst turn.
    unfold Quat.multiply, Quat.Inverse, Quat.Identity; simpl. f_equal; ring. }
  assert (Hpose : forall f m, rootMesh s1 f = Some m ->
            exists p, pose f s' = Some (p, rotationQuaternion m)
                      /\ p = Vec.add Vec.Zero
                               (Quat.rotateVector turn
                                  (Vec.subtract (position m) pb0))).
  { intros f m Hm. destruct (Hall f) as [m0 [m' [Hm0 [Hm' [_ [_ [Hp Hq]]]]]]].
    assert (m0 = m) by congruence. subst m0.
    unfold pose. rewrite Hm'. eexists. rewrite Hq, Hturn. split; [| exact Hp].
    reflexivity. }
  destruct (Hpose _ _ Hb) as [pb [Pb Epb]].
  destruct (Hpose _ _ Hl) as [pl [Pl _]].
  destruct (Hpose _ _ Hr) as [pr [Pr _]].
  destruct (Hpose _ _ Ha) as [pa [Pa _]].
  destruct (Hpose _ _ Hcl) as [pc [Pc _]].
  cbn [rotationQuaternion position withImpostor withPickable fixNegativeScaling
       withScaling withParent newRootMesh] in Pb, Pl, Pr, Pa, Pc, Epb.
  rewrite rotateVector_Zero, add_Zero in Epb. subst pb.
  exists s', lw, rw, pl, pr, pa, pc.
  exists (rotationQuaternion lw1), (rotationQuaternion rw1), Quat.Identity,
    (mkQuaternion 0 0 0 1).
  split; [exact Hlw |]. split; [exact Hrw |].
  split; [rewrite Hrun; exact Hrun' |].
  split.
  { split; [| split].
    - intro f. destruct (Hall f) as [m [m' [_ [Hm' [_ [[i [Hi _]] _]]]]]]. eauto.
    - intro f. rewrite Hj'. destruct (Hj f) as [d Hd]. eauto.
    - intros []; rewrite Hr', ?Rl, ?Rr, ?Ra, ?Rc; eauto. }
  split; [congruence |]. split; [congruence |]. split; [congruence |].
  split.
  { intro f. unfold lastMotor. rewrite Hj'. destruct (Hj f) as [d ->].
    reflexivity. }
  split.
  { intro f. destruct (Hall f) as [m [m' [_ [Hm' [_ [[i [Hi [Hv1 Hv2]]] _]]]]]].
    unfold velocities. rewrite Hm', Hi, Hv1, Hv2. reflexivity. }
  split.
  { intro f. destruct (Hall f) as [m [m' [_ [Hm' [Hpar _]]]]]. eauto. }
  split; [exact Pb |]. split; [exact Pl |]. split; [exact Pr |].
  split; [exact Pa |]. split; [exact Pc |].
  rewrite Hr', Rl, Rr, Ra, Rc, Hqlw, Hqrw.
  repeat split; unfold Quat.lengthSquared; simpl; ring.
Qed.

Lemma completeModel_complete : modelComplete completeModel.
Proof.
  split; intros n Hn; simpl in Hn;
    repeat (destruct Hn as [<- | Hn]; [vm_compute; discriminate |]);
    contradiction.
Qed.

(** X19.  [loadMeshes] succeeds on every scene that holds the meshes and
    transform nodes it looks up by name, whatever else the scene holds and
    wherever the model stands: it leaves the five root meshes with their
    impostors, at rest and without parent, the four joints with no motor
    command yet, the four recorded rotations, and the sensors; the body
    root is at the origin with the identity rotation. *)
Theorem loadMeshes_builds_rig (sensors : list string) (s0 : Space) :
  modelComplete s0 ->
  exists s',
    loadMeshes sensors s0 = (s', Ok tt)
    /\ rigBuilt s'
    /\ sensorObjects_ s' = sensors
    /\ (forall f, lastMotor f s' = None)
    /\ (forall f, velocities f s' = Some (Vec.Zero, Vec.Zero))
    /\ (forall f, exists m, rootMesh s' f = Some m /\ parent m = None)
    /\ pose bodyCompoundRootMesh s' = Some (Vec.Zero, Quat.Identity).
Proof.
  intro Hc.
  destruct (loadMeshes_result sensors s0 Hc)
    as [s' [lw [rw [pl [pr [pa [pc [ql [qr [qa [qc H]]]]]]]]]]].
  destruct H as [_ [_ [Hrun [Hrig [Hso [_ [_ [Hm [Hv [Hp [Hb _]]]]]]]]]]].
  exists s'. split; [exact Hrun |]. split; [exact Hrig |].
  split; [exact Hso |]. split; [exact Hm |].
  split; [exact Hv |]. split; [exact Hp | exact Hb].
Qed.

Lemma loadMeshes_builds_rig_witness :
  exists s',
    loadMeshes [] completeModel = (s', Ok tt)
    /\ rigBuilt s'
    /\ pose bodyCompoundRootMesh s' = Some (Vec.Zero, Quat.Identity).
Proof.
  destruct (loadMeshes_builds_rig [] completeModel completeModel_complete)
    as [s' [Hrun [Hrig [_ [_ [_ [_ Hb]]]]]]].
  exists s'. split; [exact Hrun |]. split; [exact Hrig | exact Hb].
Defined.

(** X20.  No jump at the first frame: after [loadMeshes] on a complete
    model whose wheel meshes have unit rotation quaternions, the first run
    of the after-render callback succeeds and dispatches motor positions 0
    and 3 unchanged: the rotations recorded as "previous" are those of the
    wheels as they stand, and what the callback extracts from them, once
    wrapped, is a rotation of 0. *)
Theorem first_frame_keeps_motor_positions (sensors : list string)
        (st : RobotState) (s0 : Space) (lw rw : Mesh) :
  modelComplete s0 ->
  find (fun m => String.eqb (name m) "collider_left_wheel") (sceneMeshes s0)
  = Some lw ->
  find (fun m => String.eqb (name m) "collider_right_wheel") (sceneMeshes s0)
  = Some rw ->
  Quat.lengthSquared (rotationQuaternion lw) = 1 ->
  Quat.lengthSquared (rotationQuaternion rw) = 1 ->
  exists s' s'' next,
    loadMeshes sensors s0 = (s', Ok tt)
    /\ afterRender st s' = (s'', Ok next)
    /\ at0 (motorPositions next) = at0 (motorPositions st)
    /\ at3 (motorPositions next) = at3 (motorPositions st).
Proof.
  intros Hc Hlw Hrw Hul Hur.
  destruct (loadMeshes_result sensors s0 Hc)
    as [s' [lw' [rw' [pl [pr [pa [pc [ql [qr [qa [qc H]]]]]]]]]]].
  destruct H as [Hlw' [Hrw' [Hrun [Hrig [_ [_ [_ [_ [_ [_ H]]]]]]]]]].
  destruct H as [Pb [Pl [Pr [_ [_ [Rl [Rr [_ [_ [Ul [Ur _]]]]]]]]]]].
  assert (lw' = lw) by congruence. assert (rw' = rw) by congruence.
  subst lw' rw'. rewrite Hul in Ul. rewrite Hur in Ur.
  assert (Hi : Quat.lengthSquared Quat.Identity = 1)
    by (unfold Quat.lengthSquared; simpl; ring).
  destruct (afterRender_run st s' Vec.Zero pl pr Quat.Identity ql qr _ _
              Hrig Pb Pl Pr Rl Rr) as [s'' [Hrun' _]].
  exists s', s''. eexists.
  split; [exact Hrun |].
  split; [exact Hrun' |].
  cbn [motorPositions at0 at3].
  rewrite !wheelRotation_same by (apply relative_unit; assumption).
  split; ring.
Qed.

Lemma first_frame_keeps_motor_positions_witness :
  exists s' s'' next,
    loadMeshes [] completeModel = (s', Ok tt)
    /\ afterRender (mkRobotState (mkTuple4 100 0 0 100) (mkTuple4 7 8 9 10)
                                 (mkTuple4 1024 0 0 2048) [] [])
                   s' = (s'', Ok next)
    /\ at0 (motorPositions next) = 7
    /\ at3 (motorPositions next) = 10.
Proof.
  destruct (first_frame_keeps_motor_positions []
              (mkRobotState (mkTuple4 100 0 0 100) (mkTuple4 7 8 9 10)
                            (mkTuple4 1024 0 0 2048) [] [])
              completeModel
              (importedMesh "collider_left_wheel")
              (importedMesh "collider_right_wheel")
              completeModel_complete eq_refl eq_refl)
    as [s' [s'' [next [H1 [H2 [H3 H4]]]]]].
  - unfold Quat.lengthSquared; simpl. ring.
  - unfold Quat.lengthSquared; simpl. ring.
  - exists s', s'', next. repeat split; assumption.
Defined.

(** X21.  Servo home positions: right after [loadMeshes] on a complete
    model the arm and the claw are at rotation 0 from their recorded
    baselines, which [setServoPositions] reads as 1024 ticks for the arm
    and 2048 ticks for the claw: with these goals both servo motors are
    stopped, and with any arm goal [g] the arm motor command is the one
    for a servo standing [1024 - g] ticks from its goal. *)
Theorem servos_at_home_after_loading (sensors : list string) (s0 : Space) :
  modelComplete s0 ->
  exists s',
    loadMeshes sensors s0 = (s', Ok tt)
    /\ jointRotation armRotationDefault bodyCompoundRootMesh
                     armCompoundRootMesh armRotationVector s' = Some 0
    /\ jointRotation clawRotationDefault armCompoundRootMesh
                     clawCompoundRootMesh clawRotationVector s' = Some 0
    /\ (forall goals, exists s'',
          setServoPositions goals s' = (s'', Ok tt)
          /\ lastMotor armJoint s'' = Some (armMotorCommand 0 goals)
          /\ lastMotor clawJoint s'' = Some (clawMotorCommand 0 goals)
          /\ (at0 goals = 1024 -> lastMotor armJoint s'' = Some (Motor 0 None))
          /\ (at3 goals = 2048 -> lastMotor clawJoint s'' = Some (Motor 0 None))).
Proof.
  intro Hc.
  destruct (loadMeshes_result sensors s0 Hc)
    as [s' [lw' [rw' [pl [pr [pa [pc [ql [qr [qa [qc H]]]]]]]]]]].
  destruct H as [_ [_ [Hrun [Hrig [_ [_ [_ [_ [_ [_ H]]]]]]]]]].
  destruct H as [Pb [_ [_ [Pa [Pc [_ [_ [Ra [Rc [_ [_ [Ua Uc]]]]]]]]]]]].
  assert (Hi : Quat.lengthSquared Quat.Identity = 1)
    by (unfold Quat.lengthSquared; simpl; ring).
  assert (Harm : jointRotation armRotationDefault bodyCompoundRootMesh
                   armCompoundRootMesh armRotationVector s' = Some 0).
  { unfold jointRotation. rewrite Ra. unfold pose in Pb, Pa.
    destruct (rootMesh s' bodyCompoundRootMesh) as [mb |]; [| discriminate].
    destruct (rootMesh s' armCompoundRootMesh) as [ma |]; [| discriminate].
    injection Pb as _ ->. injection Pa as _ ->.
    f_equal.
    apply getDeltaRotationOnAxis_same; [apply relative_unit; assumption |].
    unfold Vec.lengthSquared, armRotationVector; simpl. ring. }
  assert (Hclaw : jointRotation clawRotationDefault armCompoundRootMesh
                    clawCompoundRootMesh clawRotationVector s' = Some 0).
  { unfold jointRotation. rewrite Rc. unfold pose in Pa, Pc.
    destruct (rootMesh s' armCompoundRootMesh) as [ma |]; [| discriminate].
    destruct (rootMesh s' clawCompoundRootMesh) as [mc |]; [| discriminate].
    injection Pa as _ ->. injection Pc as _ ->.
    f_equal.
    apply getDeltaRotationOnAxis_same; [apply relative_unit; assumption |].
    unfold Vec.lengthSquared, clawRotationVector; simpl. ring. }
  exists s'. split; [exact Hrun |]. split; [exact Harm |]. split; [exact Hclaw |].
  intro goals.
  destruct (setServoPositions_commands goals s' Hrig)
    as [s'' [Hrun' [Ha [Hcl _]]]].
  rewrite Harm in Ha. rewrite Hclaw in Hcl. cbn [option_map] in Ha, Hcl.
  exists s''. split; [exact Hrun' |]. split; [exact Ha |]. split; [exact Hcl |].
  pose proof SERVO_DEFUALT_RADIANS_pos as Hpos.
  split; intro Hg.
  - rewrite Ha. f_equal.
    apply (armMotorCommand_tiers 0 goals).
    rewrite wrapServoRotation_0.
    unfold armDelta, ARM_DEFAULT_ROTATION, SERVO_TICKS_PER_RADIAN.
    rewrite Hg. field. lra.
  - rewrite Hcl. f_equal.
    apply (clawMotorCommand_tiers 0 goals).
    rewrite wrapServoRotation_0.
    unfold clawDelta, SERVO_TICKS_PER_RADIAN. rewrite CLAW_DEFAULT_ROTATION_eq.
    rewrite Hg. field. lra.
Qed.

Lemma servos_at_home_after_loading_witness :
  exists s' s'',
    loadMeshes [] completeModel = (s', Ok tt)
    /\ setServoPositions (mkTuple4 1024 0 0 2048) s' = (s'', Ok tt)
    /\ lastMotor armJoint s'' = Some (Motor 0 None)
    /\ lastMotor clawJoint s'' = Some (Motor 0 None).
Proof.
  destruct (servos_at_home_after_loading [] completeModel completeModel_complete)
    as [s' [Hrun [_ [_ H]]]].
  destruct (H (mkTuple4 1024 0 0 2048)) as [s'' [Hrun' [_ [_ [Ha Hc]]]]].
  exists s', s''. split; [exact Hrun |]. split; [exact Hrun' |].
  split; [apply Ha | apply Hc]; reflexivity.
Defined.

(** X22.  [ensureInitialized] builds the rig once.  On a complete model
    with no initialization started it resolves, leaves the rig built and
    the render loop running, and keeps the resolved promise; and whatever
    the first call made of any [Space], success or failure, every later
    call returns that same settled promise and changes nothing: a failed
    load is never tried again. *)
Theorem ensureInitialized_once (sensors : list string) :
  (forall s0,
      modelComplete s0 -> initializationPromise s0 = None ->
      exists s',
        ensureInitialized sensors s0 = (s', Ok tt)
        /\ rigBuilt s'
        /\ renderLoopRunning s' = true
        /\ initializationPromise s' = Some (Ok tt))
  /\ (forall s sensors',
         ensureInitialized sensors' (fst (ensureInitialized sensors s))
         = ensureInitialized sensors s).
Proof.
  split.
  - intros s0 Hc Hnone.
    destruct (loadMeshes_result sensors s0 Hc)
      as [s' [lw [rw [pl [pr [pa [pc [ql [qr [qa [qc H]]]]]]]]]]].
    destruct H as [_ [_ [Hrun [Hrig _]]]].
    unfold ensureInitialized. rewrite Hnone.
    unfold createScene. rewrite bind_ret.
    erewrite bind_Ok by exact Hrun.
    unfold startRenderLoop, modify.
    eexists. split; [reflexivity |].
    split; [| split; reflexivity].
    destruct Hrig as [H1 [H2 H3]]. repeat split; assumption.
  - intros s sensors'. unfold ensureInitialized at 2 3.
    destruct (initializationPromise s) as [p |] eqn:Hp.
    + cbn [fst]. unfold ensureInitialized. rewrite Hp. reflexivity.
    + destruct ((createScene ;;; loadMeshes sensors ;;; startRenderLoop)%space s)
        as [s' outcome].
      cbn [fst]. reflexivity.
Qed.

Lemma ensureInitialized_once_witness :
  exists s',
    ensureInitialized [] completeModel = (s', Ok tt)
    /\ rigBuilt s'
    /\ renderLoopRunning s' = true
    /\ initializationPromise s' = Some (Ok tt).
Proof.
  apply (proj1 (ensureInitialized_once [])).
  - exact completeModel_complete.
  - reflexivity.
Defined.

(** ** Negative scaling *)

Lemma Rabs_Math_sign (x v : R) : Rabs x * (Math_sign x * v) = x * v.
Proof.
  unfold Math_sign.
  destruct (Rlt_dec 0 x) as [Hpos | Hnpos].
  - rewrite Rabs_pos_eq by lra. ring.
  - destruct (Rlt_dec x 0) as [Hneg | Hnneg].
    + rewrite Rabs_left by exact Hneg. ring.
    + assert (x = 0) by lra. subst x. rewrite Rabs_R0. ring.
Qed.

Lemma Math_sign_pos (x : R) : 0 < x -> Math_sign x = 1.
Proof.
  intro H. unfold Math_sign. destruct (Rlt_dec 0 x); [reflexivity | contradiction].
Qed.

(** X23.  [fixNegativeScaling] keeps the shape of the mesh: every vertex
    of the baked geometry, placed by the new scaling, is where the old
    scaling placed the original vertex; the new scaling has no negative
    component; name, pose, parent and impostor are untouched.  On a mesh
    whose scaling components are all positive the call changes neither
    the mesh nor its vertices. *)
Theorem fixNegativeScaling_keeps_shape (mesh : Mesh) (vertices : list Vector3) :
  map (scaledVertex (fixNegativeScaling mesh))
      (fixNegativeScalingVertices mesh vertices)
  = map (scaledVertex mesh) vertices
  /\ (0 <= vx (scaling (fixNegativeScaling mesh))
      /\ 0 <= vy (scaling (fixNegativeScaling mesh))
      /\ 0 <= vz (scaling (fixNegativeScaling mesh)))
  /\ (meshKey (fixNegativeScaling mesh) = meshKey mesh
      /\ parent (fixNegativeScaling mesh) = parent mesh
      /\ physicsImpostor (fixNegativeScaling mesh) = physicsImpostor mesh)
  /\ (0 < vx (scaling mesh) -> 0 < vy (scaling mesh) -> 0 < vz (scaling mesh) ->
      fixNegativeScaling mesh = mesh
      /\ fixNegativeScalingVertices mesh vertices = vertices).
Proof.
  split; [| split; [| split]].
  - unfold fixNegativeScalingVertices, bakeTransformIntoVertices.
    rewrite map_map. apply map_ext. intro v.
    unfold scaledVertex, fixNegativeScaling; simpl.
    rewrite !Rabs_Math_sign. reflexivity.
  - unfold fixNegativeScaling; simpl. repeat split; apply Rabs_pos.
  - destruct mesh; repeat split.
  - intros Hx Hy Hz. split.
    + destruct mesh as [n p q [sx sy sz] pa i pk vi]. simpl in *.
      unfold fixNegativeScaling, withScaling; simpl.
      rewrite !Rabs_pos_eq by lra. reflexivity.
    + unfold fixNegativeScalingVertices, bakeTransformIntoVertices.
      rewrite !Math_sign_pos by assumption. simpl.
      rewrite <- (map_id vertices) at 2. apply map_ext.
      intros [x y z]. simpl. f_equal; ring.
Qed.

Lemma fixNegativeScaling_keeps_shape_witness :
  fixNegativeScaling (importedMesh "collider_body") = importedMesh "collider_body"
  /\ fixNegativeScalingVertices (importedMesh "collider_body") [mkVector3 1 2 3]
     = [mkVector3 1 2 3].
Proof.
  apply (fixNegativeScaling_keeps_shape (importedMesh "collider_body")
           [mkVector3 1 2 3]); simpl; lra.
Defined.

(** ** The earlier rig *)

Lemma beforeRender_publishes (frame : Sim.Frame) (ticks : nat) :
  existsb Sim.isUpdateRobotState (snd (Sim.beforeRender frame ticks))
  = (Sim.TICKS_BETWEEN_ET_SENSOR_UPDATES <=? ticks)%nat.
Proof.
  unfold Sim.beforeRender.
  destruct (Sim.TICKS_BETWEEN_ET_SENSOR_UPDATES <=? ticks)%nat;
    destruct (Sim.fakeIsVisible frame);
    destruct (Sim.arm frame) as [[[] v] |]; reflexivity.
Qed.

Lemma beforeRender_ticks (frame : Sim.Frame) (ticks : nat) :
  (ticks <= 15)%nat ->
  fst (Sim.beforeRender frame ticks) = ((ticks + 1) mod 16)%nat
  /\ (fst (Sim.beforeRender frame ticks) <= 15)%nat.
Proof.
  intro H. unfold Sim.beforeRender, Sim.TICKS_BETWEEN_ET_SENSOR_UPDATES.
  destruct (15 <=? ticks)%nat eqn:E; cbn [fst].
  - apply Nat.leb_le in E. assert (ticks = 15)%nat by lia. subst ticks.
    split; [reflexivity | lia].
  - apply Nat.leb_gt in E. rewrite Nat.mod_small by lia. lia.
Qed.

Lemma render_period (frames : list Sim.Frame) (ticks : nat) :
  (ticks <= 15)%nat ->
  fst (Sim.render frames ticks) = ((ticks + List.length frames) mod 16)%nat
  /\ List.length (snd (Sim.render frames ticks)) = List.length frames
  /\ forall k calls,
       nth_error (snd (Sim.render frames ticks)) k = Some calls ->
       existsb Sim.isUpdateRobotState calls = true
       <-> ((ticks + k) mod 16 = 15)%nat.
Proof.
  revert ticks. induction frames as [| frame rest IH]; intros ticks Ht.
  - cbn [Sim.render fst snd List.length]. rewrite Nat.add_0_r.
    rewrite Nat.mod_small by lia. split; [reflexivity |]. split; [reflexivity |].
    intros [| k] calls H; discriminate.
  - cbn [Sim.render].
    destruct (beforeRender_ticks frame ticks Ht) as [Hnext Hle].
    pose proof (beforeRender_publishes frame ticks) as Hpub.
    destruct (Sim.beforeRender frame ticks) as [next calls0].
    cbn [fst snd] in Hnext, Hle, Hpub.
    destruct (IH next Hle) as [IH1 [IH2 IH3]].
    destruct (Sim.render rest next) as [final more].
    cbn [fst snd] in *. split; [| split].
    + rewrite IH1, Hnext. cbn [List.length].
      rewrite Nat.Div0.add_mod_idemp_l. f_equal. lia.
    + cbn [List.length]. rewrite IH2. reflexivity.
    + intros [| k] calls H.
      * injection H as <-. rewrite Hpub, Nat.add_0_r.
        rewrite Nat.mod_small by lia.
        unfold Sim.TICKS_BETWEEN_ET_SENSOR_UPDATES.
        rewrite Nat.leb_le. lia.
      * cbn [nth_error] in H. rewrite (IH3 k calls H), Hnext.
        rewrite Nat.Div0.add_mod_idemp_l.
        replace (ticks + 1 + k)%nat with (ticks + S k)%nat by lia. reflexivity.
Qed.

(** X24.  The ET-sensor period of the earlier rig: counting frames from 1
    and starting with [ticksSinceETSensorUpdate = 0], the before-render
    callback publishes the sensor readings to the robot state in frames
    16, 32, 48, ... and in no other frame, whatever the sensors show; the
    counter is the number of frames modulo 16. *)
Theorem et_sensor_period (frames : list Sim.Frame) :
  fst (Sim.render frames 0) = (List.length frames mod 16)%nat
  /\ List.length (snd (Sim.render frames 0)) = List.length frames
  /\ forall k calls,
       nth_error (snd (Sim.render frames 0)) k = Some calls ->
       existsb Sim.isUpdateRobotState calls = true <-> ((k + 1) mod 16 = 0)%nat.
Proof.
  destruct (render_period frames 0) as [H1 [H2 H3]]; [lia |].
  split; [exact H1 |]. split; [exact H2 |].
  intros k calls H. rewrite (H3 k calls H). cbn [Nat.add].
  pose proof (Nat.mod_upper_bound k 16) as Hk.
  destruct (Nat.eq_dec (k mod 16) 15) as [E | E].
  - split; [intros _ | intros _; exact E].
    rewrite <- Nat.Div0.add_mod_idemp_l, E. reflexivity.
  - split; [intro; contradiction |]. intro H0. exfalso.
    rewrite <- Nat.Div0.add_mod_idemp_l in H0.
    rewrite Nat.mod_small in H0 by lia. lia.
Qed.

(** X25.  In one frame of the earlier rig, whatever the counter: each ET
    sensor is updated at most once, and exactly once when it is visible or
    the frame publishes; a missing arm sensor is never called; and what a
    frame publishes is six analog values: the fake sensor's value, the arm
    sensor's value (the robot state's channel 1 when there is no arm
    sensor), and 0 in channels 2 to 5. *)
Theorem beforeRender_calls (frame : Sim.Frame) (ticks : nat) :
  let calls := snd (Sim.beforeRender frame ticks) in
  let publishing := (Sim.TICKS_BETWEEN_ET_SENSOR_UPDATES <=? ticks)%nat in
  List.length (filter (Sim.isUpdateOf Sim.etSensorFake) calls)
  = (if Sim.fakeIsVisible frame || publishing then 1 else 0)%nat
  /\ List.length (filter (Sim.isUpdateOf Sim.etSensorArm) calls)
     = match Sim.arm frame with
       | Some (isVisible, _) => if isVisible || publishing then 1 else 0
       | None => 0
       end%nat
  /\ (Sim.arm frame = None ->
      forall c, In c calls ->
        c <> Sim.Update Sim.etSensorArm /\ c <> Sim.UpdateVisual Sim.etSensorArm)
  /\ forall analogValues,
       In (Sim.UpdateRobotState analogValues) calls ->
       analogValues
       = [ Some (Sim.fakeValue frame);
           match Sim.arm frame with
           | Some (_, value) => Some value
           | None => nth_error (Sim.currAnalogValues frame) 1
           end;
           Some 0; Some 0; Some 0; Some 0 ].
Proof.
  unfold Sim.beforeRender.
  destruct (Sim.TICKS_BETWEEN_ET_SENSOR_UPDATES <=? ticks)%nat;
    destruct (Sim.fakeIsVisible frame);
    destruct (Sim.arm frame) as [[[] v] |]; cbn;
    (split; [reflexivity |]); (split; [reflexivity |]);
    (split; [intros Hnone c Hin; try discriminate;
             repeat (destruct Hin as [<- | Hin]; [split; discriminate |]);
             contradiction |]);
    intros analogValues Hin;
    repeat (destruct Hin as [Hin | Hin]; [try discriminate |]);
    try contradiction; try (injection Hin as <-; reflexivity).
Qed.

Lemma et_sensor_period_witness :
  exists calls,
    nth_error (snd (Sim.render (repeat (Sim.mkFrame false 5 None [1; 2]) 16) 0)) 15
    = Some calls
    /\ existsb Sim.isUpdateRobotState calls = true.
Proof.
  eexists. split; [reflexivity |].
  apply (proj2 (proj2 (et_sensor_period (repeat (Sim.mkFrame false 5 None [1; 2]) 16)))
           15%nat);
    reflexivity.
Defined.

Lemma beforeRender_calls_witness :
  [ Some 5; Some 2; Some 0; Some 0; Some 0; Some 0 ]
  = [ Some (Sim.fakeValue (Sim.mkFrame false 5 None [1; 2]));
      match Sim.arm (Sim.mkFrame false 5 None [1; 2]) with
      | Some (_, value) => Some value
      | None => nth_error (Sim.currAnalogValues (Sim.mkFrame false 5 None [1; 2])) 1
      end;
      Some 0; Some 0; Some 0; Some 0 ].
Proof.
  apply (proj2 (proj2 (proj2 (beforeRender_calls (Sim.mkFrame false 5 None [1; 2])
                                                 15)))).
  right. left. reflexivity.
Defined.

(** *** Cans *)

Lemma canCoordinate_in_range (canNumber : Z) :
  (1 <= canNumber <= 12)%Z ->
  exists coordinate, Sim.canCoordinate canNumber = Some coordinate.
Proof.
  intro H. unfold Sim.canCoordinate.
  destruct (canNumber - 1 <? 0)%Z eqn:E; [apply Z.ltb_lt in E; lia |].
  destruct (nth_error Sim.canCoordinates (Z.to_nat (canNumber - 1))) eqn:En;
    [eauto |].
  apply nth_error_None in En. simpl in En. lia.
Qed.

Lemma canCoordinate_out_of_range (canNumber : Z) :
  (canNumber < 1 \/ 12 < canNumber)%Z -> Sim.canCoordinate canNumber = None.
Proof.
  intro H. unfold Sim.canCoordinate.
  destruct (canNumber - 1 <? 0)%Z eqn:E; [reflexivity |].
  apply Z.ltb_ge in E. apply nth_error_None. simpl. lia.
Qed.

(** X26.  [createCan] of the earlier rig adds one mesh ["Can<n>"] with a
    cylinder impostor of mass 10 and friction 5 at the end of the scene.
    For a can number from 1 to 12 it succeeds and the can stands at height
    5 over its (x, z) coordinates of the table; for any other integer the
    can has already been added, at the origin, when the missing
    coordinates make the call throw a [TypeError]: a stray can stays in
    the scene. *)
Theorem createCan_bounds (canNumber : Z) (s : Space) :
  let can (p : Vector3) :=
    mkMesh (Sim.canName canNumber) p Quat.Identity (mkVector3 1 1 1) None
           (Some (newImpostor CylinderImpostor 10 (Some 5))) true true in
  ((1 <= canNumber <= 12)%Z ->
   exists x z,
     nth_error Sim.canCoordinates (Z.to_nat (canNumber - 1)) = Some (x, z)
     /\ Sim.createCan canNumber s
        = (setSceneMeshes (sceneMeshes s ++ [can (mkVector3 x 5 z)]) s, Ok tt))
  /\ ((canNumber < 1 \/ 12 < canNumber)%Z ->
      Sim.createCan canNumber s
      = (setSceneMeshes (sceneMeshes s ++ [can Vec.Zero]) s, Throw TypeError)).
Proof.
  intro can. split; intro H.
  - destruct (canCoordinate_in_range canNumber H) as [[x z] Hc].
    exists x, z. split.
    + unfold Sim.canCoordinate in Hc.
      destruct (canNumber - 1 <? 0)%Z; [discriminate | exact Hc].
    + unfold Sim.createCan. rewrite bind_get, bind_modify, Hc, bind_deref_Some.
      reflexivity.
  - unfold Sim.createCan.
    rewrite bind_get, bind_modify, (canCoordinate_out_of_range canNumber H).
    reflexivity.
Qed.

Lemma createCan_bounds_witness :
  Sim.createCan 13 completeModel
  = (setSceneMeshes
       (sceneMeshes completeModel
        ++ [mkMesh (Sim.canName 13) Vec.Zero Quat.Identity (mkVector3 1 1 1) None
                   (Some (newImpostor CylinderImpostor 10 (Some 5))) true true])
       completeModel,
     Throw TypeError).
Proof.
  apply (proj2 (createCan_bounds 13 completeModel)). right. lia.
Defined.

Lemma find_app_new (n : string) (l : list Mesh) (m : Mesh) :
  find (fun m => String.eqb (name m) n) l = None ->
  name m = n ->
  find (fun m => String.eqb (name m) n) (l ++ [m]) = Some m
  /\ Sim.disposeFirst n (l ++ [m]) = l.
Proof.
  intros Hnone Hname. induction l as [| a l IH]; simpl in *.
  - rewrite Hname, String.eqb_refl. split; reflexivity.
  - destruct (String.eqb (name a) n); [discriminate |].
    destruct (IH Hnone) as [H1 H2]. rewrite H1, H2. split; reflexivity.
Qed.

(** X27.  Cans come and go: in a scene with no mesh named ["Can<n>"],
    [destroyCan n] throws a [TypeError] and changes nothing; and after a
    successful [createCan n] it succeeds and leaves the scene exactly as it
    was before the can was created. *)
Theorem destroyCan_undoes_createCan (canNumber : Z) (s : Space) :
  find (fun m => String.eqb (name m) (Sim.canName canNumber)) (sceneMeshes s)
  = None ->
  Sim.destroyCan canNumber s = (s, Throw TypeError)
  /\ ((1 <= canNumber <= 12)%Z ->
      exists s1,
        Sim.createCan canNumber s = (s1, Ok tt)
        /\ Sim.destroyCan canNumber s1
           = (setSceneMeshes (sceneMeshes s) s, Ok tt)
        /\ sceneMeshes (fst (Sim.destroyCan canNumber s1)) = sceneMeshes s).
Proof.
  intro Hnone. split.
  - unfold Sim.destroyCan. rewrite bind_getMeshByName, Hnone. reflexivity.
  - intro H.
    destruct (canCoordinate_in_range canNumber H) as [[x z] Hc].
    eexists. split.
    + unfold Sim.createCan. rewrite bind_get, bind_modify, Hc, bind_deref_Some.
      reflexivity.
    + unfold modify. cbn [fst].
      match goal with
      | |- context [ sceneMeshes s ++ [?m] ] =>
          destruct (find_app_new (Sim.canName canNumber) (sceneMeshes s) m Hnone
                      eq_refl) as [Hf Hd]
      end.
      unfold Sim.destroyCan. rewrite bind_getMeshByName.
      cbn [sceneMeshes setSceneMeshes]. rewrite Hf, bind_deref_Some.
      unfold modify. cbn [sceneMeshes setSceneMeshes]. rewrite Hd.
      split; reflexivity.
Qed.

Lemma destroyCan_undoes_createCan_witness :
  Sim.destroyCan 3 completeModel = (completeModel, Throw TypeError).
Proof.
  apply (proj1 (destroyCan_undoes_createCan 3 completeModel eq_refl)).
Defined.
